(** * ratlib: the HTTP/JSON API helper and the output filter

    A shallow embedding of [ratlib/api/http.py] ([urljoin], [call] and the
    error classes) and of [OutputFilterWrapper.transform] from
    [ratlib/sopel.py], with the properties the specification states
    about them. *)

From Stdlib Require Import String Ascii.
From Stdlib Require Import List NArith ZArith Bool Lia Permutation.
From Stdlib Require Decimal DecimalN DecimalZ DecimalFacts.
Import ListNotations.

Set Implicit Arguments.

(** ** Python strings

    A Python [str] is a sequence of Unicode code points. *)

Definition str := list N.

(** [u "text"] is the [str] with the code points of an ASCII literal. *)
Definition u (s : string) : str := map N_of_ascii (list_ascii_of_string s).

Definition chr_slash : N := 47.

Definition str_eqb (a b : str) : bool :=
  if list_eq_dec N.eq_dec a b then true else false.

(** [not s]: only the empty string is falsy. *)
Definition falsy (s : str) : bool :=
  match s with [] => true | _ :: _ => false end.

(** [s[0] == '/'] *)
Definition first_is_slash (s : str) : bool :=
  match s with c :: _ => N.eqb c chr_slash | [] => false end.

(** [s[-1] == '/'] *)
Definition last_is_slash (s : str) : bool :=
  match rev s with c :: _ => N.eqb c chr_slash | [] => false end.

(** ** [urljoin] *)

Module Url.

(** The generator [_gen] of [urljoin]: [prev] is the local variable of the
    same name ([None] before the first segment), the result is the list of
    the yielded pieces. *)
Fixpoint _gen (prev : option str) (parts : list str) : list str :=
  match parts with
  | [] => []
  | part :: rest =>
      if falsy part then _gen prev rest
      else
        match prev with
        | None => part :: _gen (Some part) rest
        | Some p =>
            if falsy p then part :: _gen (Some part) rest
            else if negb (Bool.eqb (last_is_slash p) (first_is_slash part))
            then part :: _gen (Some part) rest
            else if first_is_slash part
            then tl part :: _gen (Some (tl part)) rest
            else [chr_slash] :: part :: _gen (Some part) rest
        end
  end.

(** The pieces that [_gen] yields, joined by the empty separator. *)
Definition urljoin (parts : list str) : str := concat (_gen None parts).

(** What the specification asks of the result, as a function of its own:
    the segments that are not empty, in order, every two neighbours
    separated by exactly one ['/'] whatever slashes they carry at the
    junction. *)
Fixpoint lstrip_slashes (s : str) : str :=
  match s with
  | c :: s' => if N.eqb c chr_slash then lstrip_slashes s' else s
  | [] => []
  end.

Definition rstrip_slashes (s : str) : str := rev (lstrip_slashes (rev s)).

Fixpoint joined_after (segs : list str) : str :=
  match segs with
  | [] => []
  | [q] => chr_slash :: lstrip_slashes q
  | q :: rest => chr_slash :: rstrip_slashes (lstrip_slashes q) ++ joined_after rest
  end.

Definition separated_by_one_slash (segs : list str) : str :=
  match segs with
  | [] => []
  | [p] => p
  | p :: rest => rstrip_slashes p ++ joined_after rest
  end.

Definition nonempty (s : str) : bool := negb (falsy s).

(** A segment with at most one slash at each end around a content that
    is not empty and neither starts nor ends with a slash. *)
Definition core (s : str) : str :=
  let t := if first_is_slash s then tl s else s in
  if last_is_slash t then removelast t else t.

Definition simple_segment (s : str) : bool :=
  nonempty (core s) && negb (first_is_slash (core s)) && negb (last_is_slash (core s)).

End Url.

(** ** Outcomes

    The built-in exceptions that occur, and the outcome of a computation
    that returns or raises. *)

Inductive builtin : Type :=
| ValueError
| RecursionError
| TypeError
| IndexError
| KeyError
| AttributeError.

Inductive outcome (E A : Type) : Type :=
| Ok (a : A)
| Raise (e : E).
Arguments Ok {E A} & a.
Arguments Raise {E A} & e.

(** ** Python's [float]

    A [float] is an IEEE 754 binary64 number: a NaN, an infinity, a
    zero, or [m * 2 ^ e] with a sign, where [m] is below [2 ^ 53] and
    [e] from -1074 to 971, and [m] is at least [2 ^ 52] unless [e] is
    -1074. [of_decimal] is [float(text)] on the decimal [D * 10 ^ E] of
    the text: the nearest binary64 number, the one with the even [m]
    when two are as near. [repr_digits] gives the digits of
    [float.__repr__]: the shortest decimal that [float] reads back as
    the number, the nearest to the number when there are several. *)

Module Float.
Local Open Scope Z_scope.

Inductive float : Type :=
| Nan
| Inf (neg : bool)
| Zero (neg : bool)
| Finite (neg : bool) (m : positive) (e : Z).

(** The numbers binary64 has, each written in one way. *)
Definition binary64 (f : float) : bool :=
  match f with
  | Finite _ m e =>
      (Zpos m <? 2 ^ 53) && (-1074 <=? e) && (e <=? 971)
      && ((2 ^ 52 <=? Zpos m) || (e =? -1074))
  | _ => true
  end.

Definition float_eq_dec (a b : float) : {a = b} + {a <> b}.
Proof. decide equality; try apply Bool.bool_dec; try apply Z.eq_dec; apply Pos.eq_dec. Defined.

Definition float_eqb (a b : float) : bool := if float_eq_dec a b then true else false.

(** Rounding works on the quotient scaled by [2 ^ guard]: the least
    exponent is -1074, so every bit that decides the rounding is in the
    integer part of the scaled quotient, and what the division leaves
    only says whether the quotient is exact. *)
Definition guard : Z := 1200.

(** The binary64 number nearest to [num / den], for [num] that is not
    negative and [den] positive: the quotient is cut at the exponent
    [e] that leaves 53 bits, or at -1074 for a subnormal number, and
    rounded up when what is cut off is more than a half, or is a half
    and the last bit kept is odd; beyond the largest exponent it is an
    infinity. *)
Definition round_ratio (neg : bool) (num den : Z) : float :=
  let (Q, R) := Z.div_eucl (num * 2 ^ guard) den in
  if Q =? 0 then Zero neg
  else
    let e := Z.max (Z.log2 Q - guard - 52) (-1074) in
    let sh := e + guard in
    let q := Z.shiftr Q sh in
    let rem := Z.land Q (Z.ones sh) in
    let half := 2 ^ (sh - 1) in
    let up := (half <? rem) || ((half =? rem) && (negb (R =? 0) || Z.odd q)) in
    let m := if up then q + 1 else q in
    let e' := if m =? 2 ^ 53 then e + 1 else e in
    let m' := if m =? 2 ^ 53 then 2 ^ 52 else m in
    match m' with
    | Zpos p => if 971 <? e' then Inf neg else Finite neg p e'
    | _ => Zero neg
    end.

(** [float(text)] for the text of the decimal [D * 10 ^ E]. *)
Definition of_decimal (neg : bool) (D E : Z) : float :=
  round_ratio neg (D * 10 ^ Z.max E 0) (10 ^ Z.max (- E) 0).

(** The decimal that is exactly [m * 2 ^ e]. *)
Definition exact_decimal (m : positive) (e : Z) : Z * Z :=
  if 0 <=? e then (Zpos m * 2 ^ e, 0) else (Zpos m * 5 ^ (- e), e).

(** The shortest decimal that reads back: with the last [k] digits of
    [A] dropped, the decimal below and the one above are tried, for [k]
    from the greatest, one digit left, down; of two that read back the
    nearer to [A] is taken. With no digit dropped the decimal is
    exact. *)
Fixpoint shortest (reads : Z -> Z -> bool) (A E0 : Z) (k : nat) : Z * Z :=
  match k with
  | O => (A, E0)
  | S k' =>
      let p := 10 ^ Z.of_nat k in
      let lo := A / p in
      let r := A mod p in
      let E := E0 + Z.of_nat k in
      let lo_ok := (0 <? lo) && reads lo E in
      let hi_ok := reads (lo + 1) E in
      if lo_ok && hi_ok then (if 2 * r <=? p then (lo, E) else (lo + 1, E))
      else if lo_ok then (lo, E)
      else if hi_ok then (lo + 1, E)
      else shortest reads A E0 k'
  end.

(** The decimal without its trailing zeros. *)
Fixpoint strip_zeros (fuel : nat) (D E : Z) : Z * Z :=
  match fuel with
  | O => (D, E)
  | S f => if (0 <? D) && (D mod 10 =? 0) then strip_zeros f (D / 10) (E + 1) else (D, E)
  end.

Definition nb_digits (n : Z) : nat := Decimal.nb_digits (N.to_uint (Z.to_N n)).

(** The digits [D] and the exponent [E] of [float.__repr__] for
    [m * 2 ^ e]: the number is printed from the decimal [D * 10 ^ E]. *)
Definition repr_digits (m : positive) (e : Z) : Z * Z :=
  let (A, E0) := exact_decimal m e in
  let (D, E) :=
    shortest (fun D E => float_eqb (of_decimal false D E) (Finite false m e)) A E0
      (pred (nb_digits A)) in
  strip_zeros (nb_digits A) D E.

End Float.

(** ** JSON values, [json.dumps] and [json.loads]

    The values the [json] module exchanges with Python: [None], [bool],
    [int], [float], [str], [list] and [dict] with [str] keys (a [dict]
    keeps its insertion order, so an association list with distinct
    keys). *)

Module Json.

Local Open Scope N_scope.

#[local] Unset Elimination Schemes.

Inductive json : Type :=
| JNull
| JBool (b : bool)
| JNum (z : Z)
| JFloat (f : Float.float)
| JStr (s : str)
| JArr (items : list json)
| JObj (members : list (str * json)).

#[local] Set Elimination Schemes.

Definition dict := list (str * json).

(** [d.get(k)] on a [dict] *)
Fixpoint dict_get (k : str) (d : dict) : option json :=
  match d with
  | [] => None
  | (k', v) :: d' => if str_eqb k k' then Some v else dict_get k d'
  end.

(** [d[k] = v]: a key already present keeps its place. *)
Fixpoint dict_set (k : str) (v : json) (d : dict) : dict :=
  match d with
  | [] => [(k, v)]
  | (k', v') :: d' => if str_eqb k k' then (k', v) :: d' else (k', v') :: dict_set k v d'
  end.

(** [dict(pairs)] *)
Definition dict_of_pairs (pairs : list (str * json)) : dict :=
  fold_left (fun d kv => dict_set (fst kv) (snd kv) d) pairs [].


(** *** What the interpreter allows

    [max_str_digits] is [sys.get_int_max_str_digits()]: the longest
    decimal text an [int] is converted to or from, [0] for no limit
    (4300 by default, and never below 640 otherwise). [encoder_depth]
    and [decoder_depth] are the numbers of containers, one inside the
    other, that the recursion limit lets the encoder and the scanner
    enter from where they are called. *)
Record limits : Type := {
  max_str_digits : nat;
  encoder_depth : nat;
  decoder_depth : nat
}.

Definition result (A : Type) : Type := outcome builtin A.

Definition within_digits (py : limits) (n : nat) : bool :=
  Nat.eqb (max_str_digits py) 0 || Nat.leb n (max_str_digits py).

(** *** Numbers: [int.__repr__], [float.__repr__] and the number literal *)

Fixpoint uint_chars (d : Decimal.uint) : str :=
  match d with
  | Decimal.Nil => []
  | Decimal.D0 d' => 48 :: uint_chars d'
  | Decimal.D1 d' => 49 :: uint_chars d'
  | Decimal.D2 d' => 50 :: uint_chars d'
  | Decimal.D3 d' => 51 :: uint_chars d'
  | Decimal.D4 d' => 52 :: uint_chars d'
  | Decimal.D5 d' => 53 :: uint_chars d'
  | Decimal.D6 d' => 54 :: uint_chars d'
  | Decimal.D7 d' => 55 :: uint_chars d'
  | Decimal.D8 d' => 56 :: uint_chars d'
  | Decimal.D9 d' => 57 :: uint_chars d'
  end.

Definition repr_N (n : N) : str := uint_chars (N.to_uint n).

Definition repr_Z (z : Z) : str :=
  match z with
  | Zneg p => 45 :: repr_N (Npos p)
  | _ => repr_N (Z.to_N z)
  end.

(** [int.__repr__], refused beyond the limit on the digits. *)
Definition int_text (py : limits) (z : Z) : result str :=
  if within_digits py (length (repr_N (Z.abs_N z))) then Ok (repr_Z z)
  else Raise ValueError.

Definition zeros (n : nat) : str := repeat 48 n.

(** The exponent of the scientific notation: a sign and at least two
    digits. *)
Definition exponent_text (x : Z) : str :=
  (if (x <? 0)%Z then 45 else 43)
    :: (if (Z.abs x <? 10)%Z then [48] else []) ++ repr_N (Z.abs_N x).

(** [float.__repr__] on the digits [ds] of the shortest decimal that
    reads back, with the decimal point [decpt] places after the first:
    the scientific notation when [decpt] is below -3 or above 16. *)
Definition place_point (ds : str) (decpt : Z) : str :=
  if (decpt <? -3)%Z || (16 <? decpt)%Z then
    match ds with
    | [] => []
    | d :: [] => d :: 101 :: exponent_text (decpt - 1)
    | d :: more => d :: 46 :: more ++ 101 :: exponent_text (decpt - 1)
    end
  else if (decpt <=? 0)%Z then 48 :: 46 :: zeros (Z.to_nat (- decpt)) ++ ds
  else if (Z.of_nat (length ds) <=? decpt)%Z then
    ds ++ zeros (Z.to_nat decpt - length ds) ++ [46; 48]
  else firstn (Z.to_nat decpt) ds ++ 46 :: skipn (Z.to_nat decpt) ds.

Definition float_repr (f : Float.float) : str :=
  match f with
  | Float.Nan => u "nan"
  | Float.Inf neg => if neg then u "-inf" else u "inf"
  | Float.Zero neg => if neg then u "-0.0" else u "0.0"
  | Float.Finite neg m e =>
      let (D, E) := Float.repr_digits m e in
      let ds := repr_N (Z.to_N D) in
      (if neg then [45] else []) ++ place_point ds (Z.of_nat (length ds) + E)
  end.

(** [floatstr] of the encoder, with [allow_nan] as it is by default. *)
Definition float_text (f : Float.float) : str :=
  match f with
  | Float.Nan => u "NaN"
  | Float.Inf neg => if neg then u "-Infinity" else u "Infinity"
  | _ => float_repr f
  end.

Definition is_digit (c : N) : bool := N.leb 48 c && N.leb c 57.

(** The longest run of digits a text starts with, and what follows. *)
Fixpoint span_digits (s : str) : str * str :=
  match s with
  | c :: s' =>
      if is_digit c then let (ds, r) := span_digits s' in (c :: ds, r) else ([], s)
  | [] => ([], [])
  end.

(** [int(ds)] on a run of digits *)
Definition number_of (ds : str) : N := fold_left (fun a c => 10 * a + (c - 48)) ds 0.

(** The fraction of a literal: a point and at least one digit. *)
Definition scan_fraction (s : str) : str * str :=
  match s with
  | p :: d :: _ => if N.eqb p 46 && is_digit d then span_digits (tl s) else ([], s)
  | _ => ([], s)
  end.

(** The exponent of a literal: [e] or [E], an optional sign and at
    least one digit. *)
Definition scan_exponent (s : str) : option Z * str :=
  match s with
  | x :: r =>
      if N.eqb x 101 || N.eqb x 69 then
        let '(neg, r1) := match r with
                          | g :: r' => if N.eqb g 45 then (true, r')
                                       else if N.eqb g 43 then (false, r') else (false, r)
                          | [] => (false, r)
                          end in
        match span_digits r1 with
        | ([], _) => (None, s)
        | (ds, r2) => (Some (if neg then (- Z.of_N (number_of ds))%Z
                             else Z.of_N (number_of ds)), r2)
        end
      else (None, s)
  | [] => (None, s)
  end.

(** A number literal, as [_match_number] reads it: an optional minus
    sign, an integer part that is a single zero or digits that do not
    start with a zero, then an optional fraction and an optional
    exponent. Without fraction and exponent it is an [int], refused
    beyond the limit on the digits; otherwise a [float]. *)
Definition scan_number (py : limits) (s : str) : result (json * str) :=
  let '(neg, s1) := match s with
                    | c :: s' => if N.eqb c 45 then (true, s') else (false, s)
                    | [] => (false, s)
                    end in
  match s1 with
  | c :: s2 =>
      if is_digit c then
        let '(ip, r1) := if N.eqb c 48 then ([48], s2) else span_digits s1 in
        let '(fp, r2) := scan_fraction r1 in
        let '(ex, r3) := scan_exponent r2 in
        match fp, ex with
        | [], None =>
            if within_digits py (length ip) then
              Ok (JNum (if neg then (- Z.of_N (number_of ip))%Z else Z.of_N (number_of ip)), r3)
            else Raise ValueError
        | _, _ =>
            let x := match ex with Some x => x | None => 0%Z end in
            Ok (JFloat (Float.of_decimal neg (Z.of_N (number_of (ip ++ fp)))
                          (x - Z.of_nat (length fp))), r3)
        end
      else Raise ValueError
  | [] => Raise ValueError
  end.

(** *** Strings: [encode_basestring_ascii] and [scanstring] *)

Definition hex_char (d : N) : N := if N.ltb d 10 then 48 + d else 87 + d.

(** ['{0:04x}'.format(n)] *)
Definition hex4 (n : N) : str :=
  [hex_char (N.land (N.shiftr n 12) 15); hex_char (N.land (N.shiftr n 8) 15);
   hex_char (N.land (N.shiftr n 4) 15); hex_char (N.land n 15)].

Definition chr_quote : N := 34.
Definition chr_backslash : N := 92.

Definition escape_char (c : N) : str :=
  if N.eqb c chr_quote then [chr_backslash; chr_quote]
  else if N.eqb c chr_backslash then [chr_backslash; chr_backslash]
  else if N.eqb c 8 then [chr_backslash; 98]
  else if N.eqb c 12 then [chr_backslash; 102]
  else if N.eqb c 10 then [chr_backslash; 110]
  else if N.eqb c 13 then [chr_backslash; 114]
  else if N.eqb c 9 then [chr_backslash; 116]
  else if N.leb 32 c && N.leb c 126 then [c]
  else if N.ltb c 65536 then chr_backslash :: 117 :: hex4 c
  else
    let n := c - 65536 in
    let s1 := N.lor 55296 (N.land (N.shiftr n 10) 1023) in
    let s2 := N.lor 56320 (N.land n 1023) in
    (chr_backslash :: 117 :: hex4 s1) ++ (chr_backslash :: 117 :: hex4 s2).

Definition encode_string (s : str) : str :=
  chr_quote :: flat_map escape_char s ++ [chr_quote].

Definition hex_val (c : N) : option N :=
  if N.leb 48 c && N.leb c 57 then Some (c - 48)
  else if N.leb 97 c && N.leb c 102 then Some (c - 87)
  else if N.leb 65 c && N.leb c 70 then Some (c - 55)
  else None.

Definition read_hex4 (s : str) : option (N * str) :=
  match s with
  | a :: b :: c :: d :: r =>
      match hex_val a, hex_val b, hex_val c, hex_val d with
      | Some x, Some y, Some z, Some w => Some (((x * 16 + y) * 16 + z) * 16 + w, r)
      | _, _, _, _ => None
      end
  | _ => None
  end.

Definition unescape (e : N) : option N :=
  match e with
  | 34 => Some 34 | 92 => Some 92 | 47 => Some 47
  | 98 => Some 8 | 102 => Some 12 | 110 => Some 10 | 114 => Some 13 | 116 => Some 9
  | _ => None
  end%N.

Definition high_surrogate (c : N) : bool := N.leb 55296 c && N.leb c 56319.
Definition low_surrogate (c : N) : bool := N.leb 56320 c && N.leb c 57343.

(** The body of a string literal, after its opening quote, up to and
    with the closing quote. Every step consumes a character, so [fuel]
    is the length of the text. *)
Fixpoint scan_chars (fuel : nat) (s : str) : option (str * str) :=
  match fuel with
  | O => None
  | S f =>
      match s with
      | [] => None
      | c :: s' =>
          if N.eqb c chr_quote then Some ([], s')
          else if N.eqb c chr_backslash then
            match s' with
            | [] => None
            | e :: s'' =>
                if N.eqb e 117 then
                  match read_hex4 s'' with
                  | None => None
                  | Some (uni, r) =>
                      let pair :=
                        if high_surrogate uni then
                          match r with
                          | b :: x :: r' =>
                              if N.eqb b chr_backslash && N.eqb x 117 then
                                match read_hex4 r' with
                                | None => None
                                | Some (uni2, r'') =>
                                    if low_surrogate uni2
                                    then Some (65536 + N.lor (N.shiftl (uni - 55296) 10) (uni2 - 56320), r'')
                                    else Some (uni, r)
                                end
                              else Some (uni, r)
                          | _ => Some (uni, r)
                          end
                        else Some (uni, r) in
                      match pair with
                      | None => None
                      | Some (ch, r1) =>
                          match scan_chars f r1 with
                          | Some (t, r2) => Some (ch :: t, r2)
                          | None => None
                          end
                      end
                  end
                else
                  match unescape e with
                  | None => None
                  | Some ch =>
                      match scan_chars f s'' with
                      | Some (t, r) => Some (ch :: t, r)
                      | None => None
                      end
                  end
            end
          else if N.ltb c 32 then None
          else
            match scan_chars f s' with
            | Some (t, r) => Some (c :: t, r)
            | None => None
            end
      end
  end.

Definition scanstring (s : str) : option (str * str) := scan_chars (length s) s.


(** *** [json.dumps] with its default separators *)

Fixpoint join_sep (sep : str) (l : list str) : str :=
  match l with
  | [] => []
  | [x] => x
  | x :: l' => x ++ sep ++ join_sep sep l'
  end.

(** The encoder: [room] is the number of containers it may still
    enter; the first failure ends it. *)
Fixpoint encode (py : limits) (room : nat) (v : json) {struct v} : result str :=
  match v with
  | JNull => Ok (u "null")
  | JBool true => Ok (u "true")
  | JBool false => Ok (u "false")
  | JNum z => int_text py z
  | JFloat f => Ok (float_text f)
  | JStr s => Ok (encode_string s)
  | JArr items =>
      match room with
      | O => Raise RecursionError
      | S room' =>
          match (fix each (l : list json) : result (list str) :=
                   match l with
                   | [] => Ok []
                   | x :: l' =>
                       match encode py room' x with
                       | Raise e => Raise e
                       | Ok t =>
                           match each l' with
                           | Raise e => Raise e
                           | Ok ts => Ok (t :: ts)
                           end
                       end
                   end) items with
          | Raise e => Raise e
          | Ok texts => Ok (91 :: join_sep (u ", ") texts ++ [93])
          end
      end
  | JObj members =>
      match room with
      | O => Raise RecursionError
      | S room' =>
          match (fix each (l : list (str * json)) : result (list str) :=
                   match l with
                   | [] => Ok []
                   | kv :: l' =>
                       match encode py room' (snd kv) with
                       | Raise e => Raise e
                       | Ok t =>
                           match each l' with
                           | Raise e => Raise e
                           | Ok ts => Ok ((encode_string (fst kv) ++ u ": " ++ t) :: ts)
                           end
                       end
                   end) members with
          | Raise e => Raise e
          | Ok texts => Ok (123 :: join_sep (u ", ") texts ++ [125])
          end
      end
  end.

Definition dumps (py : limits) (v : json) : result str := encode py (encoder_depth py) v.

(** *** [json.loads] *)

Definition is_ws (c : N) : bool := N.eqb c 32 || N.eqb c 9 || N.eqb c 10 || N.eqb c 13.

Fixpoint skip_ws (s : str) : str :=
  match s with
  | c :: s' => if is_ws c then skip_ws s' else s
  | [] => []
  end.

Fixpoint strip_prefix (p s : str) : option str :=
  match p, s with
  | [], _ => Some s
  | a :: p', b :: s' => if N.eqb a b then strip_prefix p' s' else None
  | _ :: _, [] => None
  end.

(** [null], [true], [false], [NaN], [Infinity], [-Infinity] or a number
    literal. *)
Definition scan_atom (py : limits) (s : str) : result (json * str) :=
  match strip_prefix (u "null") s with
  | Some r => Ok (JNull, r)
  | None =>
  match strip_prefix (u "true") s with
  | Some r => Ok (JBool true, r)
  | None =>
  match strip_prefix (u "false") s with
  | Some r => Ok (JBool false, r)
  | None =>
  match strip_prefix (u "NaN") s with
  | Some r => Ok (JFloat Float.Nan, r)
  | None =>
  match strip_prefix (u "Infinity") s with
  | Some r => Ok (JFloat (Float.Inf false), r)
  | None =>
  match strip_prefix (u "-Infinity") s with
  | Some r => Ok (JFloat (Float.Inf true), r)
  | None => scan_number py s
  end end end end end end.

Definition scan_string (s : str) : result (str * str) :=
  match scanstring s with
  | Some p => Ok p
  | None => Raise ValueError
  end.

(** The scanner: [scan_once] reads one value, [scan_items] the elements
    of an array after its bracket and [scan_members] the members of an
    object after its brace. [room] is the number of containers it may
    still enter: the bracket or brace of one more raises
    [RecursionError]. Every call is preceded by the consumption of a
    character, so a fuel above the length of the text never runs out. *)
Fixpoint scan_once (py : limits) (fuel room : nat) (s : str) : result (json * str) :=
  match fuel with
  | O => Raise ValueError
  | S f =>
      match s with
      | [] => Raise ValueError
      | c :: s' =>
          if N.eqb c chr_quote then
            match scan_string s' with
            | Ok (t, r) => Ok (JStr t, r)
            | Raise e => Raise e
            end
          else if N.eqb c 123 then
            match room with
            | O => Raise RecursionError
            | S room' =>
                match skip_ws s' with
                | [] => Raise ValueError
                | c1 :: r1 =>
                    if N.eqb c1 125 then Ok (JObj [], r1)
                    else
                      match scan_members py f room' (c1 :: r1) with
                      | Ok (ms, r) => Ok (JObj (dict_of_pairs ms), r)
                      | Raise e => Raise e
                      end
                end
            end
          else if N.eqb c 91 then
            match room with
            | O => Raise RecursionError
            | S room' =>
                match skip_ws s' with
                | [] => Raise ValueError
                | c1 :: r1 =>
                    if N.eqb c1 93 then Ok (JArr [], r1)
                    else
                      match scan_items py f room' (c1 :: r1) with
                      | Ok (vs, r) => Ok (JArr vs, r)
                      | Raise e => Raise e
                      end
                end
            end
          else scan_atom py s
      end
  end
with scan_items (py : limits) (fuel room : nat) (s : str) : result (list json * str) :=
  match fuel with
  | O => Raise ValueError
  | S f =>
      match scan_once py f room s with
      | Raise e => Raise e
      | Ok (v, r) =>
          match skip_ws r with
          | [] => Raise ValueError
          | c :: r' =>
              if N.eqb c 93 then Ok ([v], r')
              else if N.eqb c 44 then
                match scan_items py f room (skip_ws r') with
                | Ok (vs, r'') => Ok (v :: vs, r'')
                | Raise e => Raise e
                end
              else Raise ValueError
          end
      end
  end
with scan_members (py : limits) (fuel room : nat) (s : str)
    : result (list (str * json) * str) :=
  match fuel with
  | O => Raise ValueError
  | S f =>
      match s with
      | [] => Raise ValueError
      | q :: s' =>
          if N.eqb q chr_quote then
            match scan_string s' with
            | Raise e => Raise e
            | Ok (k, r) =>
                match skip_ws r with
                | [] => Raise ValueError
                | c :: r1 =>
                    if N.eqb c 58 then
                      match scan_once py f room (skip_ws r1) with
                      | Raise e => Raise e
                      | Ok (v, r2) =>
                          match skip_ws r2 with
                          | [] => Raise ValueError
                          | c2 :: r3 =>
                              if N.eqb c2 125 then Ok ([(k, v)], r3)
                              else if N.eqb c2 44 then
                                match scan_members py f room (skip_ws r3) with
                                | Ok (ms, r4) => Ok ((k, v) :: ms, r4)
                                | Raise e => Raise e
                                end
                              else Raise ValueError
                          end
                      end
                    else Raise ValueError
                end
            end
          else Raise ValueError
      end
  end.

(** [json.loads(s)]: one JSON value, surrounded by optional white
    space; anything else is a [ValueError]. *)
Definition loads (py : limits) (s : str) : result json :=
  match scan_once py (S (length s)) (decoder_depth py) (skip_ws s) with
  | Ok (v, r) => match skip_ws r with [] => Ok v | _ :: _ => Raise ValueError end
  | Raise e => Raise e
  end.

(** *** The values JSON can carry

    A code point of a text is a Unicode scalar value (a surrogate is
    not one), a [float] is a binary64 number or an infinity, not a NaN,
    which is equal to nothing, and the keys of an object are distinct,
    as in a [dict]. *)

Definition scalar_value (c : N) : bool :=
  N.ltb c 55296 || (N.ltb 57343 c && N.ltb c 1114112).

Definition valid_text (s : str) : bool := forallb scalar_value s.

Fixpoint distinct (keys : list str) : bool :=
  match keys with
  | [] => true
  | k :: rest => negb (existsb (str_eqb k) rest) && distinct rest
  end.

Definition comparable (f : Float.float) : bool :=
  match f with
  | Float.Nan => false
  | _ => Float.binary64 f
  end.

Fixpoint representable (v : json) : bool :=
  match v with
  | JNull | JBool _ | JNum _ => true
  | JFloat f => comparable f
  | JStr s => valid_text s
  | JArr items => forallb representable items
  | JObj members =>
      forallb (fun kv => valid_text (fst kv) && representable (snd kv)) members
      && distinct (map fst members)
  end.

(** The containers of a value, one inside the other. *)
Fixpoint depth (v : json) : nat :=
  match v with
  | JArr items => S (fold_right (fun x d => Nat.max (depth x) d) O items)
  | JObj members => S (fold_right (fun kv d => Nat.max (depth (snd kv)) d) O members)
  | _ => O
  end.

(** Every [int] of a value has a decimal text within the limit. *)
Fixpoint short_ints (py : limits) (v : json) : bool :=
  match v with
  | JNum z => within_digits py (length (repr_N (Z.abs_N z)))
  | JArr items => forallb (short_ints py) items
  | JObj members => forallb (fun kv => short_ints py (snd kv)) members
  | _ => true
  end.

End Json.

(** ** The API client: errors, transport, [call] *)

Module Http.
Import Json.

(** A JSON text written with ['] in place of the double quote. *)
Definition json_text (s : string) : str :=
  map (fun c => if N.eqb c 39 then chr_quote else c) (u s).

(** [str.upper()], by the Unicode Character Database 14.0 that
    Python 3.11 carries: the code points whose upper case is several
    code points, then the runs of code points [first], [first + stride],
    ..., [count] of them, whose upper case is [delta] away. Every other
    code point is its own upper case. *)
Definition upper_special : list (N * list N) :=
  [
   (223, [83; 83]); (329, [700; 78]); (496, [74; 780]);
   (912, [921; 776; 769]); (944, [933; 776; 769]); (1415, [1333; 1362]);
   (7830, [72; 817]); (7831, [84; 776]); (7832, [87; 778]);
   (7833, [89; 778]); (7834, [65; 702]); (8016, [933; 787]);
   (8018, [933; 787; 768]); (8020, [933; 787; 769]); (8022, [933; 787; 834]);
   (8064, [7944; 921]); (8065, [7945; 921]); (8066, [7946; 921]);
   (8067, [7947; 921]); (8068, [7948; 921]); (8069, [7949; 921]);
   (8070, [7950; 921]); (8071, [7951; 921]); (8072, [7944; 921]);
   (8073, [7945; 921]); (8074, [7946; 921]); (8075, [7947; 921]);
   (8076, [7948; 921]); (8077, [7949; 921]); (8078, [7950; 921]);
   (8079, [7951; 921]); (8080, [7976; 921]); (8081, [7977; 921]);
   (8082, [7978; 921]); (8083, [7979; 921]); (8084, [7980; 921]);
   (8085, [7981; 921]); (8086, [7982; 921]); (8087, [7983; 921]);
   (8088, [7976; 921]); (8089, [7977; 921]); (8090, [7978; 921]);
   (8091, [7979; 921]); (8092, [7980; 921]); (8093, [7981; 921]);
   (8094, [7982; 921]); (8095, [7983; 921]); (8096, [8040; 921]);
   (8097, [8041; 921]); (8098, [8042; 921]); (8099, [8043; 921]);
   (8100, [8044; 921]); (8101, [8045; 921]); (8102, [8046; 921]);
   (8103, [8047; 921]); (8104, [8040; 921]); (8105, [8041; 921]);
   (8106, [8042; 921]); (8107, [8043; 921]); (8108, [8044; 921]);
   (8109, [8045; 921]); (8110, [8046; 921]); (8111, [8047; 921]);
   (8114, [8122; 921]); (8115, [913; 921]); (8116, [902; 921]);
   (8118, [913; 834]); (8119, [913; 834; 921]); (8124, [913; 921]);
   (8130, [8138; 921]); (8131, [919; 921]); (8132, [905; 921]);
   (8134, [919; 834]); (8135, [919; 834; 921]); (8140, [919; 921]);
   (8146, [921; 776; 768]); (8147, [921; 776; 769]); (8150, [921; 834]);
   (8151, [921; 776; 834]); (8162, [933; 776; 768]); (8163, [933; 776; 769]);
   (8164, [929; 787]); (8166, [933; 834]); (8167, [933; 776; 834]);
   (8178, [8186; 921]); (8179, [937; 921]); (8180, [911; 921]);
   (8182, [937; 834]); (8183, [937; 834; 921]); (8188, [937; 921]);
   (64256, [70; 70]); (64257, [70; 73]); (64258, [70; 76]);
   (64259, [70; 70; 73]); (64260, [70; 70; 76]); (64261, [83; 84]);
   (64262, [83; 84]); (64275, [1348; 1350]); (64276, [1348; 1333]);
   (64277, [1348; 1339]); (64278, [1358; 1350]); (64279, [1348; 1341])
  ]%N.

Definition upper_runs : list (N * N * N * Z) :=
  [
   (97, 26, 1, (-32)%Z); (181, 1, 1, 743%Z); (224, 23, 1, (-32)%Z); (248, 7, 1, (-32)%Z);
   (255, 1, 1, 121%Z); (257, 24, 2, (-1)%Z); (305, 1, 1, (-232)%Z); (307, 3, 2, (-1)%Z);
   (314, 8, 2, (-1)%Z); (331, 23, 2, (-1)%Z); (378, 3, 2, (-1)%Z); (383, 1, 1, (-300)%Z);
   (384, 1, 1, 195%Z); (387, 2, 2, (-1)%Z); (392, 1, 1, (-1)%Z); (396, 1, 1, (-1)%Z);
   (402, 1, 1, (-1)%Z); (405, 1, 1, 97%Z); (409, 1, 1, (-1)%Z); (410, 1, 1, 163%Z);
   (414, 1, 1, 130%Z); (417, 3, 2, (-1)%Z); (424, 1, 1, (-1)%Z); (429, 1, 1, (-1)%Z);
   (432, 1, 1, (-1)%Z); (436, 2, 2, (-1)%Z); (441, 1, 1, (-1)%Z); (445, 1, 1, (-1)%Z);
   (447, 1, 1, 56%Z); (453, 1, 1, (-1)%Z); (454, 1, 1, (-2)%Z); (456, 1, 1, (-1)%Z);
   (457, 1, 1, (-2)%Z); (459, 1, 1, (-1)%Z); (460, 1, 1, (-2)%Z); (462, 8, 2, (-1)%Z);
   (477, 1, 1, (-79)%Z); (479, 9, 2, (-1)%Z); (498, 1, 1, (-1)%Z); (499, 1, 1, (-2)%Z);
   (501, 1, 1, (-1)%Z); (505, 20, 2, (-1)%Z); (547, 9, 2, (-1)%Z); (572, 1, 1, (-1)%Z);
   (575, 2, 1, 10815%Z); (578, 1, 1, (-1)%Z); (583, 5, 2, (-1)%Z); (592, 1, 1, 10783%Z);
   (593, 1, 1, 10780%Z); (594, 1, 1, 10782%Z); (595, 1, 1, (-210)%Z); (596, 1, 1, (-206)%Z);
   (598, 2, 1, (-205)%Z); (601, 1, 1, (-202)%Z); (603, 1, 1, (-203)%Z); (604, 1, 1, 42319%Z);
   (608, 1, 1, (-205)%Z); (609, 1, 1, 42315%Z); (611, 1, 1, (-207)%Z); (613, 1, 1, 42280%Z);
   (614, 1, 1, 42308%Z); (616, 1, 1, (-209)%Z); (617, 1, 1, (-211)%Z); (618, 1, 1, 42308%Z);
   (619, 1, 1, 10743%Z); (620, 1, 1, 42305%Z); (623, 1, 1, (-211)%Z); (625, 1, 1, 10749%Z);
   (626, 1, 1, (-213)%Z); (629, 1, 1, (-214)%Z); (637, 1, 1, 10727%Z); (640, 1, 1, (-218)%Z);
   (642, 1, 1, 42307%Z); (643, 1, 1, (-218)%Z); (647, 1, 1, 42282%Z); (648, 1, 1, (-218)%Z);
   (649, 1, 1, (-69)%Z); (650, 2, 1, (-217)%Z); (652, 1, 1, (-71)%Z); (658, 1, 1, (-219)%Z);
   (669, 1, 1, 42261%Z); (670, 1, 1, 42258%Z); (837, 1, 1, 84%Z); (881, 2, 2, (-1)%Z);
   (887, 1, 1, (-1)%Z); (891, 3, 1, 130%Z); (940, 1, 1, (-38)%Z); (941, 3, 1, (-37)%Z);
   (945, 17, 1, (-32)%Z); (962, 1, 1, (-31)%Z); (963, 9, 1, (-32)%Z); (972, 1, 1, (-64)%Z);
   (973, 2, 1, (-63)%Z); (976, 1, 1, (-62)%Z); (977, 1, 1, (-57)%Z); (981, 1, 1, (-47)%Z);
   (982, 1, 1, (-54)%Z); (983, 1, 1, (-8)%Z); (985, 12, 2, (-1)%Z); (1008, 1, 1, (-86)%Z);
   (1009, 1, 1, (-80)%Z); (1010, 1, 1, 7%Z); (1011, 1, 1, (-116)%Z); (1013, 1, 1, (-96)%Z);
   (1016, 1, 1, (-1)%Z); (1019, 1, 1, (-1)%Z); (1072, 32, 1, (-32)%Z); (1104, 16, 1, (-80)%Z);
   (1121, 17, 2, (-1)%Z); (1163, 27, 2, (-1)%Z); (1218, 7, 2, (-1)%Z); (1231, 1, 1, (-15)%Z);
   (1233, 48, 2, (-1)%Z); (1377, 38, 1, (-48)%Z); (4304, 43, 1, 3008%Z); (4349, 3, 1, 3008%Z);
   (5112, 6, 1, (-8)%Z); (7296, 1, 1, (-6254)%Z); (7297, 1, 1, (-6253)%Z); (7298, 1, 1, (-6244)%Z);
   (7299, 2, 1, (-6242)%Z); (7301, 1, 1, (-6243)%Z); (7302, 1, 1, (-6236)%Z); (7303, 1, 1, (-6181)%Z);
   (7304, 1, 1, 35266%Z); (7545, 1, 1, 35332%Z); (7549, 1, 1, 3814%Z); (7566, 1, 1, 35384%Z);
   (7681, 75, 2, (-1)%Z); (7835, 1, 1, (-59)%Z); (7841, 48, 2, (-1)%Z); (7936, 8, 1, 8%Z);
   (7952, 6, 1, 8%Z); (7968, 8, 1, 8%Z); (7984, 8, 1, 8%Z); (8000, 6, 1, 8%Z);
   (8017, 4, 2, 8%Z); (8032, 8, 1, 8%Z); (8048, 2, 1, 74%Z); (8050, 4, 1, 86%Z);
   (8054, 2, 1, 100%Z); (8056, 2, 1, 128%Z); (8058, 2, 1, 112%Z); (8060, 2, 1, 126%Z);
   (8112, 2, 1, 8%Z); (8126, 1, 1, (-7205)%Z); (8144, 2, 1, 8%Z); (8160, 2, 1, 8%Z);
   (8165, 1, 1, 7%Z); (8526, 1, 1, (-28)%Z); (8560, 16, 1, (-16)%Z); (8580, 1, 1, (-1)%Z);
   (9424, 26, 1, (-26)%Z); (11312, 48, 1, (-48)%Z); (11361, 1, 1, (-1)%Z); (11365, 1, 1, (-10795)%Z);
   (11366, 1, 1, (-10792)%Z); (11368, 3, 2, (-1)%Z); (11379, 1, 1, (-1)%Z); (11382, 1, 1, (-1)%Z);
   (11393, 50, 2, (-1)%Z); (11500, 2, 2, (-1)%Z); (11507, 1, 1, (-1)%Z); (11520, 38, 1, (-7264)%Z);
   (11559, 1, 1, (-7264)%Z); (11565, 1, 1, (-7264)%Z); (42561, 23, 2, (-1)%Z); (42625, 14, 2, (-1)%Z);
   (42787, 7, 2, (-1)%Z); (42803, 31, 2, (-1)%Z); (42874, 2, 2, (-1)%Z); (42879, 5, 2, (-1)%Z);
   (42892, 1, 1, (-1)%Z); (42897, 2, 2, (-1)%Z); (42900, 1, 1, 48%Z); (42903, 10, 2, (-1)%Z);
   (42933, 8, 2, (-1)%Z); (42952, 2, 2, (-1)%Z); (42961, 1, 1, (-1)%Z); (42967, 2, 2, (-1)%Z);
   (42998, 1, 1, (-1)%Z); (43859, 1, 1, (-928)%Z); (43888, 80, 1, (-38864)%Z); (65345, 26, 1, (-32)%Z);
   (66600, 40, 1, (-40)%Z); (66776, 36, 1, (-40)%Z); (66967, 19, 2, (-39)%Z); (66968, 5, 2, (-39)%Z);
   (66980, 7, 2, (-39)%Z); (66996, 3, 2, (-39)%Z); (67004, 1, 1, (-39)%Z); (68800, 51, 1, (-64)%Z);
   (71872, 32, 1, (-32)%Z); (93792, 32, 1, (-32)%Z); (125218, 34, 1, (-34)%Z)
  ]%N.

Definition in_run (c : N) (run : N * N * N * Z) : bool :=
  let '(first, count, stride, _) := run in
  N.leb first c && N.eqb ((c - first) mod stride) 0 && N.ltb ((c - first) / stride) count.

Definition upper_char (c : N) : str :=
  match find (fun p => N.eqb (fst p) c) upper_special with
  | Some (_, l) => l
  | None =>
      match find (in_run c) upper_runs with
      | Some (_, _, _, delta) => [Z.to_N (Z.of_N c + delta)]
      | None => [c]
      end
  end.

Definition upper (s : str) : str := flat_map upper_char s.

(** *** The error classes *)

Inductive error_class : Type :=
| APIError
| BadResponseError
| BadJSONError
| UnsupportedMethodError
| HTTPError.


(** An instance: the attributes [code], [details] and [json] that
    [APIError.__init__] sets, [JNull] standing for [None]. *)
Record api_error : Type := {
  error_type : error_class;
  code : json;
  details : json;
  attached : json
}.

Definition new_APIError (c d j : json) : api_error :=
  {| error_type := APIError; code := c; details := d; attached := j |}.

Definition new_BadResponseError (c d j : json) : api_error :=
  {| error_type := BadResponseError; code := c; details := d; attached := j |}.

Definition new_BadJSONError : api_error :=
  {| error_type := BadJSONError; code := JStr (u "2608");
     details := JStr (u "API didn't return valid JSON."); attached := JNull |}.

Definition new_UnsupportedMethodError : api_error :=
  {| error_type := UnsupportedMethodError; code := JStr (u "9999");
     details := JStr (u "Invalid request method."); attached := JNull |}.

Definition new_HTTPError (c d : json) : api_error :=
  {| error_type := HTTPError; code := c; details := d; attached := JNull |}.

(** *** The transport: what [call] sees of [requests] *)

(** [json_value] is what [.json()] does: it returns the parsed body or
    raises, a [ValueError] when the body is not JSON. *)
Record response : Type := {
  status_code : Z;
  reason : str;
  url : str;
  text : option str;         (* [None]: reading [.text] raises *)
  json_value : Json.result json
}.

(** The exceptions that occur while [call] runs. *)
Inductive exn : Type :=
| Api (e : api_error)
| RequestsHTTPError (resp : option response) (message : str)
| RequestException (arg0 : option str) (message : str)
| Builtin (b : builtin)
| OtherException (name : str).

Coercion Builtin : builtin >-> exn.

Definition result (A : Type) : Type := outcome exn A.

(** An outcome of the [json] module, among the outcomes of [call]. *)
Definition of_json {A : Type} (r : Json.result A) : result A :=
  match r with
  | Ok a => Ok a
  | Raise b => Raise (Builtin b)
  end.

Inductive transport_function : Type :=
| requests_get
| requests_put
| requests_post
| requests_request (method : str).

Definition header_map := list (str * str).

Record request : Type := {
  via : transport_function;
  target : str;
  payload : json;                 (* the [json=] argument *)
  sent_headers : option header_map  (* the [headers=] argument *)
}.

(** [Response.raise_for_status] of [requests]: an [HTTPError] for the
    client errors 400 to 499 and the server errors 500 to 599, with the
    response attached and the library's message. *)
Definition raise_for_status (r : response) : result unit :=
  let c := status_code r in
  if (400 <=? c)%Z && (c <? 500)%Z then
    Raise (RequestsHTTPError (Some r)
             (repr_Z c ++ u " Client Error: " ++ reason r ++ u " for url: " ++ url r))
  else if (500 <=? c)%Z && (c <? 600)%Z then
    Raise (RequestsHTTPError (Some r)
             (repr_Z c ++ u " Server Error: " ++ reason r ++ u " for url: " ++ url r))
  else Ok tt.

(** [request_methods]: the verbs with a function of their own. *)
Definition request_methods : list (str * transport_function) :=
  [(u "GET", requests_get); (u "PUT", requests_put); (u "POST", requests_post)].

Fixpoint lookup {A : Type} (k : str) (d : list (str * A)) : option A :=
  match d with
  | [] => None
  | (k', v) :: d' => if str_eqb k k' then Some v else lookup k d'
  end.


(** *** The log sink *)

(** The texts [call] prints, by the arguments of their format string. *)
Inductive log_text : Type :=
| RequestText (when : Z) (method : str) (uri : str) (data : json)
| ResponseText (when : Z) (status : Z) (delta : Z) (body : str)
| PlainText (s : str).

(** What [call] does to the world around it, in the order in which it
    does it: [Printed t] is the text [t] written to the sink with the
    line end [print] appends, [Flushed] the flush of the sink that
    [flush=True] asks, [Sent rq] a call of a function of [requests]. *)
Inductive event : Type :=
| Printed (t : log_text)
| Flushed
| Sent (rq : request).

(** *** State and effects

    The state [call] runs in: the events so far, the number of clock
    readings so far, and its local variable [response]. *)
Record state : Type := {
  trace : list event;
  ticks : nat;
  response_var : option response
}.

(** What reached the sink, and the requests put on the wire. *)
Definition sink (st : state) : list event :=
  filter (fun ev => match ev with Sent _ => false | _ => true end) (trace st).

Definition wire (st : state) : list request :=
  flat_map (fun ev => match ev with Sent rq => [rq] | _ => [] end) (trace st).

Definition initial : state :=
  {| trace := []; ticks := 0; response_var := None |}.

(** What [call] does not decide: the answer to each request, the
    readings of the wall clock, the limits of the interpreter, and
    whether [json.dumps(data, sort_keys=True, indent=4)] returns on a
    body: the encoder written in Python, which indentation asks for,
    recurses on the containers of the body and raises [RecursionError]
    when the recursion limit leaves it no room. *)
Record environment : Type := {
  transport : request -> result response;
  wall_clock : nat -> Z;
  python : limits;
  indents : json -> bool
}.

Definition M (A : Type) : Type := state -> result A * state.

Definition ret {A} (a : A) : M A := fun st => (Ok a, st).

Definition raise {A} (e : exn) : M A := fun st => (Raise e, st).

Definition bind {A B} (m : M A) (k : A -> M B) : M B :=
  fun st =>
    match m st with
    | (Ok a, st') => k a st'
    | (Raise e, st') => (Raise e, st')
    end.

Definition lift {A} (r : result A) : M A := fun st => (r, st).

Notation "x <- m ;; k" := (bind m (fun x => k))
  (at level 61, m at next level, right associativity).
Notation "m ;; k" := (bind m (fun _ => k))
  (at level 61, right associativity).

(** [try: m except ...: handler]: [handler e] is [None] when no clause
    matches [e]. *)
Definition try_except {A} (m : M A) (handler : exn -> option (M A)) : M A :=
  fun st =>
    match m st with
    | (Ok a, st') => (Ok a, st')
    | (Raise e, st') =>
        match handler e with
        | Some h => h st'
        | None => (Raise e, st')
        end
    end.

(** [try: m finally: f] *)
Definition try_finally {A} (m : M A) (f : M unit) : M A :=
  fun st =>
    let (r, st') := m st in
    match f st' with
    | (Ok _, st'') => (r, st'')
    | (Raise e, st'') => (Raise e, st'')
    end.


(** [datetime.datetime.now()] *)
Definition now (env : environment) : M Z :=
  fun st =>
    (Ok (wall_clock env (ticks st)),
     {| trace := trace st; ticks := S (ticks st); response_var := response_var st |}).

Definition record (events : list event) : M unit :=
  fun st =>
    (Ok tt,
     {| trace := trace st ++ events; ticks := ticks st; response_var := response_var st |}).

(** [print(t, file=log, flush=True)] *)
Definition print_flush (t : log_text) : M unit := record [Printed t; Flushed].

(** A call of a function of [requests]. *)
Definition send (env : environment) (f : transport_function) (uri : str) (data : json)
    (headers : option header_map) : M response :=
  let rq := {| via := f; target := uri; payload := data; sent_headers := headers |} in
  record [Sent rq] ;; lift (transport env rq).

Definition set_response (r : option response) : M unit :=
  fun st =>
    (Ok tt, {| trace := trace st; ticks := ticks st; response_var := r |}).

Definition get_response : M (option response) := fun st => (Ok (response_var st), st).

(** *** Python's operators on a parsed body *)

Fixpoint starts_with (p s : str) : bool :=
  match p, s with
  | [], _ => true
  | a :: p', b :: s' => N.eqb a b && starts_with p' s'
  | _ :: _, [] => false
  end.

Fixpoint substring (p s : str) : bool :=
  starts_with p s || match s with [] => false | _ :: s' => substring p s' end.

(** [k in v] *)
Definition py_in (k : str) (v : json) : result bool :=
  match v with
  | JObj d => Ok (match dict_get k d with Some _ => true | None => false end)
  | JArr l => Ok (existsb (fun x => match x with JStr t => str_eqb k t | _ => false end) l)
  | JStr t => Ok (substring k t)
  | _ => Raise TypeError
  end.

(** [v[k]] for a [str] key *)
Definition getitem (v : json) (k : str) : result json :=
  match v with
  | JObj d => match dict_get k d with Some x => Ok x | None => Raise KeyError end
  | _ => Raise TypeError
  end.

(** [v[0]] *)
Definition getitem0 (v : json) : result json :=
  match v with
  | JArr (x :: _) => Ok x
  | JArr [] => Raise IndexError
  | JStr (c :: _) => Ok (JStr [c])
  | JStr [] => Raise IndexError
  | JObj _ => Raise KeyError
  | _ => Raise TypeError
  end.

(** [v.get(k)] *)
Definition get (v : json) (k : str) : result json :=
  match v with
  | JObj d => Ok (match dict_get k d with Some x => x | None => JNull end)
  | _ => Raise AttributeError
  end.

(** *** The arguments of [call] *)

Inductive uri_arg : Type :=
| UriStr (s : str)
| UriParts (parts : list str).

Inductive data_arg : Type :=
| NoData
| DataText (s : str)
| DataDict (d : dict).

(** [if not isinstance(uri, str): uri = urljoin(uri)]. The sequence is
    passed as the one part of [urljoin]: [_gen] skips it when it is
    empty, and yields the sequence itself otherwise, on which [str.join]
    raises [TypeError]. *)
Definition resolve_uri (uri : uri_arg) : result str :=
  match uri with
  | UriStr s => Ok s
  | UriParts [] => Ok (Url.urljoin [])
  | UriParts (_ :: _) => Raise TypeError
  end.


(** The normalization of the body: a [dict] is dumped, then the text, or
    ['{}'] in place of an absent or empty one, is loaded. *)
Definition normalize (py : limits) (data : data_arg) : result json :=
  match (match data with
         | DataDict d =>
             match dumps py (JObj d) with
             | Ok t => Ok (DataText t)
             | Raise e => Raise e
             end
         | _ => Ok data
         end) with
  | Raise e => Raise (Builtin e)
  | Ok data =>
      let txt :=
        match data with
        | DataText (c :: s) => c :: s
        | _ => u "{}"
        end in
      of_json (loads py txt)
  end.

Definition mem (x : Z) (l : list Z) : bool := existsb (Z.eqb x) l.

(** [not statuses] *)
Definition no_statuses (statuses : option (list Z)) : bool :=
  match statuses with
  | None => true
  | Some [] => true
  | Some (_ :: _) => false
  end.

Definition some_statuses (statuses : option (list Z)) : list Z :=
  match statuses with Some l => l | None => [] end.

(** The checks on the parsed body that end [call]. *)
Definition interpret (result : json) : M json :=
  has_errors <- lift (py_in (u "errors") result) ;;
  (if has_errors : bool then
     errs <- lift (getitem result (u "errors")) ;;
     err <- lift (getitem0 errs) ;;
     name <- lift (get err (u "name")) ;;
     message <- lift (get err (u "message")) ;;
     raise (Api (new_APIError name message result))
   else ret tt) ;;
  has_data <- lift (py_in (u "data") result) ;;
  if has_data : bool then ret result
  else raise (Api (new_BadResponseError JNull
                     (JStr (u "Did not receive a data field in a non-error response."))
                     result)).


Definition call (env : environment) (method : str) (uri : uri_arg) (data : data_arg)
    (statuses : option (list Z)) (log : bool) (headers : option header_map) : M json :=
  uri <- lift (resolve_uri uri) ;;
  data <- lift (normalize (python env) data) ;;
  let logprint := if log then print_flush else fun _ => ret tt in
  timestamp <- now env ;;
  (if indents env data then ret tt else raise RecursionError) ;;
  logprint (RequestText timestamp (upper method) uri data) ;;
  set_response None ;;
  try_finally
    (try_except
       (response <-
          match lookup method request_methods with
          | Some f => send env f uri data headers
          | None => send env (requests_request (upper method)) uri data headers
          end ;;
        set_response (Some response) ;;
        if no_statuses statuses then
          if negb (Z.eqb (status_code response) 400) then lift (raise_for_status response)
          else ret tt
        else if negb (mem (status_code response) (some_statuses statuses)) then
          raise (Api (new_HTTPError (JNum (status_code response))
                        (JStr (u "Unexpected Status Code " ++ repr_Z (status_code response)))))
        else ret tt)
       (fun ex =>
          match ex with
          | RequestsHTTPError resp message =>
              Some match resp with
                   | Some r => raise (Api (new_HTTPError (JNum (status_code r)) (JStr message)))
                   | None => raise AttributeError
                   end
          | RequestException arg0 message =>
              Some (logprint (PlainText match arg0 with Some a => a | None => message end) ;;
                    raise (Api (new_BadResponseError JNull JNull JNull)))
          | _ => None
          end))
    (response <- get_response ;;
     match response with
     | Some r =>
         finished <- now env ;;
         let body := match text r with
                     | Some t => t
                     | None => u "(unable to decode body)"
                     end in
         logprint (ResponseText timestamp (status_code r) (finished - timestamp)%Z body)
     | None => ret tt
     end) ;;
  response <- get_response ;;
  match response with
  | None => raise AttributeError
  | Some r =>
      match json_value r with
      | Ok result => interpret result
      | Raise ValueError => raise (Api new_BadJSONError)
      | Raise e => raise e
      end
  end.

(** An interpreter with the limits Python has by default: 4300 digits,
    and a recursion limit of 1000 of which the callers of [call] have
    used ten. *)
Definition cpython : limits :=
  {| max_str_digits := 4300; encoder_depth := 990; decoder_depth := 990 |}.

(** A response as a test double gives it: a status and a body text,
    decoded by [loads]. *)
Definition mock_response (status : Z) (body : str) : response :=
  {| status_code := status; reason := u "mock"; url := u "http://x/y";
     text := Some body; json_value := loads cpython body |}.

Definition mock_environment (answer : result response) : environment :=
  {| transport := fun _ => answer; wall_clock := fun n => Z.of_nat n;
     python := cpython; indents := fun v => Nat.leb (depth v) 990 |}.

End Http.

(** ** The output filter: [OutputFilterWrapper.transform]

    The two patterns of [replacements] are made of literals, groups,
    concatenation and alternation; [re.sub] is modelled for such
    patterns, with the letters compared as [re.IGNORECASE] compares
    them. *)

Module Sopel.

Local Open Scope N_scope.

Inductive regex : Type :=
| Empty
| Lit (c : N)
| Cat (a b : regex)
| Alt (a b : regex)
| Group (index : nat) (a : regex).

(** A literal text, as a pattern. *)
Fixpoint literal (chars : str) : regex :=
  match chars with
  | [] => Empty
  | [c] => Lit c
  | c :: rest => Cat (Lit c) (literal rest)
  end.

Definition is_lower (c : N) : bool := N.leb 97 c && N.leb c 122.
Definition is_upper (c : N) : bool := N.leb 65 c && N.leb c 90.

(** The lower-case ASCII letter of a letter of the pattern, if it is one. *)
Definition letter_of (c : N) : option N :=
  if is_lower c then Some c
  else if is_upper c then Some (c + 32)
  else None.

(** The code points beyond ASCII that the engine, ignoring case, takes
    for a letter: dotted capital and dotless small i, long s, and the
    Kelvin sign. *)
Definition folded_to (letter : N) : list N :=
  match letter with
  | 105 => [304; 305]
  | 115 => [383]
  | 107 => [8490]
  | _ => []
  end.

(** Whether the character [ch] matches the literal [c] of a pattern. *)
Definition lit_match (ignorecase : bool) (c ch : N) : bool :=
  N.eqb ch c ||
  (ignorecase &&
   match letter_of c with
   | Some l => N.eqb ch l || N.eqb ch (l - 32) || existsb (N.eqb ch) (folded_to l)
   | None => false
   end).

Definition captures := list (nat * str).

(** The backtracking matcher: [rmatch r s caps k] matches [r] at the
    start of [s] and hands what is left, with the groups closed so far,
    to [k]; the first alternative that lets [k] succeed wins. *)
Fixpoint rmatch {A : Type} (ignorecase : bool) (r : regex) (s : str) (caps : captures)
    (k : str -> captures -> option A) : option A :=
  match r with
  | Empty => k s caps
  | Lit c =>
      match s with
      | ch :: s' => if lit_match ignorecase c ch then k s' caps else None
      | [] => None
      end
  | Cat a b => rmatch ignorecase a s caps (fun s' caps' => rmatch ignorecase b s' caps' k)
  | Alt a b =>
      match rmatch ignorecase a s caps k with
      | Some x => Some x
      | None => rmatch ignorecase b s caps k
      end
  | Group i a =>
      rmatch ignorecase a s caps
        (fun s' caps' => k s' ((i, firstn (length s - length s') s) :: caps'))
  end.

(** A compiled pattern: the expression and its [re.IGNORECASE] flag. *)
Record pattern : Type := {
  expression : regex;
  ignorecase : bool
}.

(** [pattern.match] at the start of [s]: the groups and the rest. *)
Definition match_at (p : pattern) (s : str) : option (captures * str) :=
  rmatch (ignorecase p) (expression p) s [] (fun s' caps => Some (caps, s')).

(** A replacement template: literal text and [\g<n>] references. *)
Inductive piece : Type :=
| Text (t : str)
| Ref (index : nat).

Fixpoint group (index : nat) (caps : captures) : str :=
  match caps with
  | [] => []
  | (i, t) :: caps' => if Nat.eqb i index then t else group index caps'
  end.

Definition expand (template : list piece) (caps : captures) : str :=
  flat_map (fun pc => match pc with Text t => t | Ref i => group i caps end) template.

(** [pattern.sub(repl, s)]: the matches are looked for from left to
    right, each search starting where the last match ended; [skip]
    counts the characters of the last match still to pass. *)
Fixpoint sub_scan (p : pattern) (repl : list piece) (skip : nat) (s : str) : str :=
  match skip with
  | S n =>
      match s with
      | [] => []
      | _ :: s' => sub_scan p repl n s'
      end
  | O =>
      match match_at p s with
      | Some (caps, rest) =>
          expand repl caps ++
          match s with
          | [] => []
          | c :: s' =>
              match (length s - length rest)%nat with
              | O => c :: sub_scan p repl O s'
              | S n => sub_scan p repl n s'
              end
          end
      | None =>
          match s with
          | [] => []
          | c :: s' => c :: sub_scan p repl O s'
          end
      end
  end.

Definition sub (p : pattern) (repl : list piece) (s : str) : str := sub_scan p repl 0 s.

(** [(r)at(signal)] and [\g<1>@\g<2>] *)
Definition ratsignal : pattern :=
  {| expression :=
       Cat (Group 1 (literal (u "r")))
           (Cat (literal (u "at")) (Group 2 (literal (u "signal"))));
     ignorecase := true |}.

Definition ratsignal_repl : list piece := [Ref 1; Text (u "@"); Ref 2].

(** [(cod|cas)e (r)e(d)] and [\g<1>3 \g<2>3\g<3>] *)
Definition code_red : pattern :=
  {| expression :=
       Cat (Group 1 (Alt (literal (u "cod")) (literal (u "cas"))))
           (Cat (literal (u "e "))
                (Cat (Group 2 (literal (u "r")))
                     (Cat (literal (u "e")) (Group 3 (literal (u "d"))))));
     ignorecase := true |}.

Definition code_red_repl : list piece :=
  [Ref 1; Text (u "3 "); Ref 2; Text (u "3"); Ref 3].

Definition replacements : list (pattern * list piece) :=
  [(ratsignal, ratsignal_repl); (code_red, code_red_repl)].

(** [for pattern, repl in self.replacements: message = pattern.sub(repl, message)] *)
Definition transform (message : str) : str :=
  fold_left (fun m pr => sub (fst pr) (snd pr) m) replacements message.

End Sopel.

(** ** The rest of [ratlib/sopel.py]: configuration values, channel
    privileges, paths and the wrapper's output methods *)

Module Glue.
Import Http.

Local Open Scope N_scope.

(** [s.lower()] on the ASCII letters. Beyond ASCII only U+0130 and
    U+212A have a lower case with an ASCII letter in it, [i] and [k],
    which no key of [TRUTH] holds, so [parse] below does not tell this
    function from Python's. *)
Definition lower_char (c : N) : N :=
  if N.leb 65 c && N.leb c 90 then c + 32 else c.

Definition lower (s : str) : str := map lower_char s.

(** *** [BooleanAttribute] *)

Definition TRUTH : list (str * bool) :=
  [(u "0", false); (u "off", false); (u "n", false); (u "no", false);
   (u "f", false); (u "false", false);
   (u "1", true); (u "on", true); (u "y", true); (u "yes", true);
   (u "t", true); (u "true", true)].

(** [ChoiceAttribute.parse] of the framework, which [BooleanAttribute]
    extends: the value when it is one of the choices, [ValueError]
    otherwise. *)
Definition choice_parse (choices : list str) (value : str) : result str :=
  if existsb (str_eqb value) choices then Ok value else Raise ValueError.

(** [self.TRUTH.get(super().parse(value.lower()), False)], the choices
    being [set(self.TRUTH.keys())]. *)
Definition parse (value : str) : result bool :=
  match choice_parse (map fst TRUTH) (lower value) with
  | Ok v => Ok match lookup v TRUTH with Some b => b | None => false end
  | Raise e => Raise e
  end.

(** ['true' if value else 'false'] *)
Definition serialize (value : bool) : str :=
  if value then u "true" else u "false".

(** *** [best_channel_mode]

    [bot.privileges] maps each channel to a [dict] from identifier to
    privilege bits; a [dict] is taken by its lookup, [Identifier] by the
    conversion it makes of a nickname. *)
Definition best_channel_mode {K : Type} (Identifier : str -> K)
    (privileges : list (K -> option Z)) (nickname : str) : Z :=
  let nickname := Identifier nickname in
  fold_left
    (fun access channel =>
       Z.lor access match channel nickname with Some bits => bits | None => 0%Z end)
    privileges 0%Z.

(** *** [makepath], with the [os.path] of POSIX *)

(** [os.path.isabs] *)
Definition isabs (path : str) : bool := first_is_slash path.

(** [os.path.join] of two paths *)
Definition path_join (a b : str) : str :=
  if first_is_slash b then b
  else if falsy a || last_is_slash a then a ++ b
  else a ++ chr_slash :: b.

Definition makepath (dir filename : str) : str :=
  if isabs filename then filename else path_join dir filename.

(** *** The output methods of [OutputFilterWrapper]

    What a handler holds is the framework's bot or a wrapper around
    what it was given; [filter_output] wraps once more at each use. *)
Inductive bot : Type :=
| SopelBot
| OutputFilterWrapper (_bot : bot).

(** [say], [action], [notice] and [reply] have one body each, the same
    but for the method of [_bot] they end with. *)
Inductive method : Type :=
| say
| action
| notice
| reply.

(** [b.say(message)] and its like, with the default [transform=True] of
    a wrapper: the messages that reach the framework's bot. *)
Fixpoint emit (b : bot) (m : method) (message : str) : list (method * str) :=
  match b with
  | SopelBot => [(m, message)]
  | OutputFilterWrapper inner => emit inner m (Sopel.transform message)
  end.

(** [OutputFilterWrapper(inner).say(message, transform=flag)]: the flag
    is not handed on to [inner]. *)
Definition emit_with (inner : bot) (m : method) (message : str) (transform : bool)
  : list (method * str) :=
  emit inner m (if transform then Sopel.transform message else message).

(** [filter_output(fn)] *)
Definition filter_output {T R : Type} (fn : bot -> T -> R) : bot -> T -> R :=
  fun b trigger => fn (OutputFilterWrapper b) trigger.

End Glue.

(** * Properties *)

Module UrlFacts.
Import Url.

(** C9. [urljoin()] is the empty string, and joining ["a"] and ["b"],
    with a slash on either, both or neither side, or with an empty
    segment between them, is ["a/b"]. *)
Theorem urljoin_examples :
  urljoin [] = [] /\
  urljoin [u "a"; u "b"] = u "a/b" /\
  urljoin [u "a/"; u "b"] = u "a/b" /\
  urljoin [u "a/"; u "/b"] = u "a/b" /\
  urljoin [u "a"; u "/b"] = u "a/b" /\
  urljoin [u "a"; []; u "b"] = u "a/b".
Proof. repeat split; reflexivity. Qed.

(** Segments by their shape: an optional slash, a content, an optional
    slash. *)
Definition seg (lb : bool) (c : str) (tb : bool) : str :=
  (if lb then [chr_slash] else []) ++ c ++ (if tb then [chr_slash] else []).

Definition content (c : str) : Prop :=
  c <> [] /\ first_is_slash c = false /\ last_is_slash c = false.

Lemma last_is_slash_snoc s c : last_is_slash (s ++ [c]) = N.eqb c chr_slash.
Proof. unfold last_is_slash. rewrite rev_app_distr. reflexivity. Qed.

Lemma last_is_slash_app s t : t <> [] -> last_is_slash (s ++ t) = last_is_slash t.
Proof.
  intros Ht. unfold last_is_slash. rewrite rev_app_distr.
  destruct (rev t) eqn:E; [|reflexivity].
  apply (f_equal (@rev N)) in E. rewrite rev_involutive in E. contradiction.
Qed.

Lemma seg_falsy lb c tb : content c -> falsy (seg lb c tb) = false.
Proof.
  intros (Hc & _ & _). destruct c as [|x c]; [contradiction|].
  destruct lb; reflexivity.
Qed.

Lemma seg_first lb c tb : content c -> first_is_slash (seg lb c tb) = lb.
Proof.
  intros (Hc & Hf & _). destruct c as [|x c]; [contradiction|].
  destruct lb; [reflexivity|]. exact Hf.
Qed.

Lemma seg_last lb c tb : content c -> last_is_slash (seg lb c tb) = tb.
Proof.
  intros (Hc & _ & Hl). unfold seg. destruct tb.
  - rewrite app_assoc, last_is_slash_snoc. reflexivity.
  - rewrite app_nil_r, last_is_slash_app; assumption.
Qed.

Lemma seg_tl c tb : tl (seg true c tb) = seg false c tb.
Proof. reflexivity. Qed.

Lemma seg_lstrip lb c tb : content c -> lstrip_slashes (seg lb c tb) = seg false c tb.
Proof.
  intros (Hc & Hf & _). destruct c as [|x c]; [contradiction|].
  simpl in Hf. destruct lb; simpl; rewrite Hf; reflexivity.
Qed.

Lemma seg_rstrip lb c tb : content c -> rstrip_slashes (seg lb c tb) = seg lb c false.
Proof.
  intros (Hc & _ & Hl). unfold rstrip_slashes.
  assert (E : lstrip_slashes (rev (seg lb c false)) = rev (seg lb c false)).
  { unfold seg. rewrite app_nil_r, rev_app_distr.
    unfold last_is_slash in Hl. destruct (rev c) as [|x r] eqn:Er.
    - apply (f_equal (@rev N)) in Er. rewrite rev_involutive in Er. contradiction.
    - simpl. rewrite Hl. reflexivity. }
  destruct tb.
  - replace (seg lb c true) with (seg lb c false ++ [chr_slash]).
    + rewrite rev_app_distr. simpl. rewrite E. apply rev_involutive.
    + unfold seg. rewrite app_nil_r, app_assoc. reflexivity.
  - rewrite E. apply rev_involutive.
Qed.

Lemma seg_snoc lb c : seg lb c true = seg lb c false ++ [chr_slash].
Proof. unfold seg. rewrite app_nil_r, app_assoc. reflexivity. Qed.

Lemma seg_cons c tb : seg true c tb = chr_slash :: seg false c tb.
Proof. reflexivity. Qed.

Definition shaped (s : str) : Prop := exists lb c tb, content c /\ s = seg lb c tb.

Lemma simple_segment_shaped s : simple_segment s = true -> shaped s.
Proof.
  unfold simple_segment, nonempty. intros H.
  apply andb_prop in H. destruct H as [H H3]. apply andb_prop in H. destruct H as [H1 H2].
  apply negb_true_iff in H1, H2, H3.
  set (t := if first_is_slash s then tl s else s).
  exists (first_is_slash s), (core s), (last_is_slash t). split.
  - repeat split; try assumption. intros E. rewrite E in H1. discriminate.
  - assert (Es : s = (if first_is_slash s then [chr_slash] else []) ++ t).
    { subst t. destruct s as [|x s]; [reflexivity|]. simpl.
      destruct (N.eqb_spec x chr_slash); [subst x|]; reflexivity. }
    assert (Et : t = core s ++ (if last_is_slash t then [chr_slash] else [])).
    { unfold core. fold t. destruct (last_is_slash t) eqn:El.
      - unfold last_is_slash in El. destruct (rev t) as [|x r] eqn:Er; [discriminate|].
        apply N.eqb_eq in El. subst x.
        assert (Et' : t = rev r ++ [chr_slash]).
        { rewrite <- (rev_involutive t), Er. reflexivity. }
        rewrite Et' at 1. rewrite Et', removelast_last. reflexivity.
      - rewrite app_nil_r. reflexivity. }
    unfold seg. rewrite <- Et. exact Es.
Qed.

(** After a segment has been emitted, the rest of the output continues it
    with one slash per junction. *)
Lemma gen_after_shaped rest :
  Forall shaped rest ->
  forall lb c tb, content c ->
    seg lb c tb ++ concat (_gen (Some (seg lb c tb)) rest) =
    match rest with
    | [] => seg lb c tb
    | _ :: _ => seg lb c false ++ joined_after rest
    end.
Proof.
  induction 1 as [|q rest' Hq Hrest IH]; intros lb c tb Hc.
  - simpl. apply app_nil_r.
  - destruct Hq as (lb' & c' & tb' & Hc' & ->).
    assert (Hnext : seg false c' tb' ++ concat (_gen (Some (seg false c' tb')) rest')
                    = match rest' with
                      | [] => lstrip_slashes (seg lb' c' tb')
                      | _ :: _ => rstrip_slashes (lstrip_slashes (seg lb' c' tb'))
                                    ++ joined_after rest'
                      end).
    { rewrite IH by assumption. rewrite seg_lstrip by assumption.
      destruct rest'; [reflexivity|]. rewrite seg_rstrip by assumption. reflexivity. }
    assert (Hgoal : joined_after (seg lb' c' tb' :: rest')
                    = chr_slash :: seg false c' tb'
                        ++ concat (_gen (Some (seg false c' tb')) rest')).
    { rewrite Hnext. destruct rest'; reflexivity. }
    rewrite Hgoal. clear Hgoal Hnext.
    cbn [_gen]. rewrite !seg_falsy, seg_last, seg_first by assumption.
    destruct tb, lb'; cbn [Bool.eqb negb concat].
    + rewrite seg_tl, seg_snoc, <- app_assoc. reflexivity.
    + rewrite seg_snoc, <- app_assoc. reflexivity.
    + assert (E : concat (_gen (Some (seg true c' tb')) rest')
                  = concat (_gen (Some (seg false c' tb')) rest')).
      { destruct Hrest as [|r rest'' Hr _]; [reflexivity|].
        destruct Hr as (lr & cr & tr & Hcr & ->).
        cbn [_gen]. rewrite !seg_falsy by assumption.
        rewrite !seg_last by assumption. reflexivity. }
      rewrite E, seg_cons. reflexivity.
    + reflexivity.
Qed.

Lemma gen_skips_empty prev parts : _gen prev parts = _gen prev (filter nonempty parts).
Proof.
  revert prev. induction parts as [|p parts IH]; intros prev; [reflexivity|].
  cbn [_gen filter]. unfold nonempty. destruct (falsy p) eqn:Ef; cbn [negb].
  - apply IH.
  - cbn [_gen]. rewrite Ef.
    destruct prev as [q|]; [destruct (falsy q)|]; rewrite ?IH; reflexivity.
Qed.

(** X25. When every segment that is not empty carries at most one
    slash at each end, around a content that is not empty and neither
    starts nor ends with a slash, [urljoin] skips the empty segments
    and separates every two neighbours by exactly one ['/']. *)
Theorem urljoin_one_slash_between_simple_segments (parts : list str) :
  Forall (fun p => p = [] \/ simple_segment p = true) parts ->
  urljoin parts = separated_by_one_slash (filter nonempty parts).
Proof.
  intros Hparts. unfold urljoin. rewrite gen_skips_empty.
  assert (Hs : Forall shaped (filter nonempty parts)).
  { apply Forall_forall. intros p Hp. apply filter_In in Hp. destruct Hp as [Hin Hne].
    rewrite Forall_forall in Hparts. destruct (Hparts p Hin) as [->|Hsimple].
    - discriminate.
    - apply simple_segment_shaped. exact Hsimple. }
  destruct (filter nonempty parts) as [|p segs]; [reflexivity|].
  inversion Hs as [|? ? Hp Hsegs]; subst.
  destruct Hp as (lb & c & tb & Hc & ->).
  cbn [_gen]. rewrite seg_falsy by assumption. cbn [concat].
  rewrite gen_after_shaped by assumption.
  destruct segs; [reflexivity|].
  cbn [separated_by_one_slash]. rewrite seg_rstrip by assumption. reflexivity.
Qed.

Lemma urljoin_one_slash_between_simple_segments_witness :
  Forall (fun p => p = [] \/ simple_segment p = true) [u "/api/"; []; u "/v1"; u "rescues/"] /\
  urljoin [u "/api/"; []; u "/v1"; u "rescues/"] = u "/api/v1/rescues/".
Proof.
  assert (H : Forall (fun p => p = [] \/ simple_segment p = true)
                [u "/api/"; []; u "/v1"; u "rescues/"]).
  { repeat constructor; (left; reflexivity) || (right; reflexivity). }
  split; [exact H|].
  rewrite (urljoin_one_slash_between_simple_segments H). reflexivity.
Defined.

(** C2. The docstring of [urljoin] says that each chunk is separated by
    exactly one ['/'], and the code does not do it: [_gen] looks at one
    character on each side of a junction, so a segment that ends with
    two slashes keeps both and its neighbour stands two slashes away,
    and a segment that is a lone slash, emptied by the slash before it,
    lets the slash of the next one through. *)
Lemma urljoin_keeps_double_slash :
  urljoin [u "a//"; u "b"] = u "a//b" /\
  separated_by_one_slash (filter nonempty [u "a//"; u "b"]) = u "a/b" /\
  urljoin [u "a/"; u "/"; u "/b"] = u "a//b" /\
  ~ (forall parts, urljoin parts = separated_by_one_slash (filter nonempty parts)).
Proof.
  split; [reflexivity|]. split; [reflexivity|]. split; [reflexivity|].
  intros H. specialize (H [u "a//"; u "b"]). discriminate H.
Qed.

End UrlFacts.

Module FloatFacts.
Import Float.
Local Open Scope Z_scope.

Lemma round_ratio_scale neg c num den :
  0 < c -> 0 < den -> round_ratio neg (c * num) (c * den) = round_ratio neg num den.
Proof.
  intros Hc Hd. unfold round_ratio.
  pose proof (Z.div_eucl_eq (c * num * 2 ^ guard) (c * den)) as E1.
  pose proof (Z.div_eucl_eq (num * 2 ^ guard) den) as E2.
  assert (Q : (c * num * 2 ^ guard) / (c * den) = (num * 2 ^ guard) / den).
  { rewrite <- Z.mul_assoc. apply Z.div_mul_cancel_l; lia. }
  assert (R : (c * num * 2 ^ guard) mod (c * den) = c * ((num * 2 ^ guard) mod den)).
  { rewrite <- Z.mul_assoc. apply Z.mul_mod_distr_l; lia. }
  unfold Z.div, Z.modulo in Q, R.
  destruct (Z.div_eucl (c * num * 2 ^ guard) (c * den)) as [q1 r1].
  destruct (Z.div_eucl (num * 2 ^ guard) den) as [q2 r2].
  subst q1 r1.
  replace (c * r2 =? 0) with (r2 =? 0); [reflexivity|].
  destruct (Z.eqb_spec r2 0) as [->|H]; [rewrite Z.mul_0_r; reflexivity|].
  symmetry. apply Z.eqb_neq. nia.
Qed.

Lemma of_decimal_scale neg D E j :
  0 <= j -> of_decimal neg (D * 10 ^ j) (E - j) = of_decimal neg D E.
Proof.
  intros Hj. unfold of_decimal.
  assert (P : forall k, 0 < 10 ^ Z.max k 0) by (intros; apply Z.pow_pos_nonneg; lia).
  destruct (Z.le_gt_cases 0 (E - j)) as [H|H].
  - rewrite (Z.max_l (E - j)), (Z.max_l E), (Z.max_r (- (E - j))), (Z.max_r (- E)) by lia.
    f_equal. rewrite <- Z.mul_assoc, <- Z.pow_add_r by lia. do 2 f_equal. lia.
  - rewrite (Z.max_r (E - j)), (Z.max_l (- (E - j))) by lia.
    destruct (Z.le_gt_cases 0 E) as [H'|H'].
    + rewrite (Z.max_l E), (Z.max_r (- E)) by lia.
      rewrite <- (@round_ratio_scale neg (10 ^ (j - E)) (D * 10 ^ E) (10 ^ 0)).
      * f_equal; [|rewrite Z.mul_1_r; f_equal; lia].
        rewrite Z.pow_0_r, Z.mul_1_r.
        replace j with ((j - E) + E) at 1 by lia. rewrite Z.pow_add_r by lia. ring.
      * apply Z.pow_pos_nonneg; lia.
      * reflexivity.
    + rewrite (Z.max_r E), (Z.max_l (- E)) by lia.
      rewrite <- (@round_ratio_scale neg (10 ^ j) (D * 10 ^ 0) (10 ^ (- E))).
      * f_equal; [rewrite !Z.pow_0_r; ring|].
        rewrite <- Z.pow_add_r by lia. f_equal. lia.
      * apply Z.pow_pos_nonneg; lia.
      * apply Z.pow_pos_nonneg; lia.
Qed.

Lemma binary64_bounds neg m e :
  binary64 (Finite neg m e) = true ->
  Zpos m < 2 ^ 53 /\ -1074 <= e <= 971 /\ (2 ^ 52 <= Zpos m \/ e = -1074).
Proof.
  unfold binary64. intros H.
  apply andb_prop in H. destruct H as [H H4].
  apply andb_prop in H. destruct H as [H H3].
  apply andb_prop in H. destruct H as [H1 H2].
  apply Z.ltb_lt in H1. apply Z.leb_le in H2, H3.
  apply orb_prop in H4.
  repeat split; try assumption.
  destruct H4 as [H4|H4]; [left; apply Z.leb_le; exact H4|right; apply Z.eqb_eq; exact H4].
Qed.

Lemma canonical_exponent m e :
  Zpos m < 2 ^ 53 -> -1074 <= e -> (2 ^ 52 <= Zpos m \/ e = -1074) ->
  Z.max (Z.log2 (Zpos m) + e - 52) (-1074) = e.
Proof.
  intros Hm He [H|H].
  - assert (L : Z.log2 (Zpos m) = 52) by (apply Z.log2_unique; lia). lia.
  - assert (L : Z.log2 (Zpos m) < 53) by (apply Z.log2_lt_pow2; lia). lia.
Qed.

(** A ratio that is a binary64 number is rounded to that number. *)
Lemma round_exact neg m e num den :
  binary64 (Finite neg m e) = true ->
  0 < den ->
  num * 2 ^ guard = Zpos m * 2 ^ (e + guard) * den ->
  round_ratio neg num den = Finite neg m e.
Proof.
  intros Hb Hden Heq.
  destruct (binary64_bounds _ _ _ Hb) as (Hm & He & Hc).
  unfold round_ratio. rewrite Heq.
  assert (Q : (Zpos m * 2 ^ (e + guard) * den) / den = Zpos m * 2 ^ (e + guard))
    by (apply Z.div_mul; lia).
  assert (R : (Zpos m * 2 ^ (e + guard) * den) mod den = 0) by (apply Z.mod_mul; lia).
  unfold Z.div, Z.modulo in Q, R.
  destruct (Z.div_eucl (Zpos m * 2 ^ (e + guard) * den) den) as [q r]. subst q r.
  assert (Hg : 0 <= e + guard) by (unfold guard; lia).
  assert (Hp : 0 < 2 ^ (e + guard)) by (apply Z.pow_pos_nonneg; lia).
  destruct (Z.eqb_spec (Zpos m * 2 ^ (e + guard)) 0) as [H0|_]; [nia|].
  rewrite Z.log2_mul_pow2 by lia.
  replace (e + guard + Z.log2 (Zpos m) - guard - 52) with (Z.log2 (Zpos m) + e - 52) by lia.
  rewrite canonical_exponent by (try assumption; lia).
  rewrite Z.shiftr_div_pow2 by lia. rewrite Z.land_ones by lia.
  rewrite Z.div_mul by lia. rewrite Z.mod_mul by lia.
  assert (Hh : 0 < 2 ^ (e + guard - 1)) by (apply Z.pow_pos_nonneg; unfold guard; lia).
  destruct (Z.ltb_spec (2 ^ (e + guard - 1)) 0); [lia|].
  destruct (Z.eqb_spec (2 ^ (e + guard - 1)) 0); [lia|].
  cbn [orb andb].
  destruct (Z.eqb_spec (Zpos m) (2 ^ 53)); [lia|].
  destruct (Z.ltb_spec 971 e); [lia|]. reflexivity.
Qed.

Lemma exact_decimal_reads neg m e :
  binary64 (Finite neg m e) = true ->
  of_decimal neg (fst (exact_decimal m e)) (snd (exact_decimal m e)) = Finite neg m e.
Proof.
  intros Hb. destruct (binary64_bounds _ _ _ Hb) as (Hm & He & Hc).
  unfold exact_decimal, of_decimal.
  destruct (Z.leb_spec 0 e) as [H|H]; cbn [fst snd].
  - apply round_exact; [exact Hb|reflexivity|].
    cbn [Z.max Z.opp Z.compare]. rewrite !Z.pow_0_r, !Z.mul_1_r.
    rewrite Z.pow_add_r by (unfold guard; lia). ring.
  - rewrite (Z.max_r e), (Z.max_l (- e)) by lia.
    apply round_exact; [exact Hb|apply Z.pow_pos_nonneg; lia|].
    rewrite Z.pow_0_r, Z.mul_1_r.
    replace 10 with (2 * 5) by reflexivity. rewrite Z.pow_mul_l.
    replace guard with ((e + guard) + (- e)) at 1 by lia.
    rewrite Z.pow_add_r by (unfold guard; lia). ring.
Qed.

Definition with_sign (neg : bool) (f : float) : float :=
  match f with
  | Nan => Nan
  | Inf _ => Inf neg
  | Zero _ => Zero neg
  | Finite _ m e => Finite neg m e
  end.

Lemma round_ratio_sign neg num den :
  round_ratio neg num den = with_sign neg (round_ratio false num den).
Proof.
  unfold round_ratio. destruct (Z.div_eucl _ _) as [Q R].
  destruct (Q =? 0); [reflexivity|].
  match goal with |- context [match ?x with Zpos _ => _ | _ => _ end] => destruct x end;
    try reflexivity.
  match goal with |- context [if ?b then _ else _] => destruct b end; reflexivity.
Qed.

Lemma reads_with_sign neg D E m e :
  float_eqb (of_decimal false D E) (Finite false m e) = true ->
  of_decimal neg D E = Finite neg m e.
Proof.
  unfold float_eqb. destruct (float_eq_dec _ _) as [H|]; [|discriminate]. intros _.
  unfold of_decimal in *. rewrite round_ratio_sign, H. reflexivity.
Qed.

Lemma shortest_reads (reads : Z -> Z -> bool) A E0 k :
  reads A E0 = true -> 0 < A ->
  reads (fst (shortest reads A E0 k)) (snd (shortest reads A E0 k)) = true /\
  0 < fst (shortest reads A E0 k).
Proof.
  intros HA Hpos. induction k as [|k IH]; [split; assumption|].
  cbn [shortest].
  set (p := 10 ^ Z.of_nat (S k)).
  assert (Hp : 0 < p) by (apply Z.pow_pos_nonneg; lia).
  assert (Hlo : 0 <= A / p) by (apply Z.div_pos; lia).
  destruct ((0 <? A / p) && reads (A / p) (E0 + Z.of_nat (S k))) eqn:Elo;
    destruct (reads (A / p + 1) (E0 + Z.of_nat (S k))) eqn:Ehi; cbn [andb].
  - apply andb_prop in Elo. destruct Elo as [E1 E2]. apply Z.ltb_lt in E1.
    destruct (2 * (A mod p) <=? p); cbn [fst snd]; split; try assumption; lia.
  - apply andb_prop in Elo. destruct Elo as [E1 E2]. apply Z.ltb_lt in E1.
    cbn [fst snd]. split; assumption.
  - cbn [fst snd]. split; [assumption|lia].
  - exact IH.
Qed.

Lemma strip_zeros_scale fuel D E :
  exists j, 0 <= j /\ D = fst (strip_zeros fuel D E) * 10 ^ j /\
            snd (strip_zeros fuel D E) = E + j /\
            (0 < D -> 0 < fst (strip_zeros fuel D E)).
Proof.
  revert D E. induction fuel as [|f IH]; intros D E.
  - exists 0. cbn [strip_zeros fst snd]. rewrite Z.pow_0_r. repeat split; lia.
  - cbn [strip_zeros].
    destruct ((0 <? D) && (D mod 10 =? 0)) eqn:H.
    + apply andb_prop in H. destruct H as [H1 H2].
      apply Z.ltb_lt in H1. apply Z.eqb_eq in H2.
      destruct (IH (D / 10) (E + 1)) as (j & Hj & HD & HE & Hpos).
      exists (j + 1). repeat split; try lia.
      * rewrite Z.pow_add_r by lia. rewrite Z.mul_assoc, <- HD.
        pose proof (Z.div_mod D 10). lia.
      * intros _. apply Hpos. pose proof (Z.div_mod D 10). lia.
    + exists 0. cbn [fst snd]. rewrite Z.pow_0_r. repeat split; lia.
Qed.

(** The digits of [repr] read back as the number they were made of. *)
Lemma repr_digits_reads neg m e :
  binary64 (Finite neg m e) = true ->
  0 < fst (repr_digits m e) /\
  of_decimal neg (fst (repr_digits m e)) (snd (repr_digits m e)) = Finite neg m e.
Proof.
  intros Hb. unfold repr_digits.
  pose proof (@exact_decimal_reads false m e Hb) as Hex.
  assert (HA : 0 < fst (exact_decimal m e)).
  { unfold exact_decimal. destruct (Z.leb_spec 0 e); cbn [fst];
      apply Z.mul_pos_pos; try lia; apply Z.pow_pos_nonneg; lia. }
  destruct (exact_decimal m e) as [A E0]. cbn [fst snd] in *.
  set (reads := fun D E => float_eqb (of_decimal false D E) (Finite false m e)).
  assert (Hr : reads A E0 = true).
  { unfold reads, float_eqb. rewrite Hex.
    destruct (float_eq_dec _ _); [reflexivity|contradiction]. }
  destruct (@shortest_reads reads A E0 (pred (nb_digits A)) Hr HA) as [Hs Hpos].
  destruct (shortest reads A E0 (pred (nb_digits A))) as [D E]. cbn [fst snd] in *.
  destruct (strip_zeros_scale (nb_digits A) D E) as (j & Hj & HD & HE & Hp).
  split; [apply Hp; exact Hpos|].
  apply (reads_with_sign neg) in Hs.
  destruct (strip_zeros (nb_digits A) D E) as [D' E']. cbn [fst snd] in *.
  rewrite <- Hs, HD. replace E with (E' - j) by lia.
  symmetry. apply of_decimal_scale. exact Hj.
Qed.

End FloatFacts.

Module JsonFacts.
Import Json.
Local Open Scope N_scope.

(** *** Numbers *)

Definition all_digits (ds : str) : bool := forallb is_digit ds.

Lemma uint_chars_digits d : all_digits (uint_chars d) = true.
Proof. induction d; cbn [uint_chars all_digits forallb]; try reflexivity; exact IHd. Qed.

Lemma repr_N_digits n : all_digits (repr_N n) = true.
Proof. apply uint_chars_digits. Qed.

(** The value of a run of digits read after the digits of a prefix. *)
Definition number_from (acc : N) (ds : str) : N :=
  fold_left (fun a c => 10 * a + (c - 48)) ds acc.

Lemma number_from_app acc a b :
  number_from acc (a ++ b) = number_from (number_from acc a) b.
Proof. apply fold_left_app. Qed.

Lemma of_uint_acc_chars d acc :
  number_from (Npos acc) (uint_chars d) = Npos (Pos.of_uint_acc d acc).
Proof.
  revert acc. induction d; intros acc; cbn [uint_chars Pos.of_uint_acc]; try reflexivity;
    unfold number_from in *; cbn [fold_left]; rewrite <- IHd; f_equal; lia.
Qed.

Lemma of_uint_chars d : number_of (uint_chars d) = N.of_uint d.
Proof.
  unfold number_of, N.of_uint.
  induction d as [|x IH|x IH|x IH|x IH|x IH|x IH|x IH|x IH|x IH|x IH];
    cbn [uint_chars Pos.of_uint fold_left]; [reflexivity|exact IH|..];
    match goal with
    | |- fold_left _ (uint_chars ?y) ?a = N.pos (Pos.of_uint_acc ?y ?p) =>
        change a with (N.pos p); apply (of_uint_acc_chars y p)
    end.
Qed.

Lemma number_of_repr n : number_of (repr_N n) = n.
Proof. unfold repr_N. rewrite of_uint_chars. apply DecimalN.Unsigned.of_to. Qed.

Lemma to_uint_canonical n : Decimal.unorm (N.to_uint n) = N.to_uint n.
Proof.
  rewrite <- (DecimalN.Unsigned.of_to n) at 2.
  symmetry. apply DecimalN.Unsigned.to_of.
Qed.

Lemma to_uint_not_nil n : N.to_uint n <> Decimal.Nil.
Proof. rewrite <- to_uint_canonical. apply DecimalFacts.unorm_nonnil. Qed.

Lemma canonical_zero d :
  Decimal.unorm (Decimal.D0 d) = Decimal.D0 d -> d = Decimal.Nil.
Proof.
  intros H. rewrite DecimalFacts.unorm_D0 in H.
  destruct d as [|x|x|x|x|x|x|x|x|x|x]; [reflexivity|..]; exfalso;
    match type of H with
    | Decimal.unorm ?y = _ =>
        assert (Hn : y <> Decimal.Nil) by discriminate;
        pose proof (DecimalFacts.nb_digits_unorm y Hn) as B
    end;
    rewrite H in B; cbn [Decimal.nb_digits] in B; lia.
Qed.

(** The digits of a number: the first one is a zero for zero only. *)
Lemma repr_N_cons n :
  exists c t, repr_N n = c :: t /\ is_digit c = true /\
              (c = 48 -> t = [] /\ n = 0).
Proof.
  unfold repr_N.
  pose proof (to_uint_not_nil n) as Hn. pose proof (to_uint_canonical n) as Hc.
  pose proof (DecimalN.Unsigned.of_to n) as Hof.
  destruct (N.to_uint n) as [|x|x|x|x|x|x|x|x|x|x]; [contradiction|..];
    cbn [uint_chars]; do 2 eexists; (split; [reflexivity|]); (split; [reflexivity|]);
    try (intros; discriminate).
  intros _. apply canonical_zero in Hc. subst x. split; [reflexivity|].
  rewrite <- Hof. reflexivity.
Qed.

(** What follows a number literal and is no part of it. *)
Definition ends_number (rest : str) : bool :=
  match rest with
  | [] => true
  | c :: _ => negb (is_digit c) && negb (N.eqb c 46) && negb (N.eqb c 101) && negb (N.eqb c 69)
  end.

Definition no_digit_ahead (rest : str) : bool :=
  match rest with
  | [] => true
  | c :: _ => negb (is_digit c)
  end.

Lemma span_digits_run ds rest :
  all_digits ds = true -> no_digit_ahead rest = true ->
  span_digits (ds ++ rest) = (ds, rest).
Proof.
  intros Hd Hr. induction ds as [|c ds IH].
  - destruct rest as [|x r]; [reflexivity|]. cbn [app span_digits].
    cbn [no_digit_ahead] in Hr. apply negb_true_iff in Hr. rewrite Hr. reflexivity.
  - cbn [all_digits forallb] in Hd. apply andb_prop in Hd. destruct Hd as [Hc Hd].
    cbn [app span_digits]. rewrite Hc, (IH Hd). reflexivity.
Qed.

Lemma ends_number_no_digit rest : ends_number rest = true -> no_digit_ahead rest = true.
Proof.
  destruct rest as [|c r]; [reflexivity|]. cbn [ends_number no_digit_ahead].
  intros H. repeat (apply andb_prop in H; destruct H as [H _]). exact H.
Qed.

Lemma ends_number_no_fraction rest :
  ends_number rest = true -> scan_fraction rest = ([], rest).
Proof.
  destruct rest as [|c [|d r]]; try reflexivity. cbn [ends_number scan_fraction].
  intros H. apply andb_prop in H. destruct H as [H _].
  apply andb_prop in H. destruct H as [H _].
  apply andb_prop in H. destruct H as [_ H]. apply negb_true_iff in H.
  rewrite H. reflexivity.
Qed.

Lemma ends_number_no_exponent rest :
  ends_number rest = true -> scan_exponent rest = (None, rest).
Proof.
  destruct rest as [|c r]; [reflexivity|]. cbn [ends_number scan_exponent].
  intros H. apply andb_prop in H. destruct H as [H H69].
  apply andb_prop in H. destruct H as [_ H101].
  apply negb_true_iff in H69, H101. rewrite H69, H101. reflexivity.
Qed.

(** The parts of a number literal. *)
Definition int_part (ip : str) : bool :=
  all_digits ip &&
  match ip with
  | [] => false
  | [_] => true
  | c :: _ => negb (N.eqb c 48)
  end.

Definition frac_text (fp : str) : str :=
  match fp with [] => [] | _ :: _ => 46 :: fp end.

Definition exp_text (ex : option Z) : str :=
  match ex with None => [] | Some x => 101 :: exponent_text x end.

Lemma number_of_zero ds : number_of (48 :: ds) = number_of ds.
Proof. reflexivity. Qed.

Lemma scan_exponent_text ex rest :
  ends_number rest = true ->
  scan_exponent (exp_text ex ++ rest) = (ex, rest).
Proof.
  intros Hr. destruct ex as [x|]; [|apply ends_number_no_exponent; exact Hr].
  pose proof (ends_number_no_digit _ Hr) as Hn.
  destruct (repr_N_cons (Z.abs_N x)) as (c & t & E & Hc & _).
  pose proof (repr_N_digits (Z.abs_N x)) as Hd. rewrite E in Hd.
  cbn [all_digits forallb] in Hd. apply andb_prop in Hd. destruct Hd as [_ Hd].
  pose proof (number_of_repr (Z.abs_N x)) as Hv. rewrite E in Hv.
  unfold exp_text, exponent_text. rewrite E. cbn [app scan_exponent N.eqb Pos.eqb orb].
  assert (Hall : all_digits (c :: t) = true)
    by (cbn [all_digits forallb]; rewrite Hc; exact Hd).
  destruct (Z.ltb_spec x 0) as [Hx|Hx]; cbn [N.eqb Pos.eqb];
    (destruct (Z.abs x <? 10)%Z; cbn [app];
     [ change (48 :: c :: t ++ rest) with ((48 :: c :: t) ++ rest);
       rewrite (@span_digits_run (48 :: c :: t) rest Hall Hn), number_of_zero
     | change (c :: t ++ rest) with ((c :: t) ++ rest);
       rewrite (@span_digits_run (c :: t) rest Hall Hn) ];
     rewrite Hv; do 2 f_equal; lia).
Qed.

Definition no_point (rest : str) : bool :=
  match rest with
  | [] => true
  | c :: _ => negb (is_digit c) && negb (N.eqb c 46)
  end.

Lemma scan_fraction_text fp rest :
  all_digits fp = true -> no_point rest = true ->
  scan_fraction (frac_text fp ++ rest) = (fp, rest).
Proof.
  intros Hd Hr.
  assert (Hn : no_digit_ahead rest = true).
  { destruct rest as [|c r]; [reflexivity|]. cbn [no_point no_digit_ahead] in *.
    apply andb_prop in Hr. destruct Hr as [Hr _]. exact Hr. }
  destruct fp as [|d fp].
  - cbn [frac_text app]. destruct rest as [|c [|x r]]; try reflexivity.
    cbn [no_point] in Hr. apply andb_prop in Hr. destruct Hr as [_ Hr].
    apply negb_true_iff in Hr. cbn [scan_fraction]. rewrite Hr. reflexivity.
  - cbn [frac_text app scan_fraction N.eqb Pos.eqb].
    pose proof Hd as Hd'. cbn [all_digits forallb] in Hd'.
    apply andb_prop in Hd'. destruct Hd' as [Hc _]. rewrite Hc. cbn [andb tl].
    change (d :: fp ++ rest) with ((d :: fp) ++ rest).
    apply span_digits_run; assumption.
Qed.

Lemma exp_text_no_point ex rest : ends_number rest = true -> no_point (exp_text ex ++ rest) = true.
Proof.
  destruct ex as [x|]; [reflexivity|]. cbn [exp_text app].
  destruct rest as [|c r]; [reflexivity|]. cbn [ends_number no_point]. intros H.
  apply andb_prop in H. destruct H as [H _]. apply andb_prop in H. destruct H as [H _].
  exact H.
Qed.

Lemma frac_exp_no_digit fp ex rest :
  ends_number rest = true -> no_digit_ahead (frac_text fp ++ exp_text ex ++ rest) = true.
Proof.
  intros H. destruct fp as [|d fp]; [|reflexivity]. cbn [frac_text app].
  destruct ex as [x|]; [reflexivity|]. apply ends_number_no_digit. exact H.
Qed.

(** A literal made of its parts is read as these parts. *)
Lemma scan_literal py (neg : bool) ip fp ex rest :
  int_part ip = true -> all_digits fp = true -> ends_number rest = true ->
  scan_number py ((if neg then [45] else []) ++ ip ++ frac_text fp ++ exp_text ex ++ rest) =
  match fp, ex with
  | [], None =>
      if within_digits py (length ip) then
        Ok (JNum (if neg then (- Z.of_N (number_of ip))%Z else Z.of_N (number_of ip)), rest)
      else Raise ValueError
  | _, _ =>
      Ok (JFloat (Float.of_decimal neg (Z.of_N (number_of (ip ++ fp)))
                    (match ex with Some x => x | None => 0%Z end - Z.of_nat (length fp))),
          rest)
  end.
Proof.
  intros Hip Hfp Hr.
  unfold int_part in Hip. apply andb_prop in Hip. destruct Hip as [Hall Hhead].
  destruct ip as [|c t]; [discriminate|].
  pose proof Hall as Hall'. cbn [all_digits forallb] in Hall'.
  apply andb_prop in Hall'. destruct Hall' as [Hc Ht].
  assert (H45 : N.eqb c 45 = false).
  { destruct (N.eqb_spec c 45) as [->|]; [discriminate|reflexivity]. }
  set (tail := frac_text fp ++ exp_text ex ++ rest).
  assert (Hstart : scan_number py ((if neg then [45] else []) ++ (c :: t) ++ tail) =
                   (let '(ip, r1) := if N.eqb c 48 then ([48], t ++ tail)
                                     else span_digits ((c :: t) ++ tail) in
                    let '(fp, r2) := scan_fraction r1 in
                    let '(ex, r3) := scan_exponent r2 in
                    match fp, ex with
                    | [], None =>
                        if within_digits py (length ip) then
                          Ok (JNum (if neg then (- Z.of_N (number_of ip))%Z
                                    else Z.of_N (number_of ip)), r3)
                        else Raise ValueError
                    | _, _ =>
                        let x := match ex with Some x => x | None => 0%Z end in
                        Ok (JFloat (Float.of_decimal neg (Z.of_N (number_of (ip ++ fp)))
                                      (x - Z.of_nat (length fp))), r3)
                    end)).
  { destruct neg; cbn [app]; unfold scan_number; cbn [N.eqb Pos.eqb];
      rewrite ?H45, Hc; reflexivity. }
  rewrite Hstart. clear Hstart.
  assert (Hint : (if N.eqb c 48 then ([48], t ++ tail) else span_digits ((c :: t) ++ tail))
                 = (c :: t, tail)).
  { destruct (N.eqb_spec c 48) as [->|Hne].
    - destruct t as [|c2 t2]; [reflexivity|discriminate].
    - apply span_digits_run; [exact Hall|]. apply frac_exp_no_digit. exact Hr. }
  rewrite Hint. unfold tail.
  rewrite (@scan_fraction_text fp (exp_text ex ++ rest) Hfp (exp_text_no_point ex rest Hr)).
  rewrite (@scan_exponent_text ex rest Hr).
  destruct fp, ex; reflexivity.
Qed.

Lemma int_part_repr n : int_part (repr_N n) = true.
Proof.
  unfold int_part. rewrite repr_N_digits. cbn [andb].
  destruct (repr_N_cons n) as (c & t & E & _ & Hz). rewrite E.
  destruct t as [|c2 t2]; [reflexivity|].
  destruct (N.eqb_spec c 48) as [H|H]; [|reflexivity].
  destruct (Hz H) as [Ht _]. discriminate.
Qed.

Lemma repr_Z_sign z :
  repr_Z z = (if (z <? 0)%Z then [45] else []) ++ repr_N (Z.abs_N z).
Proof. destruct z; reflexivity. Qed.

(** The text of an [int] is read as that [int], when the limit on the
    digits allows it. *)
Lemma scan_number_int py z rest :
  ends_number rest = true ->
  scan_number py (repr_Z z ++ rest) =
  if within_digits py (length (repr_N (Z.abs_N z))) then Ok (JNum z, rest)
  else Raise ValueError.
Proof.
  intros Hr. rewrite repr_Z_sign, <- app_assoc.
  pose proof (@scan_literal py (z <? 0)%Z (repr_N (Z.abs_N z)) [] None rest
                (int_part_repr _) eq_refl Hr) as H.
  cbn [frac_text exp_text app] in H. rewrite H, number_of_repr.
  destruct (within_digits py _); [|reflexivity].
  do 3 f_equal. destruct (Z.ltb_spec z 0); lia.
Qed.

Lemma all_digits_app a b : all_digits (a ++ b) = all_digits a && all_digits b.
Proof. apply forallb_app. Qed.

Lemma zeros_digits k : all_digits (zeros k) = true.
Proof. induction k; [reflexivity|exact IHk]. Qed.

Lemma number_from_zeros acc k : number_from acc (zeros k) = acc * 10 ^ N.of_nat k.
Proof.
  revert acc. induction k as [|k IH]; intros acc.
  - cbn. lia.
  - cbn [zeros repeat]. unfold number_from in *. cbn [fold_left]. fold (zeros k).
    rewrite IH. rewrite Nnat.Nat2N.inj_succ, N.pow_succ_r'. lia.
Qed.

Lemma number_of_leading_zeros k ds : number_of (zeros k ++ ds) = number_of ds.
Proof.
  unfold number_of. fold (number_from 0 (zeros k ++ ds)).
  rewrite number_from_app, number_from_zeros. reflexivity.
Qed.

Lemma number_of_trailing_zeros ds k :
  number_of (ds ++ zeros k) = number_of ds * 10 ^ N.of_nat k.
Proof.
  unfold number_of. fold (number_from 0 (ds ++ zeros k)).
  rewrite number_from_app, number_from_zeros. reflexivity.
Qed.

Lemma int_part_prefix c t k :
  is_digit c = true -> c <> 48 -> all_digits t = true ->
  int_part ((c :: t) ++ zeros k) = true /\ int_part (c :: firstn k t) = true.
Proof.
  intros Hc Hne Ht.
  assert (H48 : N.eqb c 48 = false) by (apply N.eqb_neq; exact Hne).
  split; unfold int_part.
  - rewrite all_digits_app, zeros_digits. unfold all_digits in *. cbn [forallb].
    rewrite Hc, Ht.
    cbn [andb app]. destruct (t ++ zeros k); [reflexivity|]. rewrite H48. reflexivity.
  - cbn [all_digits forallb]. rewrite Hc. cbn [andb].
    assert (Hf : forallb is_digit (firstn k t) = true).
    { apply forallb_forall. intros x Hx.
      unfold all_digits in Ht. rewrite forallb_forall in Ht. apply Ht.
      rewrite <- (firstn_skipn k t). apply in_or_app. left. exact Hx. }
    rewrite Hf. destruct (firstn k t); [reflexivity|]. rewrite H48. reflexivity.
Qed.

(** The text of [float.__repr__] is a literal with a fraction or an
    exponent, whose digits and exponent denote the decimal it was
    made of. *)
Lemma place_point_parts n decpt :
  0 < n ->
  exists ip fp ex j,
    place_point (repr_N n) decpt = ip ++ frac_text fp ++ exp_text ex /\
    int_part ip = true /\ all_digits fp = true /\
    match fp, ex with [], None => False | _, _ => True end /\
    number_of (ip ++ fp) = n * 10 ^ j /\
    (match ex with Some x => x | None => 0 end - Z.of_nat (length fp)
     = decpt - Z.of_nat (length (repr_N n)) - Z.of_N j)%Z.
Proof.
  intros Hn.
  destruct (repr_N_cons n) as (c & t & E & Hc & Hz).
  assert (Hne : c <> 48) by (intros H; destruct (Hz H) as [_ H0]; lia).
  pose proof (repr_N_digits n) as Hd. pose proof (number_of_repr n) as Hv.
  rewrite E in *. clear Hz.
  pose proof Hd as Hd'. cbn [all_digits forallb] in Hd'.
  apply andb_prop in Hd'. destruct Hd' as [_ Ht].
  unfold place_point.
  destruct ((decpt <? -3)%Z || (16 <? decpt)%Z).
  - (* scientific notation *)
    exists [c], t, (Some (decpt - 1)%Z), 0.
    repeat split.
    + destruct t; reflexivity.
    + unfold int_part. cbn [all_digits forallb]. rewrite Hc. reflexivity.
    + exact Ht.
    + destruct t; exact I.
    + cbn [app]. rewrite Hv. lia.
    + cbn [length]. lia.
  - destruct (Z.leb_spec decpt 0) as [H0|H0].
    + (* 0.000ddd *)
      exists [48], (zeros (Z.to_nat (- decpt)) ++ c :: t), None, 0.
      repeat split.
      * destruct (zeros (Z.to_nat (- decpt)) ++ c :: t) eqn:Ez;
          [|cbn [frac_text exp_text app]; rewrite app_nil_r; reflexivity].
        apply app_eq_nil in Ez. destruct Ez as [_ Ez]. discriminate.
      * rewrite all_digits_app, zeros_digits. exact Hd.
      * destruct (zeros (Z.to_nat (- decpt)) ++ c :: t) eqn:Ez; [|exact I].
        apply app_eq_nil in Ez. destruct Ez as [_ Ez]. discriminate.
      * change ([48] ++ zeros (Z.to_nat (- decpt)) ++ c :: t)
          with (zeros 1 ++ zeros (Z.to_nat (- decpt)) ++ c :: t).
        rewrite !number_of_leading_zeros, Hv. lia.
      * rewrite length_app. unfold zeros. rewrite repeat_length. cbn [length]. lia.
    + destruct (Z.leb_spec (Z.of_nat (length (c :: t))) decpt) as [H1|H1].
      * (* ddd000.0 *)
        set (k := (Z.to_nat decpt - length (c :: t))%nat).
        exists ((c :: t) ++ zeros k), [48], None, (N.of_nat (S k)).
        repeat split.
        -- cbn [frac_text exp_text]. rewrite app_nil_r, <- app_assoc. reflexivity.
        -- apply int_part_prefix; assumption.
        -- rewrite <- app_assoc. change [48] with (zeros 1).
           assert (Ez : zeros k ++ zeros 1 = zeros (S k)).
           { unfold zeros. rewrite <- repeat_app. f_equal. lia. }
           rewrite Ez, number_of_trailing_zeros, Hv. reflexivity.
        -- cbn [length] in *. unfold k. cbn [length]. lia.
      * (* ddd.ddd *)
        destruct (Z.to_nat decpt) as [|p] eqn:Ep; [lia|].
        exists (c :: firstn p t), (skipn p t), None, 0.
        cbn [firstn skipn].
        assert (Hs : skipn p t <> []).
        { intros Hs. pose proof (firstn_skipn p t) as Hfs. rewrite Hs, app_nil_r in Hfs.
          pose proof (length_firstn p t) as Hl. rewrite Hfs in Hl. cbn [length] in H1. lia. }
        repeat split.
        -- destruct (skipn p t); [contradiction|].
           cbn [frac_text exp_text app]. rewrite app_nil_r. reflexivity.
        -- exact (proj2 (@int_part_prefix c t p Hc Hne Ht)).
        -- apply forallb_forall. intros x Hx.
           unfold all_digits in Ht. rewrite forallb_forall in Ht. apply Ht.
           rewrite <- (firstn_skipn p t). apply in_or_app. right. exact Hx.
        -- destruct (skipn p t); [contradiction|exact I].
        -- cbn [app]. rewrite firstn_skipn, Hv. lia.
        -- rewrite length_skipn. cbn [length] in *. lia.
Qed.

Definition digits : list N := [48; 49; 50; 51; 52; 53; 54; 55; 56; 57].

Lemma is_digit_cases c : is_digit c = true -> In c digits.
Proof.
  unfold is_digit. intros H. apply andb_prop in H. destruct H as [H1 H2].
  apply N.leb_le in H1, H2.
  assert (E : c = 48 \/ c = 49 \/ c = 50 \/ c = 51 \/ c = 52 \/ c = 53 \/ c = 54 \/
              c = 55 \/ c = 56 \/ c = 57) by lia.
  unfold digits. cbn [In]. intuition auto.
Qed.

(** A text that starts like a number is read by [scan_number]. *)
Lemma scan_once_digit py f room (neg : bool) c tail :
  is_digit c = true ->
  scan_once py (S f) room ((if neg then [45] else []) ++ c :: tail) =
  scan_number py ((if neg then [45] else []) ++ c :: tail).
Proof.
  intros Hc. apply is_digit_cases in Hc. unfold digits in Hc. cbn [In] in Hc.
  destruct neg; decompose [or] Hc; subst; try contradiction; reflexivity.
Qed.

Lemma int_part_cons ip :
  int_part ip = true -> exists c t, ip = c :: t /\ is_digit c = true.
Proof.
  unfold int_part. intros H. apply andb_prop in H. destruct H as [Hd Hh].
  destruct ip as [|c t]; [discriminate|]. exists c, t. split; [reflexivity|].
  cbn [all_digits forallb] in Hd. apply andb_prop in Hd. destruct Hd as [Hd _]. exact Hd.
Qed.

Lemma scan_once_int py f room z rest :
  ends_number rest = true ->
  scan_once py (S f) room (repr_Z z ++ rest) =
  if within_digits py (length (repr_N (Z.abs_N z))) then Ok (JNum z, rest)
  else Raise ValueError.
Proof.
  intros Hr. rewrite <- (@scan_number_int py z rest Hr).
  rewrite repr_Z_sign, <- app_assoc.
  destruct (@int_part_cons _ (int_part_repr (Z.abs_N z))) as (c & t & E & Hc).
  rewrite E. apply scan_once_digit. exact Hc.
Qed.

Lemma of_decimal_zero neg E : Float.of_decimal neg 0 E = Float.Zero neg.
Proof.
  unfold Float.of_decimal, Float.round_ratio. rewrite !Z.mul_0_l.
  cbn [Z.div_eucl]. reflexivity.
Qed.

(** The text of a [float] is read as that [float]. *)
Lemma scan_once_float py f room x rest :
  comparable x = true -> ends_number rest = true ->
  scan_once py (S f) room (float_text x ++ rest) = Ok (JFloat x, rest).
Proof.
  intros Hx Hr. destruct x as [|neg|neg|neg m e].
  - discriminate.
  - destruct neg; reflexivity.
  - assert (E : float_text (Float.Zero neg) ++ rest =
                (if neg then [45] else []) ++ 48 :: (frac_text [48] ++ exp_text None ++ rest))
      by (destruct neg; reflexivity).
    rewrite E. rewrite scan_once_digit by reflexivity.
    change (48 :: frac_text [48] ++ exp_text None ++ rest)
      with ([48] ++ frac_text [48] ++ exp_text None ++ rest).
    rewrite scan_literal by (reflexivity || exact Hr).
    change (Z.of_N (number_of ([48] ++ [48]))) with 0%Z.
    rewrite of_decimal_zero. reflexivity.
  - cbn [comparable] in Hx.
    destruct (@FloatFacts.repr_digits_reads neg m e Hx) as [Hpos Hread].
    cbn [float_text float_repr].
    destruct (Float.repr_digits m e) as [D E]. cbn [fst snd] in *.
    assert (Hn : 0 < Z.to_N D) by lia.
    destruct (@place_point_parts (Z.to_N D) (Z.of_nat (length (repr_N (Z.to_N D))) + E) Hn)
      as (ip & fp & ex & j & Htext & Hip & Hfp & Hfloat & Hnum & Hexp).
    rewrite Htext, <- !app_assoc.
    destruct (@int_part_cons ip Hip) as (c & t & Eip & Hc).
    subst ip.
    change ((c :: t) ++ frac_text fp ++ exp_text ex ++ rest)
      with (c :: (t ++ frac_text fp ++ exp_text ex ++ rest)).
    rewrite scan_once_digit by exact Hc.
    change (c :: (t ++ frac_text fp ++ exp_text ex ++ rest))
      with ((c :: t) ++ frac_text fp ++ exp_text ex ++ rest).
    rewrite scan_literal by assumption.
    assert (Hval : Float.of_decimal neg (Z.of_N (number_of ((c :: t) ++ fp)))
                     (match ex with Some x => x | None => 0%Z end - Z.of_nat (length fp))
                   = Float.Finite neg m e).
    { rewrite Hnum, Hexp, <- Hread.
      replace (Z.of_N (Z.to_N D * 10 ^ j)) with (D * 10 ^ Z.of_N j)%Z
        by (rewrite N2Z.inj_mul, N2Z.inj_pow, Z2N.id by lia; reflexivity).
      replace (Z.of_nat (length (repr_N (Z.to_N D))) + E
               - Z.of_nat (length (repr_N (Z.to_N D))) - Z.of_N j)%Z
        with (E - Z.of_N j)%Z by lia.
      apply FloatFacts.of_decimal_scale. lia. }
    rewrite Hval. destruct fp as [|d fp']; [destruct ex; [reflexivity|contradiction]|reflexivity].
Qed.

(** *** Strings *)

(** A check of every number from [i] on, [count] of them. *)
Fixpoint all_from (count : nat) (i : N) (f : N -> bool) : bool :=
  match count with
  | O => true
  | S k => if f i then all_from k (i + 1) f else false
  end.

Lemma all_from_spec count i f x :
  all_from count i f = true -> i <= x -> x < i + N.of_nat count -> f x = true.
Proof.
  revert i. induction count as [|k IH]; intros i H Hi Hx; [lia|].
  cbn [all_from] in H. destruct (f i) eqn:E; [|discriminate].
  destruct (N.eq_dec x i) as [->|Hne]; [exact E|].
  apply (IH (i + 1)); [exact H|lia|lia].
Qed.

Definition hex_ok (v : N) : bool :=
  match read_hex4 (hex4 v) with
  | Some (x, []) => N.eqb x v
  | _ => false
  end.

Lemma hex_ok_all : all_from (N.to_nat 65536) 0 hex_ok = true.
Proof. vm_compute. reflexivity. Qed.

Lemma read_hex4_hex4 v r : v < 65536 -> read_hex4 (hex4 v ++ r) = Some (v, r).
Proof.
  intros Hv.
  assert (H : hex_ok v = true).
  { apply (@all_from_spec (N.to_nat 65536) 0); [exact hex_ok_all|lia|lia]. }
  unfold hex_ok, read_hex4, hex4 in *. cbn [app].
  destruct (hex_val _); [|discriminate].
  destruct (hex_val _); [|discriminate].
  destruct (hex_val _); [|discriminate].
  destruct (hex_val _); [|discriminate].
  apply N.eqb_eq in H. rewrite H. reflexivity.
Qed.

Definition surrogate_offset_ok (x : N) : bool :=
  N.eqb (N.lor 55296 x) (55296 + x) && N.eqb (N.lor 56320 x) (56320 + x).

Lemma surrogate_offset_all : all_from (N.to_nat 1024) 0 surrogate_offset_ok = true.
Proof. vm_compute. reflexivity. Qed.

Lemma surrogate_offset x :
  x < 1024 -> N.lor 55296 x = 55296 + x /\ N.lor 56320 x = 56320 + x.
Proof.
  intros Hx.
  assert (H : surrogate_offset_ok x = true).
  { apply (@all_from_spec (N.to_nat 1024) 0); [exact surrogate_offset_all|lia|lia]. }
  unfold surrogate_offset_ok in H. apply andb_prop in H. destruct H as [H1 H2].
  apply N.eqb_eq in H1, H2. split; assumption.
Qed.

Lemma land_1023_bound n : N.land n 1023 < 1024.
Proof.
  change 1023 with (N.ones 10). rewrite N.land_ones.
  change 1024 with (2 ^ 10). apply N.mod_lt. discriminate.
Qed.

Lemma high_bits_clear n i : n < 1048576 -> 20 <= i -> N.testbit n i = false.
Proof.
  intros Hn Hi. destruct (N.eq_dec n 0) as [->|Hz]; [apply N.bits_0|].
  apply N.bits_above_log2.
  assert (N.log2 n < 20); [|lia].
  apply N.log2_lt_pow2; [lia|]. exact Hn.
Qed.

Lemma halves_recombine n :
  n < 1048576 ->
  N.lor (N.shiftl (N.land (N.shiftr n 10) 1023) 10) (N.land n 1023) = n.
Proof.
  intros Hn. apply N.bits_inj. intros i.
  rewrite N.lor_spec, !N.land_spec. change 1023 with (N.ones 10).
  destruct (N.lt_ge_cases i 10) as [Hi|Hi].
  - rewrite N.shiftl_spec_low by exact Hi.
    rewrite N.ones_spec_low by exact Hi.
    rewrite andb_true_r. reflexivity.
  - rewrite N.shiftl_spec_high' by exact Hi.
    rewrite N.land_spec, N.shiftr_spec'.
    rewrite (N.ones_spec_high 10 i) by exact Hi.
    rewrite andb_false_r, orb_false_r.
    replace (i - 10 + 10) with i by lia.
    destruct (N.lt_ge_cases (i - 10) 10) as [Hj|Hj].
    + rewrite N.ones_spec_low by exact Hj. apply andb_true_r.
    + rewrite N.ones_spec_high by exact Hj. rewrite andb_false_r.
      symmetry. apply high_bits_clear; [exact Hn|lia].
Qed.

(** The escape of a character beyond the basic plane, read back. *)
Lemma surrogate_pair c :
  65536 <= c -> c < 1114112 ->
  let n := c - 65536 in
  let s1 := N.lor 55296 (N.land (N.shiftr n 10) 1023) in
  let s2 := N.lor 56320 (N.land n 1023) in
  s1 < 65536 /\ s2 < 65536 /\ high_surrogate s1 = true /\ low_surrogate s2 = true /\
  65536 + N.lor (N.shiftl (s1 - 55296) 10) (s2 - 56320) = c.
Proof.
  intros Hlo Hhi n s1 s2.
  pose proof (land_1023_bound (N.shiftr n 10)) as B1.
  pose proof (land_1023_bound n) as B2.
  destruct (surrogate_offset B1) as [E1 _]. destruct (surrogate_offset B2) as [_ E2].
  fold s1 in E1. fold s2 in E2.
  assert (Hn : n < 1048576) by (unfold n; lia).
  pose proof (halves_recombine Hn) as R.
  replace (s1 - 55296) with (N.land (N.shiftr n 10) 1023) by lia.
  replace (s2 - 56320) with (N.land n 1023) by lia.
  rewrite R. unfold high_surrogate, low_surrogate.
  repeat split; try lia.
  - apply andb_true_intro. split; apply N.leb_le; lia.
  - apply andb_true_intro. split; apply N.leb_le; lia.
Qed.

Lemma scan_escaped c f tail :
  scalar_value c = true ->
  scan_chars (S f) (escape_char c ++ tail) =
  match scan_chars f tail with
  | Some (t, r) => Some (c :: t, r)
  | None => None
  end.
Proof.
  intros Hc. unfold escape_char.
  destruct (N.eqb_spec c chr_quote) as [->|H34]; [reflexivity|].
  destruct (N.eqb_spec c chr_backslash) as [->|H92]; [reflexivity|].
  destruct (N.eqb_spec c 8) as [->|H8]; [reflexivity|].
  destruct (N.eqb_spec c 12) as [->|H12]; [reflexivity|].
  destruct (N.eqb_spec c 10) as [->|H10]; [reflexivity|].
  destruct (N.eqb_spec c 13) as [->|H13]; [reflexivity|].
  destruct (N.eqb_spec c 9) as [->|H9]; [reflexivity|].
  apply N.eqb_neq in H34, H92.
  destruct (N.leb 32 c && N.leb c 126) eqn:Hprint.
  - apply andb_prop in Hprint. destruct Hprint as [Hlo _]. apply N.leb_le in Hlo.
    cbn [app scan_chars]. rewrite H34, H92.
    assert (Hlt : N.ltb c 32 = false) by (apply N.ltb_ge; exact Hlo).
    rewrite Hlt. reflexivity.
  - unfold scalar_value in Hc.
    destruct (N.ltb_spec c 65536) as [Hbmp|Hsup].
    + assert (Hs : high_surrogate c = false).
      { unfold high_surrogate. apply orb_prop in Hc. destruct Hc as [Hc|Hc].
        - apply N.ltb_lt in Hc. apply andb_false_intro1. apply N.leb_gt. exact Hc.
        - apply andb_prop in Hc. destruct Hc as [Hc _]. apply N.ltb_lt in Hc.
          apply andb_false_intro2. apply N.leb_gt. lia. }
      cbn [app scan_chars N.eqb Pos.eqb chr_quote chr_backslash].
      rewrite (read_hex4_hex4 tail Hbmp), Hs. reflexivity.
    + assert (Hmax : c < 1114112).
      { apply orb_prop in Hc. destruct Hc as [Hc|Hc].
        - apply N.ltb_lt in Hc. lia.
        - apply andb_prop in Hc. destruct Hc as [_ Hc]. apply N.ltb_lt in Hc. exact Hc. }
      destruct (surrogate_pair Hsup Hmax) as (B1 & B2 & Hh & Hl & Hback).
      cbv zeta. cbv zeta in B1, B2, Hh, Hl, Hback.
      set (s1 := N.lor 55296 (N.land (N.shiftr (c - 65536) 10) 1023)) in *.
      set (s2 := N.lor 56320 (N.land (c - 65536) 1023)) in *.
      cbn [app scan_chars N.eqb Pos.eqb chr_quote chr_backslash].
      rewrite <- app_assoc. cbn [app].
      rewrite (read_hex4_hex4 (chr_backslash :: 117 :: hex4 s2 ++ tail) B1), Hh.
      cbn [N.eqb Pos.eqb chr_backslash andb].
      rewrite (read_hex4_hex4 tail B2), Hl, Hback. reflexivity.
Qed.

Lemma escape_nonempty c : (1 <= length (escape_char c))%nat.
Proof.
  unfold escape_char.
  repeat match goal with
         | |- context [if ?b then _ else _] => destruct b
         end; cbn [length app]; lia.
Qed.

Lemma encoded_length s : (length s <= length (flat_map escape_char s))%nat.
Proof.
  induction s as [|c s IH]; [reflexivity|].
  cbn [flat_map]. rewrite length_app. pose proof (escape_nonempty c). cbn [length]. lia.
Qed.

Lemma scan_chars_encoded s fuel rest :
  valid_text s = true -> (length s < fuel)%nat ->
  scan_chars fuel (flat_map escape_char s ++ chr_quote :: rest) = Some (s, rest).
Proof.
  revert fuel. induction s as [|c s IH]; intros fuel Hv Hf.
  - destruct fuel as [|f]; [lia|]. reflexivity.
  - destruct fuel as [|f]; [lia|]. cbn [valid_text forallb] in Hv.
    apply andb_prop in Hv. destruct Hv as [Hc Hs].
    cbn [flat_map]. rewrite <- app_assoc. rewrite (@scan_escaped c f _ Hc).
    rewrite (IH f); [reflexivity|exact Hs|cbn [length] in Hf; lia].
Qed.

(** A text, dumped and read back as a string literal. *)
Lemma scanstring_encoded s rest :
  valid_text s = true ->
  scan_string (flat_map escape_char s ++ chr_quote :: rest) = Ok (s, rest).
Proof.
  intros Hv. unfold scan_string, scanstring. rewrite scan_chars_encoded; [reflexivity|exact Hv|].
  rewrite length_app. pose proof (encoded_length s). cbn [length]. lia.
Qed.

(** *** Values *)

Section JsonInduction.

Variable P : json -> Prop.
Hypothesis P_null : P JNull.
Hypothesis P_bool : forall b, P (JBool b).
Hypothesis P_num : forall z, P (JNum z).
Hypothesis P_float : forall f, P (JFloat f).
Hypothesis P_str : forall s, P (JStr s).
Hypothesis P_arr : forall items, Forall P items -> P (JArr items).
Hypothesis P_obj : forall members, Forall (fun kv => P (snd kv)) members -> P (JObj members).

Fixpoint json_induction (v : json) : P v :=
  match v with
  | JNull => P_null
  | JBool b => P_bool b
  | JNum z => P_num z
  | JFloat f => P_float f
  | JStr s => P_str s
  | JArr items =>
      P_arr ((fix all (l : list json) : Forall P l :=
                match l with
                | [] => Forall_nil P
                | x :: l' => Forall_cons x (json_induction x) (all l')
                end) items)
  | JObj members =>
      P_obj ((fix all (l : list (str * json)) : Forall (fun kv => P (snd kv)) l :=
                match l with
                | [] => Forall_nil _
                | kv :: l' => Forall_cons kv (json_induction (snd kv)) (all l')
                end) members)
  end.

End JsonInduction.

(** The text the encoder writes of a value, when nothing stops it. *)
Fixpoint text_of (v : json) : str :=
  match v with
  | JNull => u "null"
  | JBool true => u "true"
  | JBool false => u "false"
  | JNum z => repr_Z z
  | JFloat f => float_text f
  | JStr s => encode_string s
  | JArr items => 91 :: join_sep (u ", ") (map text_of items) ++ [93]
  | JObj members =>
      123 :: join_sep (u ", ")
               (map (fun kv => encode_string (fst kv) ++ u ": " ++ text_of (snd kv)) members)
          ++ [125]
  end.

Definition member_text (kv : str * json) : str :=
  encode_string (fst kv) ++ u ": " ++ text_of (snd kv).

Definition depth_of_items (items : list json) : nat :=
  fold_right (fun x d => Nat.max (depth x) d) O items.

Definition depth_of_members (members : list (str * json)) : nat :=
  fold_right (fun kv d => Nat.max (depth (snd kv)) d) O members.

(** The encoder on a value whose integers are within the limit on the
    digits and whose containers are within the room. *)
Definition encodes (py : limits) (v : json) : Prop :=
  short_ints py v = true ->
  forall room, (depth v <= room)%nat -> encode py room v = Ok (text_of v).

Lemma encodes_all py v : encodes py v.
Proof.
  induction v using json_induction; unfold encodes; intros Hs room Hd;
    try reflexivity.
  - destruct b; reflexivity.
  - cbn [encode text_of short_ints] in *. unfold int_text. rewrite Hs. reflexivity.
  - cbn [depth] in Hd. destruct room as [|room]; [lia|].
    cbn [encode text_of short_ints] in *. fold (depth_of_items items) in Hd.
    match goal with
    | |- match ?each items with _ => _ end = _ =>
        assert (E : each items = Ok (map text_of items)); [|rewrite E; reflexivity]
    end.
    assert (Hroom : (depth_of_items items <= room)%nat) by lia. clear Hd.
    induction H as [|x l Hx Hl IH]; [reflexivity|].
    cbn [forallb] in Hs. apply andb_prop in Hs. destruct Hs as [Hsx Hsl].
    cbn [depth_of_items fold_right] in Hroom. fold (depth_of_items l) in Hroom.
    rewrite (Hx Hsx room) by lia. rewrite (IH Hsl) by lia. reflexivity.
  - cbn [depth] in Hd. destruct room as [|room]; [lia|].
    cbn [encode text_of short_ints] in *. fold (depth_of_members members) in Hd.
    match goal with
    | |- match ?each members with _ => _ end = _ =>
        assert (E : each members = Ok (map member_text members)); [|rewrite E; reflexivity]
    end.
    assert (Hroom : (depth_of_members members <= room)%nat) by lia. clear Hd.
    induction H as [|x l Hx Hl IH]; [reflexivity|].
    cbn [forallb] in Hs. apply andb_prop in Hs. destruct Hs as [Hsx Hsl].
    cbn [depth_of_members fold_right] in Hroom. fold (depth_of_members l) in Hroom.
    rewrite (Hx Hsx room) by lia. rewrite (IH Hsl) by lia. reflexivity.
Qed.

(** What the encoder has written is the text of the value, and the
    integers of the value were within the limit on the digits. *)
Definition encoded (py : limits) (v : json) : Prop :=
  forall room t, encode py room v = Ok t -> t = text_of v /\ short_ints py v = true.

Lemma encoded_all py v : encoded py v.
Proof.
  induction v using json_induction; unfold encoded; intros room t Ht.
  - injection Ht as <-. split; reflexivity.
  - destruct b; injection Ht as <-; split; reflexivity.
  - cbn [encode] in Ht. unfold int_text in Ht. cbn [short_ints text_of].
    destruct (within_digits py _); [|discriminate]. injection Ht as <-. split; reflexivity.
  - injection Ht as <-. split; reflexivity.
  - injection Ht as <-. split; reflexivity.
  - cbn [encode] in Ht. destruct room as [|room]; [discriminate|].
    cbn [text_of short_ints].
    match type of Ht with
    | match ?each items with _ => _ end = _ =>
        assert (E : forall ts, each items = Ok ts ->
                               ts = map text_of items /\ forallb (short_ints py) items = true)
    end.
    { clear Ht. induction H as [|x l Hx Hl IH]; intros ts Hts.
      - injection Hts as <-. split; reflexivity.
      - destruct (encode py room x) as [tx|] eqn:Ex; [|discriminate].
        destruct (Hx room tx Ex) as [-> Hsx].
        match type of Hts with
        | match ?rest with _ => _ end = _ => destruct rest as [tl|] eqn:El; [|discriminate]
        end.
        injection Hts as <-. destruct (IH tl eq_refl) as [-> Hsl].
        cbn [map forallb]. rewrite Hsx, Hsl. split; reflexivity. }
    match type of Ht with
    | match ?e with _ => _ end = _ => destruct e as [ts|]; [|discriminate]
    end.
    injection Ht as <-. destruct (E ts eq_refl) as [-> Hs]. split; [reflexivity|exact Hs].
  - cbn [encode] in Ht. destruct room as [|room]; [discriminate|].
    cbn [text_of short_ints].
    match type of Ht with
    | match ?each members with _ => _ end = _ =>
        assert (E : forall ts, each members = Ok ts ->
                               ts = map member_text members /\
                               forallb (fun kv => short_ints py (snd kv)) members = true)
    end.
    { clear Ht. induction H as [|x l Hx Hl IH]; intros ts Hts.
      - injection Hts as <-. split; reflexivity.
      - destruct (encode py room (snd x)) as [tx|] eqn:Ex; [|discriminate].
        destruct (Hx room tx Ex) as [-> Hsx].
        match type of Hts with
        | match ?rest with _ => _ end = _ => destruct rest as [tl|] eqn:El; [|discriminate]
        end.
        injection Hts as <-. destruct (IH tl eq_refl) as [-> Hsl].
        cbn [map forallb]. rewrite Hsx, Hsl. split; reflexivity. }
    match type of Ht with
    | match ?e with _ => _ end = _ => destruct e as [ts|]; [|discriminate]
    end.
    injection Ht as <-. destruct (E ts eq_refl) as [-> Hs]. split; [reflexivity|exact Hs].
Qed.

(** [json.dumps] of a value within the limits. *)
Lemma dumps_text py v :
  short_ints py v = true -> (depth v <= encoder_depth py)%nat ->
  dumps py v = Ok (text_of v).
Proof. intros Hs Hd. apply encodes_all; assumption. Qed.

(** The fuel a value asks of the scanner. *)
Fixpoint size (v : json) : nat :=
  match v with
  | JArr items => S (length items + list_sum (map size items))
  | JObj members => S (length members + list_sum (map (fun kv => size (snd kv)) members))
  | _ => 1
  end.

Definition sep : str := u ", ".

(** What may follow a value in a dumped text. *)
Definition delim (rest : str) : bool :=
  match rest with
  | [] => true
  | c :: _ => N.eqb c 44 || N.eqb c 93 || N.eqb c 125
  end.

(** What a dumped value may start with. *)
Definition starter (c : N) : bool :=
  negb (is_ws c) && negb (N.eqb c 93) && negb (N.eqb c 125).

Lemma delim_ends_number rest : delim rest = true -> ends_number rest = true.
Proof.
  destruct rest as [|c rest]; [reflexivity|]. cbn [delim]. intros H.
  apply orb_prop in H. destruct H as [H|H]; [apply orb_prop in H; destruct H as [H|H]|];
    apply N.eqb_eq in H; subst c; reflexivity.
Qed.

Lemma digit_starter c : is_digit c = true -> starter c = true.
Proof.
  intros H. apply is_digit_cases in H. unfold digits in H. cbn [In] in H.
  decompose [or] H; subst; try contradiction; reflexivity.
Qed.

Lemma repr_Z_head z rest :
  exists c t, repr_Z z ++ rest = c :: t /\ starter c = true.
Proof.
  rewrite repr_Z_sign.
  destruct (repr_N_cons (Z.abs_N z)) as (c & t & E & Hc & _). rewrite E.
  destruct (z <? 0)%Z; cbn [app]; do 2 eexists; (split; [reflexivity|]);
    [reflexivity|apply digit_starter; exact Hc].
Qed.

Lemma place_point_head c t decpt :
  is_digit c = true ->
  exists c' t', place_point (c :: t) decpt = c' :: t' /\ is_digit c' = true.
Proof.
  intros Hc. unfold place_point.
  destruct ((decpt <? -3)%Z || (16 <? decpt)%Z).
  - destruct t; do 2 eexists; (split; [reflexivity|exact Hc]).
  - destruct (Z.leb_spec decpt 0).
    + do 2 eexists. split; reflexivity.
    + destruct (Z.of_nat (length (c :: t)) <=? decpt)%Z.
      * do 2 eexists. split; [reflexivity|exact Hc].
      * destruct (Z.to_nat decpt) eqn:E; [lia|].
        do 2 eexists. split; [reflexivity|exact Hc].
Qed.

Lemma float_text_head f rest :
  exists c t, float_text f ++ rest = c :: t /\ starter c = true.
Proof.
  destruct f as [|neg|neg|neg m e]; try (destruct neg);
    try (do 2 eexists; split; reflexivity);
    cbn [float_text float_repr]; destruct (Float.repr_digits m e) as [D E];
    destruct (repr_N_cons (Z.to_N D)) as (c & t & Er & Hc & _); rewrite Er;
    destruct (@place_point_head c t (Z.of_nat (length (c :: t)) + E) Hc) as (c' & t' & Ep & Hc');
    rewrite Ep; cbn [app]; do 2 eexists; (split; [reflexivity|]);
    [reflexivity|apply digit_starter; exact Hc'].
Qed.

Lemma text_head v rest :
  exists c t, text_of v ++ rest = c :: t /\ starter c = true.
Proof.
  destruct v as [|[|]|z|f|s|items|members];
    try (do 2 eexists; split; [reflexivity|reflexivity]).
  - apply repr_Z_head.
  - apply float_text_head.
Qed.

Lemma skip_ws_starter c t : starter c = true -> skip_ws (c :: t) = c :: t.
Proof.
  unfold starter. intros H. apply andb_prop in H. destruct H as [H _].
  apply andb_prop in H. destruct H as [H _]. apply negb_true_iff in H.
  cbn [skip_ws]. rewrite H. reflexivity.
Qed.

Lemma skip_ws_text v rest : skip_ws (text_of v ++ rest) = text_of v ++ rest.
Proof.
  destruct (text_head v rest) as (c & t & -> & Hc). apply skip_ws_starter. exact Hc.
Qed.

Lemma scan_once_string py f room s rest :
  valid_text s = true ->
  scan_once py (S f) room (encode_string s ++ rest) = Ok (JStr s, rest).
Proof.
  intros Hs. unfold encode_string. cbn [app]. rewrite <- app_assoc. cbn [app].
  change (scan_once py (S f) room (chr_quote :: flat_map escape_char s ++ chr_quote :: rest))
    with (match scan_string (flat_map escape_char s ++ chr_quote :: rest) with
          | Ok (t, r) => Ok (JStr t, r)
          | Raise e => Raise e
          end).
  rewrite scanstring_encoded by exact Hs. reflexivity.
Qed.

(** The round trip of one value, as the scanner's fuel and room allow
    it. *)
Definition reads_back (py : limits) (v : json) : Prop :=
  representable v = true -> short_ints py v = true ->
  forall fuel room rest,
    (size v < fuel)%nat -> (depth v <= room)%nat -> delim rest = true ->
    scan_once py fuel room (text_of v ++ rest) = Ok (v, rest).

Lemma join_head (texts : list json) tail :
  texts <> [] ->
  exists c t, join_sep sep (map text_of texts) ++ tail = c :: t /\ starter c = true.
Proof.
  destruct texts as [|v [|v2 l]]; intros H; [contradiction| |].
  - cbn [map join_sep]. apply text_head.
  - cbn [map join_sep]. rewrite <- app_assoc. apply text_head.
Qed.

Lemma scan_items_dumped py items :
  Forall (reads_back py) items ->
  forallb representable items = true ->
  forallb (short_ints py) items = true ->
  items <> [] ->
  forall f room rest,
    (length items + list_sum (map size items) < f)%nat ->
    (depth_of_items items <= room)%nat ->
    scan_items py f room (join_sep sep (map text_of items) ++ 93 :: rest) = Ok (items, rest).
Proof.
  induction 1 as [|v items Hv Hitems IH]; intros Hrep Hsh Hne f room rest Hf Hroom;
    [contradiction|].
  cbn [forallb] in Hrep, Hsh.
  apply andb_prop in Hrep. destruct Hrep as [Hrv Hrl].
  apply andb_prop in Hsh. destruct Hsh as [Hsv Hsl].
  cbn [depth_of_items fold_right] in Hroom. fold (depth_of_items items) in Hroom.
  destruct f as [|f]; [lia|]. unfold list_sum in *; cbn [length map fold_right] in Hf.
  destruct items as [|v2 l].
  - cbn [map join_sep scan_items].
    rewrite (Hv Hrv Hsv f room (93 :: rest)); [reflexivity|lia|lia|reflexivity].
  - change (join_sep sep (map text_of (v :: v2 :: l)))
      with (text_of v ++ sep ++ join_sep sep (map text_of (v2 :: l))).
    rewrite <- !app_assoc. cbn [scan_items].
    rewrite (Hv Hrv Hsv f room); [|lia|lia|reflexivity].
    destruct (@join_head (v2 :: l) (93 :: rest)) as (c & t & E & Hc); [discriminate|].
    change (sep ++ join_sep sep (map text_of (v2 :: l)) ++ 93 :: rest)
      with (44 :: 32 :: (join_sep sep (map text_of (v2 :: l)) ++ 93 :: rest)).
    cbn [skip_ws is_ws N.eqb Pos.eqb orb]. rewrite E, (@skip_ws_starter c t Hc), <- E.
    rewrite (IH Hrl Hsl); [reflexivity|discriminate| |lia].
    cbn [length map fold_right] in *. lia.
Qed.

Lemma members_head members tail :
  members <> [] ->
  exists t, join_sep sep (map member_text members) ++ tail = chr_quote :: t.
Proof.
  destruct members as [|kv [|kv2 l]]; intros H; [contradiction| |];
    cbn [map join_sep]; unfold member_text at 1, encode_string; cbn [app];
    eexists; reflexivity.
Qed.

Lemma scan_members_dumped py members :
  Forall (fun kv => reads_back py (snd kv)) members ->
  forallb (fun kv => valid_text (fst kv) && representable (snd kv)) members = true ->
  forallb (fun kv => short_ints py (snd kv)) members = true ->
  members <> [] ->
  forall f room rest,
    (length members + list_sum (map (fun kv => size (snd kv)) members) < f)%nat ->
    (depth_of_members members <= room)%nat ->
    scan_members py f room (join_sep sep (map member_text members) ++ 125 :: rest)
    = Ok (members, rest).
Proof.
  induction 1 as [|[k v] members Hv Hmembers IH]; intros Hrep Hsh Hne f room rest Hf Hroom;
    [contradiction|].
  cbn [forallb fst snd] in Hrep, Hsh.
  apply andb_prop in Hrep. destruct Hrep as [Hkv Hrl].
  apply andb_prop in Hkv. destruct Hkv as [Hk Hrv]. cbn [snd] in Hv.
  apply andb_prop in Hsh. destruct Hsh as [Hsv Hsl].
  cbn [depth_of_members fold_right snd] in Hroom. fold (depth_of_members members) in Hroom.
  destruct f as [|f]; [lia|]. unfold list_sum in *; cbn [length map fold_right snd] in Hf.
  assert (Hone : forall tail,
             delim tail = true ->
             scan_members py (S f) room (member_text (k, v) ++ tail) =
             match skip_ws tail with
             | [] => Raise ValueError
             | c2 :: r3 =>
                 if N.eqb c2 125 then Ok ([(k, v)], r3)
                 else if N.eqb c2 44 then
                   match scan_members py f room (skip_ws r3) with
                   | Ok (ms, r4) => Ok ((k, v) :: ms, r4)
                   | Raise e => Raise e
                   end
                 else Raise ValueError
             end).
  { intros tail Hd. unfold member_text, encode_string. cbn [fst snd app].
    rewrite <- !app_assoc. cbn [app scan_members N.eqb Pos.eqb chr_quote].
    rewrite scanstring_encoded by exact Hk.
    change (u ": " ++ text_of v ++ tail) with (58 :: 32 :: (text_of v ++ tail)).
    cbn [skip_ws is_ws N.eqb Pos.eqb orb]. rewrite skip_ws_text.
    rewrite (Hv Hrv Hsv f room tail); [reflexivity|lia|lia|exact Hd]. }
  destruct members as [|kv2 l].
  - cbn [map join_sep]. rewrite Hone by reflexivity. reflexivity.
  - change (join_sep sep (map member_text ((k, v) :: kv2 :: l)))
      with (member_text (k, v) ++ sep ++ join_sep sep (map member_text (kv2 :: l))).
    rewrite <- !app_assoc. rewrite Hone by reflexivity.
    change (sep ++ join_sep sep (map member_text (kv2 :: l)) ++ 125 :: rest)
      with (44 :: 32 :: (join_sep sep (map member_text (kv2 :: l)) ++ 125 :: rest)).
    cbn [skip_ws is_ws N.eqb Pos.eqb orb].
    assert (E : skip_ws (join_sep sep (map member_text (kv2 :: l)) ++ 125 :: rest)
                = join_sep sep (map member_text (kv2 :: l)) ++ 125 :: rest).
    { destruct (@members_head (kv2 :: l) (125 :: rest)) as (t & ->); [discriminate|].
      reflexivity. }
    rewrite E. rewrite (IH Hrl Hsl); [reflexivity|discriminate| |lia].
    cbn [length map fold_right] in *. lia.
Qed.

(** [dict(pairs)] of pairs with distinct keys is the pairs. *)
Lemma str_eqb_eq a b : str_eqb a b = true <-> a = b.
Proof.
  unfold str_eqb. destruct (list_eq_dec N.eq_dec a b); split; congruence.
Qed.

Lemma distinct_NoDup keys : distinct keys = true -> NoDup keys.
Proof.
  induction keys as [|k keys IH]; intros H; [constructor|].
  cbn [distinct] in H. apply andb_prop in H. destruct H as [Hk Hrest].
  constructor; [|apply IH; exact Hrest].
  intros Hin. apply negb_true_iff in Hk.
  assert (existsb (str_eqb k) keys = true); [|congruence].
  apply existsb_exists. exists k. split; [exact Hin|]. apply str_eqb_eq. reflexivity.
Qed.

Lemma dict_set_fresh k v (d : dict) :
  ~ In k (map fst d) -> dict_set k v d = d ++ [(k, v)].
Proof.
  induction d as [|[k' v'] d IH]; intros Hk; [reflexivity|].
  cbn [dict_set app]. destruct (str_eqb k k') eqn:E.
  - apply str_eqb_eq in E. subst k'. exfalso. apply Hk. left. reflexivity.
  - f_equal. apply IH. intros Hin. apply Hk. right. exact Hin.
Qed.

Lemma dict_of_pairs_distinct pairs :
  distinct (map fst pairs) = true -> dict_of_pairs pairs = pairs.
Proof.
  intros H. apply distinct_NoDup in H. unfold dict_of_pairs.
  assert (G : forall acc : dict,
             NoDup (map fst (acc ++ pairs)) ->
             fold_left (fun d kv => dict_set (fst kv) (snd kv) d) pairs acc = acc ++ pairs).
  { clear H. induction pairs as [|[k v] pairs IH]; intros acc Hnd.
    - cbn [fold_left]. rewrite app_nil_r. reflexivity.
    - cbn [fold_left fst snd]. rewrite dict_set_fresh.
      + rewrite IH; rewrite <- app_assoc; [reflexivity|exact Hnd].
      + rewrite map_app in Hnd. cbn [map fst] in Hnd. apply NoDup_remove_2 in Hnd.
        intros Hin. apply Hnd. apply in_or_app. left. exact Hin. }
  apply (G []). exact H.
Qed.

Lemma reads_back_all py v : reads_back py v.
Proof.
  induction v using json_induction; unfold reads_back;
    intros Hrep Hsh fuel room rest Hf Hroom Hd;
    (destruct fuel as [|fu]; [cbn in Hf; lia|]).
  - reflexivity.
  - destruct b; reflexivity.
  - cbn [text_of short_ints] in *. rewrite scan_once_int by (apply delim_ends_number; exact Hd).
    rewrite Hsh. reflexivity.
  - apply scan_once_float; [exact Hrep|apply delim_ends_number; exact Hd].
  - apply scan_once_string. exact Hrep.
  - cbn [depth] in Hroom. destruct room as [|room]; [lia|].
    fold (depth_of_items items) in Hroom.
    cbn [text_of app]. rewrite <- app_assoc. cbn [app].
    destruct items as [|v items]; [reflexivity|].
    destruct (@join_head (v :: items) (93 :: rest)) as (c & t & E & Hc); [discriminate|].
    assert (Hgo : scan_once py (S fu) (S room)
                    (91 :: join_sep sep (map text_of (v :: items)) ++ 93 :: rest)
                  = match scan_items py fu room
                            (join_sep sep (map text_of (v :: items)) ++ 93 :: rest) with
                    | Ok (vs, r) => Ok (JArr vs, r)
                    | Raise e => Raise e
                    end).
    { rewrite E. cbn [scan_once N.eqb Pos.eqb chr_quote]. rewrite (@skip_ws_starter c t Hc).
      unfold starter in Hc. apply andb_prop in Hc. destruct Hc as [Hc _].
      apply andb_prop in Hc. destruct Hc as [_ Hc]. apply negb_true_iff in Hc.
      rewrite Hc. reflexivity. }
    refine (eq_trans Hgo _). cbn [representable short_ints] in Hrep, Hsh.
    rewrite (@scan_items_dumped py (v :: items) H Hrep Hsh); [reflexivity|discriminate| |lia].
    cbn [size] in Hf. lia.
  - cbn [depth] in Hroom. destruct room as [|room]; [lia|].
    fold (depth_of_members members) in Hroom.
    cbn [text_of app]. rewrite <- app_assoc. cbn [app].
    destruct members as [|kv members]; [reflexivity|].
    cbn [representable short_ints] in Hrep, Hsh.
    apply andb_prop in Hrep. destruct Hrep as [Hrep Hkeys].
    fold sep.
    change (fun kv0 : str * json => encode_string (fst kv0) ++ u ": " ++ text_of (snd kv0))
      with member_text.
    assert (Hgo : scan_once py (S fu) (S room)
                    (123 :: join_sep sep (map member_text (kv :: members)) ++ 125 :: rest)
                  = match scan_members py fu room
                            (join_sep sep (map member_text (kv :: members)) ++ 125 :: rest) with
                    | Ok (ms, r) => Ok (JObj (dict_of_pairs ms), r)
                    | Raise e => Raise e
                    end).
    { destruct (@members_head (kv :: members) (125 :: rest)) as (t & ->); [discriminate|].
      reflexivity. }
    refine (eq_trans Hgo _).
    rewrite (@scan_members_dumped py (kv :: members) H Hrep Hsh);
      [|discriminate|cbn [size] in Hf; lia|lia].
    rewrite dict_of_pairs_distinct by exact Hkeys. reflexivity.
Qed.

(** The length of a dumped text is fuel enough. *)
Lemma join_sep_cons x y (l : list str) :
  join_sep sep (x :: y :: l) = x ++ sep ++ join_sep sep (y :: l).
Proof. reflexivity. Qed.

Lemma join_length (texts : list str) :
  (length texts + list_sum (map (@length N) texts) <= S (length (join_sep sep texts)))%nat.
Proof.
  induction texts as [|x [|y l] IH].
  - cbn. lia.
  - cbn. lia.
  - rewrite join_sep_cons, !length_app. change (length sep) with 2%nat.
    unfold list_sum in *. cbn [length map fold_right] in *. lia.
Qed.

Lemma size_le_length v : (size v <= length (text_of v))%nat.
Proof.
  induction v using json_induction.
  - cbn. lia.
  - destruct b; cbn; lia.
  - cbn [size]. destruct (repr_Z_head z []) as (c & t & E & _).
    rewrite app_nil_r in E. cbn [text_of]. rewrite E. cbn [length]. lia.
  - cbn [size]. destruct (float_text_head f []) as (c & t & E & _).
    rewrite app_nil_r in E. cbn [text_of]. rewrite E. cbn [length]. lia.
  - cbn [size text_of]. unfold encode_string. cbn [length]. lia.
  - cbn [size text_of length]. rewrite length_app. cbn [length]. fold sep.
    pose proof (join_length (map text_of items)) as J.
    rewrite length_map, map_map in J.
    match type of J with
    | (_ + ?total <= _)%nat =>
        match goal with
        | |- (S (_ + ?sizes) <= _)%nat => assert (HS : (sizes <= total)%nat)
        end
    end.
    { clear J. induction H as [|x l Hx Hl IH']; unfold list_sum in *;
        cbn [map fold_right]; lia. }
    unfold str in *. lia.
  - cbn [size text_of length]. rewrite length_app. cbn [length]. fold sep.
    change (fun kv : str * json => encode_string (fst kv) ++ u ": " ++ text_of (snd kv))
      with member_text.
    pose proof (join_length (map member_text members)) as J.
    rewrite length_map, map_map in J.
    match type of J with
    | (_ + ?total <= _)%nat =>
        match goal with
        | |- (S (_ + ?sizes) <= _)%nat => assert (HS : (sizes <= total)%nat)
        end
    end.
    { clear J. induction H as [|x l Hx Hl IH']; unfold list_sum in *;
        cbn [map fold_right]; [lia|].
      unfold member_text at 1. rewrite !length_app. lia. }
    unfold str in *. lia.
Qed.

(** Every representable value within the limits is read back from its
    text. *)
Lemma loads_text py v :
  representable v = true -> short_ints py v = true ->
  (depth v <= decoder_depth py)%nat ->
  loads py (text_of v) = Ok v.
Proof.
  intros Hrep Hsh Hd. unfold loads.
  rewrite <- (app_nil_r (text_of v)) at 2. rewrite skip_ws_text.
  rewrite (@reads_back_all py v Hrep Hsh (S (length (text_of v))) (decoder_depth py) []).
  - reflexivity.
  - pose proof (size_le_length v). lia.
  - exact Hd.
  - reflexivity.
Qed.

(** A text that [json.dumps] has written of a representable value is
    read back as that value, when the scanner has the room. *)
Lemma loads_dumps py v t :
  dumps py v = Ok t -> representable v = true ->
  (depth v <= decoder_depth py)%nat ->
  loads py t = Ok v.
Proof.
  intros Ht Hrep Hd. destruct (@encoded_all py v _ _ Ht) as [-> Hs].
  apply loads_text; assumption.
Qed.

End JsonFacts.

Module HttpFacts.
Import Json Http.

(** The function of [requests] that [call] reaches for a method. *)
Definition chosen (method : str) : transport_function :=
  if str_eqb method (u "GET") then requests_get
  else if str_eqb method (u "PUT") then requests_put
  else if str_eqb method (u "POST") then requests_post
  else requests_request (upper method).

Definition dispatched (method target : str) (body : json) (headers : option header_map)
  : request :=
  {| via := chosen method; target := target; payload := body; sent_headers := headers |}.

(** What the parsed body alone makes of a response. *)
Definition body_outcome (r : response) : result json :=
  match json_value r with
  | Ok v => fst (interpret v initial)
  | Raise ValueError => Raise (Api new_BadJSONError)
  | Raise e => Raise e
  end.

Ltac case_scrutinee :=
  match goal with
  | |- context [match ?x with _ => _ end] =>
      lazymatch x with
      | context [match _ with _ => _ end] => fail
      | _ => destruct x eqn:?
      end
  end.

Lemma interpret_state v st : interpret v st = (fst (interpret v initial), st).
Proof.
  unfold interpret, bind, lift, ret, raise.
  repeat (case_scrutinee; cbn [fst]); reflexivity.
Qed.

Lemma lookup_chosen method :
  match lookup method request_methods with
  | Some f => f
  | None => requests_request (upper method)
  end = chosen method.
Proof.
  unfold chosen, request_methods, lookup.
  destruct (str_eqb method (u "GET")); [reflexivity|].
  destruct (str_eqb method (u "PUT")); [reflexivity|].
  destruct (str_eqb method (u "POST")); reflexivity.
Qed.

Lemma send_lookup env method target body headers :
  match lookup method request_methods with
  | Some f => send env f target body headers
  | None => send env (requests_request (upper method)) target body headers
  end = send env (chosen method) target body headers.
Proof.
  rewrite <- lookup_chosen. destruct (lookup method request_methods); reflexivity.
Qed.

(** The error of the status policy, if any: without a set of statuses
    the message is the one of [raise_for_status]. *)
Definition requests_message (r : response) : str :=
  repr_Z (status_code r)
    ++ (if (status_code r <? 500)%Z then u " Client Error: " else u " Server Error: ")
    ++ reason r ++ u " for url: " ++ url r.

Definition status_error (statuses : option (list Z)) (r : response) : option api_error :=
  let c := status_code r in
  if no_statuses statuses then
    if (401 <=? c)%Z && (c <? 600)%Z
    then Some (new_HTTPError (JNum c) (JStr (requests_message r)))
    else None
  else if mem c (some_statuses statuses) then None
  else Some (new_HTTPError (JNum c) (JStr (u "Unexpected Status Code " ++ repr_Z c))).

Definition logged (log : bool) (events : list event) : list event :=
  if log then events else [].

Lemma sink_app st events n r :
  sink {| trace := trace st ++ events; ticks := n; response_var := r |} =
  sink st ++ filter (fun ev => match ev with Sent _ => false | _ => true end) events.
Proof. unfold sink. cbn [trace]. apply filter_app. Qed.

Lemma wire_app st events n r :
  wire {| trace := trace st ++ events; ticks := n; response_var := r |} =
  wire st ++ flat_map (fun ev => match ev with Sent rq => [rq] | _ => [] end) events.
Proof. unfold wire. cbn [trace]. apply flat_map_app. Qed.

(** The events of a call that gets a response: the request is printed,
    then sent, then the response is printed. *)
Definition answered_events (env : environment) (log : bool) (st : state)
    (method target : str) (body : json) (headers : option header_map) (r : response)
  : list event :=
  logged log
    [Printed (RequestText (wall_clock env (ticks st)) (upper method) target body); Flushed]
  ++ [Sent (dispatched method target body headers)]
  ++ logged log
       [Printed (ResponseText (wall_clock env (ticks st)) (status_code r)
                   (wall_clock env (S (ticks st)) - wall_clock env (ticks st))
                   match text r with
                   | Some t => t
                   | None => u "(unable to decode body)"
                   end);
        Flushed].

(** [call] on a transport that answers with a response. *)
Lemma call_with_response env method uri data statuses log headers st target body r :
  resolve_uri uri = Ok target ->
  normalize (python env) data = Ok body ->
  indents env body = true ->
  transport env (dispatched method target body headers) = Ok r ->
  call env method uri data statuses log headers st =
  (match status_error statuses r with
   | Some e => Raise (Api e)
   | None => body_outcome r
   end,
   {| trace := trace st ++ answered_events env log st method target body headers r;
      ticks := S (S (ticks st));
      response_var := Some r |}).
Proof.
  intros Huri Hdata Hind Hsend.
  unfold call. rewrite Huri, Hdata.
  cbv beta iota delta [bind lift]. rewrite Hind, send_lookup.
  destruct log;
  unfold send, print_flush, record, bind, lift, ret, raise, try_finally, try_except, now,
    set_response, get_response, logged, answered_events;
  cbn [trace ticks response_var];
  fold (dispatched method target body headers); rewrite Hsend;
  unfold status_error, raise_for_status, requests_message, body_outcome;
  (destruct (no_statuses statuses);
   [ destruct (Z.eqb_spec (status_code r) 400) as [E4|E4];
     destruct (Z.leb_spec 400 (status_code r)); destruct (Z.ltb_spec (status_code r) 500);
     destruct (Z.leb_spec 500 (status_code r)); destruct (Z.ltb_spec (status_code r) 600);
     destruct (Z.leb_spec 401 (status_code r)); try lia
   | destruct (mem (status_code r) (some_statuses statuses)) ]);
  cbn [negb andb trace ticks response_var logged];
  rewrite ?app_nil_r, <- ?app_assoc; cbn [app];
  try reflexivity;
  (destruct (json_value r) as [v|[]]; [rewrite interpret_state|..]; reflexivity).
Qed.

(** What [call] raises when the transport raises [e]. *)
Definition reraised (e : exn) : exn :=
  match e with
  | RequestsHTTPError (Some r) message =>
      Api (new_HTTPError (JNum (status_code r)) (JStr message))
  | RequestsHTTPError None _ => AttributeError
  | RequestException _ _ => Api (new_BadResponseError JNull JNull JNull)
  | _ => e
  end.

Definition exception_text (e : exn) : list event :=
  match e with
  | RequestException arg0 message =>
      [Printed (PlainText match arg0 with Some a => a | None => message end); Flushed]
  | _ => []
  end.

(** The events of a call whose request fails: the request is printed,
    then sent, then the text of a [RequestException] is printed. *)
Definition failed_events (env : environment) (log : bool) (st : state)
    (method target : str) (body : json) (headers : option header_map) (e : exn)
  : list event :=
  logged log
    [Printed (RequestText (wall_clock env (ticks st)) (upper method) target body); Flushed]
  ++ [Sent (dispatched method target body headers)]
  ++ logged log (exception_text e).

(** [call] on a transport that raises. *)
Lemma call_transport_raises env method uri data statuses log headers st target body e :
  resolve_uri uri = Ok target ->
  normalize (python env) data = Ok body ->
  indents env body = true ->
  transport env (dispatched method target body headers) = Raise e ->
  call env method uri data statuses log headers st =
  (Raise (reraised e),
   {| trace := trace st ++ failed_events env log st method target body headers e;
      ticks := S (ticks st);
      response_var := None |}).
Proof.
  intros Huri Hdata Hind Hsend.
  unfold call. rewrite Huri, Hdata.
  cbv beta iota delta [bind lift]. rewrite Hind, send_lookup.
  destruct log;
  unfold send, print_flush, record, bind, lift, ret, raise, try_finally, try_except, now,
    set_response, get_response, logged, failed_events;
  cbn [trace ticks response_var];
  fold (dispatched method target body headers); rewrite Hsend;
  (destruct e as [a|[resp|] msg|arg0 msg|b|name]);
  cbn [reraised exception_text trace ticks response_var app];
  rewrite ?app_nil_r, <- ?app_assoc; reflexivity.
Qed.

(** [call] stops before any request when an argument is refused. *)
Lemma call_refuses_data env method uri data statuses log headers st target e :
  resolve_uri uri = Ok target ->
  normalize (python env) data = Raise e ->
  call env method uri data statuses log headers st = (Raise e, st).
Proof.
  intros Huri Hdata. unfold call. rewrite Huri, Hdata. reflexivity.
Qed.

(** [call] stops after it has read the clock when the body cannot be
    written for the log. *)
Lemma call_cannot_indent env method uri data statuses log headers st target body :
  resolve_uri uri = Ok target ->
  normalize (python env) data = Ok body ->
  indents env body = false ->
  call env method uri data statuses log headers st =
  (Raise (Builtin RecursionError),
   {| trace := trace st; ticks := S (ticks st); response_var := response_var st |}).
Proof.
  intros Huri Hdata Hind. unfold call. rewrite Huri, Hdata.
  cbv beta iota delta [bind lift]. rewrite Hind. reflexivity.
Qed.

Lemma sink_answered env log st method target body headers r n v :
  sink {| trace := trace st ++ answered_events env log st method target body headers r;
          ticks := n; response_var := v |} =
  sink st ++
  logged log
    [Printed (RequestText (wall_clock env (ticks st)) (upper method) target body);
     Flushed;
     Printed (ResponseText (wall_clock env (ticks st)) (status_code r)
                (wall_clock env (S (ticks st)) - wall_clock env (ticks st))
                match text r with
                | Some t => t
                | None => u "(unable to decode body)"
                end);
     Flushed].
Proof. rewrite sink_app. unfold answered_events. destruct log; reflexivity. Qed.

Lemma wire_answered env log st method target body headers r n v :
  wire {| trace := trace st ++ answered_events env log st method target body headers r;
          ticks := n; response_var := v |} =
  wire st ++ [dispatched method target body headers].
Proof. rewrite wire_app. unfold answered_events. destruct log; reflexivity. Qed.

Lemma sink_failed env log st method target body headers e n v :
  sink {| trace := trace st ++ failed_events env log st method target body headers e;
          ticks := n; response_var := v |} =
  sink st ++
  logged log
    ([Printed (RequestText (wall_clock env (ticks st)) (upper method) target body); Flushed]
     ++ exception_text e).
Proof.
  rewrite sink_app. unfold failed_events.
  destruct log; [|reflexivity]. cbn [logged app filter].
  destruct e as [a|resp msg|arg0 msg|b|name]; reflexivity.
Qed.

Lemma wire_failed env log st method target body headers e n v :
  wire {| trace := trace st ++ failed_events env log st method target body headers e;
          ticks := n; response_var := v |} =
  wire st ++ [dispatched method target body headers].
Proof.
  rewrite wire_app. unfold failed_events.
  destruct log; [|reflexivity]. cbn [logged app flat_map].
  destruct e as [a|resp msg|arg0 msg|b|name]; reflexivity.
Qed.

Definition or_null (o : option json) : json :=
  match o with Some x => x | None => JNull end.

(** C7, as the interpreter allows it. A body that is a mapping JSON can
    carry (texts of Unicode scalar values, integers, floats that are not
    NaN, distinct keys), whose integers have no more digits than the
    interpreter converts and whose containers nest no deeper than the
    recursion limit lets the encoder and the scanner go, is normalized,
    by dumping it and loading the text, to a mapping equal to it; an
    absent body is normalized to the empty object. *)
Theorem body_normalization_round_trip (py : limits) (m : dict) :
  representable (JObj m) = true ->
  short_ints py (JObj m) = true ->
  (depth (JObj m) <= encoder_depth py)%nat ->
  (depth (JObj m) <= decoder_depth py)%nat ->
  normalize py (DataDict m) = Ok (JObj m) /\ normalize py NoData = Ok (JObj []).
Proof.
  intros Hrep Hsh Henc Hdec. split.
  - unfold normalize. rewrite (@JsonFacts.dumps_text py (JObj m) Hsh Henc).
    assert (E : exists c t, JsonFacts.text_of (JObj m) = c :: t)
      by (do 2 eexists; reflexivity).
    destruct E as (c & t & E). rewrite E, <- E.
    rewrite (@JsonFacts.loads_text py (JObj m) Hrep Hsh Hdec). reflexivity.
  - unfold normalize, loads. cbn [depth] in Hdec.
    destruct (decoder_depth py) as [|room]; [lia|]. reflexivity.
Qed.

Definition sample_body : dict :=
  [(u "platform", JStr (u "pc"));
   (u "rats", JArr [JNum 3; JNum (-1); JNull; JBool true]);
   (u "jump", JFloat (Float.Finite false 6980579422424269 (-49)));
   (u "client", JObj [(u "name", JStr [233; 10; 128512]%N)])].

Lemma body_normalization_round_trip_witness :
  normalize cpython (DataDict sample_body) = Ok (JObj sample_body) /\
  normalize cpython NoData = Ok (JObj []).
Proof.
  apply (@body_normalization_round_trip cpython sample_body).
  - vm_compute. reflexivity.
  - vm_compute. reflexivity.
  - vm_compute. repeat constructor.
  - vm_compute. repeat constructor.
Defined.

(** A mapping of [n] mappings, one inside the other. *)
Fixpoint nested (n : nat) : dict :=
  match n with
  | O => []
  | S k => [(u "a", JObj (nested k))]
  end.

(** C7, as the claim states it, fails: an integer of 4301 digits is
    JSON, and [json.dumps] refuses to write it; a mapping of 992
    mappings one inside the other is JSON, and the encoder runs out of
    recursion. *)
Lemma long_integer_is_refused :
  representable (JObj [(u "n", JNum (10 ^ 4300))]) = true /\
  normalize cpython (DataDict [(u "n", JNum (10 ^ 4300))]) = Raise ValueError /\
  representable (JObj (nested 991)) = true /\
  normalize cpython (DataDict (nested 991)) = Raise RecursionError.
Proof.
  split; [vm_compute; reflexivity|].
  split; [vm_compute; reflexivity|].
  split; vm_compute; reflexivity.
Qed.

(** C1, as the code has it. Without a set of acceptable statuses, and
    when the status is one the default policy lets through (at most 400,
    or 600 and above), a parsed body whose [errors] is an array that
    starts with an object makes [call] raise an [APIError] with that
    entry's [name] as code, its [message] as details and the parsed body
    attached. *)
Theorem errors_entry_raised_when_status_passes
    env method uri data statuses log headers st target body r d e rest :
  resolve_uri uri = Ok target ->
  normalize (python env) data = Ok body ->
  indents env body = true ->
  transport env (dispatched method target body headers) = Ok r ->
  no_statuses statuses = true ->
  (status_code r <= 400 \/ 600 <= status_code r)%Z ->
  json_value r = Ok (JObj d) ->
  dict_get (u "errors") d = Some (JArr (JObj e :: rest)) ->
  fst (call env method uri data statuses log headers st) =
  Raise (Api (new_APIError (or_null (dict_get (u "name") e))
                (or_null (dict_get (u "message") e)) (JObj d))).
Proof.
  intros Huri Hdata Hind Hsend Hno Hstatus Hjson Herrors.
  erewrite call_with_response; [|eassumption..]. cbn [fst].
  unfold status_error. rewrite Hno.
  destruct (Z.leb_spec 401 (status_code r)); destruct (Z.ltb_spec (status_code r) 600);
    try lia; cbn [andb];
    unfold body_outcome; rewrite Hjson;
    unfold interpret, bind, lift, ret, raise, py_in, getitem, getitem0, get;
    rewrite Herrors; reflexivity.
Qed.

Definition errors_body : str := json_text "{'errors':[{'name':'E1','message':'missing'}]}".

Lemma errors_entry_raised_when_status_passes_witness :
  fst (call (mock_environment (Ok (mock_response 400 errors_body)))
         (u "GET") (UriStr (u "http://x/y")) NoData None false None initial) =
  Raise (Api (new_APIError (JStr (u "E1")) (JStr (u "missing"))
                (JObj [(u "errors",
                        JArr [JObj [(u "name", JStr (u "E1"));
                                    (u "message", JStr (u "missing"))]])]))).
Proof.
  apply (@errors_entry_raised_when_status_passes
           (mock_environment (Ok (mock_response 400 errors_body)))
           (u "GET") (UriStr (u "http://x/y")) NoData None false None initial
           (u "http://x/y") (JObj []) (mock_response 400 errors_body)
           [(u "errors", JArr [JObj [(u "name", JStr (u "E1"));
                                     (u "message", JStr (u "missing"))]])]
           [(u "name", JStr (u "E1")); (u "message", JStr (u "missing"))] []).
  - reflexivity.
  - vm_compute. reflexivity.
  - reflexivity.
  - reflexivity.
  - reflexivity.
  - left. vm_compute. discriminate.
  - vm_compute. reflexivity.
  - vm_compute. reflexivity.
Defined.

(** C1, as the claim states it, fails: the status is checked before the
    body is read, so the 404 response of the specification's own example
    raises an [HTTPError] with code 404, not the [APIError] of its body. *)
Lemma errors_body_with_status_404_raises_HTTPError :
  fst (call (mock_environment (Ok (mock_response 404 errors_body)))
         (u "GET") (UriStr (u "http://x/y")) NoData None false None initial) =
  Raise (Api (new_HTTPError (JNum 404)
                (JStr (u "404 Client Error: mock for url: http://x/y")))) /\
  forall j,
    fst (call (mock_environment (Ok (mock_response 404 errors_body)))
           (u "GET") (UriStr (u "http://x/y")) NoData None false None initial) <>
    Raise (Api (new_APIError (JStr (u "E1")) (JStr (u "missing")) j)).
Proof.
  assert (E : fst (call (mock_environment (Ok (mock_response 404 errors_body)))
                     (u "GET") (UriStr (u "http://x/y")) NoData None false None initial) =
              Raise (Api (new_HTTPError (JNum 404)
                            (JStr (u "404 Client Error: mock for url: http://x/y")))))
    by (vm_compute; reflexivity).
  split; [exact E|]. intros j. rewrite E. discriminate.
Qed.

(** C5, as the code has it. Without a set of acceptable statuses, the
    codes from 401 to 599 raise the [HTTPError] derived from the status,
    with the message of [raise_for_status]; every other code, so every
    code up to and with 400, is no error and the outcome is the one of
    the body. *)
Theorem default_policy_rejects_401_to_599
    env method uri data statuses log headers st target body r :
  resolve_uri uri = Ok target ->
  normalize (python env) data = Ok body ->
  indents env body = true ->
  transport env (dispatched method target body headers) = Ok r ->
  no_statuses statuses = true ->
  fst (call env method uri data statuses log headers st) =
  if (401 <=? status_code r)%Z && (status_code r <? 600)%Z
  then Raise (Api (new_HTTPError (JNum (status_code r)) (JStr (requests_message r))))
  else body_outcome r.
Proof.
  intros Huri Hdata Hind Hsend Hno.
  erewrite call_with_response; [|eassumption..]. cbn [fst].
  unfold status_error. rewrite Hno.
  destruct ((401 <=? status_code r)%Z && (status_code r <? 600)%Z); reflexivity.
Qed.

Definition data_body : str := json_text "{'data': {}}".

Lemma default_policy_rejects_401_to_599_witness :
  fst (call (mock_environment (Ok (mock_response 401 data_body)))
         (u "GET") (UriStr (u "http://x/y")) NoData None false None initial) =
  Raise (Api (new_HTTPError (JNum 401)
                (JStr (u "401 Client Error: mock for url: http://x/y")))) /\
  fst (call (mock_environment (Ok (mock_response 400 data_body)))
         (u "GET") (UriStr (u "http://x/y")) NoData None false None initial) =
  Ok (JObj [(u "data", JObj [])]).
Proof.
  split.
  - rewrite (@default_policy_rejects_401_to_599
               (mock_environment (Ok (mock_response 401 data_body)))
               (u "GET") (UriStr (u "http://x/y")) NoData None false None initial
               (u "http://x/y") (JObj []) (mock_response 401 data_body)).
    + vm_compute. reflexivity.
    + reflexivity.
    + vm_compute. reflexivity.
    + reflexivity.
    + reflexivity.
    + reflexivity.
  - rewrite (@default_policy_rejects_401_to_599
               (mock_environment (Ok (mock_response 400 data_body)))
               (u "GET") (UriStr (u "http://x/y")) NoData None false None initial
               (u "http://x/y") (JObj []) (mock_response 400 data_body)).
    + vm_compute. reflexivity.
    + reflexivity.
    + vm_compute. reflexivity.
    + reflexivity.
    + reflexivity.
    + reflexivity.
Defined.

(** C5, as the claim states it, fails: [raise_for_status] leaves the
    codes from 600 on alone, so such a response is read like a
    successful one. *)
Lemma status_600_is_not_rejected :
  (401 <= 600)%Z /\
  fst (call (mock_environment (Ok (mock_response 600 data_body)))
         (u "GET") (UriStr (u "http://x/y")) NoData None false None initial) =
  Ok (JObj [(u "data", JObj [])]).
Proof. split; [lia|]. vm_compute. reflexivity. Qed.

(** C6, as the code has it. With a set of acceptable statuses that is
    not empty, a response whose status is not in the set raises an
    [HTTPError] with that status as code and the message
    ["Unexpected Status Code <status>"]. *)
Theorem status_outside_nonempty_set_raises_HTTPError
    env method uri data s statuses log headers st target body r :
  resolve_uri uri = Ok target ->
  normalize (python env) data = Ok body ->
  indents env body = true ->
  transport env (dispatched method target body headers) = Ok r ->
  mem (status_code r) (s :: statuses) = false ->
  fst (call env method uri data (Some (s :: statuses)) log headers st) =
  Raise (Api (new_HTTPError (JNum (status_code r))
                (JStr (u "Unexpected Status Code " ++ repr_Z (status_code r))))).
Proof.
  intros Huri Hdata Hind Hsend Hmem.
  erewrite call_with_response; [|eassumption..]. cbn [fst].
  unfold status_error. cbn [no_statuses some_statuses]. rewrite Hmem. reflexivity.
Qed.

Lemma status_outside_nonempty_set_raises_HTTPError_witness :
  fst (call (mock_environment (Ok (mock_response 403 data_body)))
         (u "GET") (UriStr (u "http://x/y")) NoData (Some [200; 400]%Z) false None initial) =
  Raise (Api (new_HTTPError (JNum 403) (JStr (u "Unexpected Status Code 403")))).
Proof.
  apply (@status_outside_nonempty_set_raises_HTTPError
           (mock_environment (Ok (mock_response 403 data_body)))
           (u "GET") (UriStr (u "http://x/y")) NoData 200%Z [400%Z] false None initial
           (u "http://x/y") (JObj []) (mock_response 403 data_body)).
  - reflexivity.
  - vm_compute. reflexivity.
  - reflexivity.
  - reflexivity.
  - reflexivity.
Defined.

(** C6, as the claim states it, fails: an empty set is falsy, so it is
    treated like no set at all and a status outside it is accepted. *)
Lemma empty_status_set_accepts_200 :
  mem 200 [] = false /\
  fst (call (mock_environment (Ok (mock_response 200 data_body)))
         (u "GET") (UriStr (u "http://x/y")) NoData (Some []) false None initial) =
  Ok (JObj [(u "data", JObj [])]).
Proof. split; [reflexivity|]. vm_compute. reflexivity. Qed.

(** C8, as the code has it. The registry is searched for the method as
    it is given: exactly ["GET"], ["PUT"] and ["POST"] reach the function
    of their own, every other method, a lower-case verb too, reaches
    [requests.request] with the name that [str.upper] makes of it; in
    each case with the resolved URI, the normalized body as [json] and
    the headers given. *)
Theorem dispatch_by_method_as_given
    env method uri data statuses log headers st target body :
  resolve_uri uri = Ok target ->
  normalize (python env) data = Ok body ->
  indents env body = true ->
  wire (snd (call env method uri data statuses log headers st)) =
  wire st ++
  [{| via := if str_eqb method (u "GET") then requests_get
             else if str_eqb method (u "PUT") then requests_put
             else if str_eqb method (u "POST") then requests_post
             else requests_request (upper method);
      target := target; payload := body; sent_headers := headers |}].
Proof.
  intros Huri Hdata Hind.
  change (wire (snd (call env method uri data statuses log headers st)) =
          wire st ++ [dispatched method target body headers]).
  destruct (transport env (dispatched method target body headers)) as [r|e] eqn:Hsend.
  - erewrite call_with_response; [|eassumption..]. apply wire_answered.
  - erewrite call_transport_raises; [|eassumption..]. apply wire_failed.
Qed.

Lemma dispatch_by_method_as_given_witness :
  wire (snd (call (mock_environment (Ok (mock_response 200 data_body)))
               (u "POST") (UriStr (u "http://x/y")) (DataText (json_text "{'a': 1}"))
               None false (Some [(u "Authorization", u "Bearer t")]) initial)) =
  [{| via := requests_post; target := u "http://x/y";
      payload := JObj [(u "a", JNum 1)];
      sent_headers := Some [(u "Authorization", u "Bearer t")] |}].
Proof.
  apply (@dispatch_by_method_as_given
           (mock_environment (Ok (mock_response 200 data_body)))
           (u "POST") (UriStr (u "http://x/y")) (DataText (json_text "{'a': 1}"))
           None false (Some [(u "Authorization", u "Bearer t")]) initial
           (u "http://x/y") (JObj [(u "a", JNum 1)])).
  - reflexivity.
  - vm_compute. reflexivity.
  - reflexivity.
Defined.

(** C8, as the claim states it, fails: ["get"] upper-cased is in the
    registry, yet the lookup takes the method as given, so the request
    leaves through [requests.request] and not through [requests.get]. *)
Lemma lowercase_get_uses_generic_request :
  lookup (upper (u "get")) request_methods = Some requests_get /\
  map via (wire (snd (call (mock_environment (Ok (mock_response 200 data_body)))
                        (u "get") (UriStr (u "http://x/y")) NoData None false None initial)))
  = [requests_request (u "GET")].
Proof. split; vm_compute; reflexivity. Qed.

(** What the claim on the log asks of the sink: two prints, each
    flushed, the request's and then the response's. *)
Definition request_then_response (events : list event) : bool :=
  match events with
  | [Printed (RequestText _ _ _ _); Flushed; Printed (ResponseText _ _ _ _); Flushed] => true
  | _ => false
  end.

(** C3, as the code has it. With a sink, and when the transport answers
    with a response, what [call] does is, in this order: it prints the
    request to the sink and flushes it, it sends the request, it prints
    the response to the sink and flushes it; and this whether [call]
    then returns or raises. So the sink is written exactly twice, before
    the dispatch and after the response. *)
Theorem two_log_writes_when_response_obtained
    env method uri data statuses headers st target body r :
  resolve_uri uri = Ok target ->
  normalize (python env) data = Ok body ->
  indents env body = true ->
  transport env (dispatched method target body headers) = Ok r ->
  trace (snd (call env method uri data statuses true headers st)) =
  trace st ++
  [Printed (RequestText (wall_clock env (ticks st)) (upper method) target body);
   Flushed;
   Sent (dispatched method target body headers);
   Printed (ResponseText (wall_clock env (ticks st)) (status_code r)
              (wall_clock env (S (ticks st)) - wall_clock env (ticks st))
              match text r with
              | Some t => t
              | None => u "(unable to decode body)"
              end);
   Flushed] /\
  sink (snd (call env method uri data statuses true headers st)) =
  sink st ++
  [Printed (RequestText (wall_clock env (ticks st)) (upper method) target body);
   Flushed;
   Printed (ResponseText (wall_clock env (ticks st)) (status_code r)
              (wall_clock env (S (ticks st)) - wall_clock env (ticks st))
              match text r with
              | Some t => t
              | None => u "(unable to decode body)"
              end);
   Flushed].
Proof.
  intros Huri Hdata Hind Hsend.
  erewrite call_with_response; [|eassumption..]. cbn [snd]. split; [reflexivity|].
  apply sink_answered.
Qed.

Lemma two_log_writes_when_response_obtained_witness :
  trace (snd (call (mock_environment (Ok (mock_response 403 data_body)))
                (u "get") (UriStr (u "http://x/y")) NoData None true None initial)) =
  [Printed (RequestText 0 (u "GET") (u "http://x/y") (JObj []));
   Flushed;
   Sent {| via := requests_request (u "GET"); target := u "http://x/y";
           payload := JObj []; sent_headers := None |};
   Printed (ResponseText 0 403 1 data_body);
   Flushed] /\
  sink (snd (call (mock_environment (Ok (mock_response 403 data_body)))
               (u "get") (UriStr (u "http://x/y")) NoData None true None initial)) =
  [Printed (RequestText 0 (u "GET") (u "http://x/y") (JObj []));
   Flushed;
   Printed (ResponseText 0 403 1 data_body);
   Flushed].
Proof.
  apply (@two_log_writes_when_response_obtained
           (mock_environment (Ok (mock_response 403 data_body)))
           (u "get") (UriStr (u "http://x/y")) NoData None None initial
           (u "http://x/y") (JObj []) (mock_response 403 data_body)).
  - reflexivity.
  - vm_compute. reflexivity.
  - reflexivity.
  - reflexivity.
Defined.

(** C3, as the claim states it, fails: when the connection fails no
    response is obtained, and what follows the request in the sink is
    the text of the exception; when the transport raises anything that
    is not a [RequestException], the request is the only print. *)
Lemma no_response_log_when_transport_raises :
  sink (snd (call (mock_environment (Raise (RequestException (Some (u "refused")) (u "refused"))))
               (u "GET") (UriStr (u "http://x/y")) NoData None true None initial)) =
  [Printed (RequestText 0 (u "GET") (u "http://x/y") (JObj [])); Flushed;
   Printed (PlainText (u "refused")); Flushed] /\
  request_then_response
    (sink (snd (call (mock_environment (Raise (RequestException (Some (u "refused")) (u "refused"))))
                  (u "GET") (UriStr (u "http://x/y")) NoData None true None initial))) = false /\
  sink (snd (call (mock_environment (Raise (OtherException (u "UnicodeError"))))
               (u "GET") (UriStr (u "http://x/y")) NoData None true None initial)) =
  [Printed (RequestText 0 (u "GET") (u "http://x/y") (JObj [])); Flushed].
Proof. repeat split; vm_compute; reflexivity. Qed.








End HttpFacts.

Module SopelFacts.
Import Sopel.

(** [x] is the word [w], letter by letter, case ignored. *)
Fixpoint word_ic (w x : str) : bool :=
  match w, x with
  | [], [] => true
  | c :: w', ch :: x' => lit_match true c ch && word_ic w' x'
  | _, _ => false
  end.

Definition is_ratsignal (x : str) : bool := word_ic (u "ratsignal") x.

Definition is_code_red (x : str) : bool :=
  word_ic (u "code red") x || word_ic (u "case red") x.

Ltac split_lit :=
  match goal with
  | |- context [lit_match true ?c ?ch] => destruct (lit_match true c ch) eqn:?
  end.

Ltac norm_sub :=
  repeat match goal with
  | |- context [(?a - ?b)%nat] =>
      first [ replace (a - b)%nat with 1%nat by lia
            | replace (a - b)%nat with 3%nat by lia
            | replace (a - b)%nat with 6%nat by lia ]
  end.

Lemma match_ratsignal s :
  match_at ratsignal s =
  if is_ratsignal (firstn 9 s)
  then Some ([(2%nat, firstn 6 (skipn 3 s)); (1%nat, firstn 1 s)], skipn 9 s)
  else None.
Proof.
  unfold match_at, ratsignal, is_ratsignal.
  do 9 (destruct s as [|? s]; [cbn; repeat (split_lit; cbn); reflexivity|]).
  cbn -[Nat.sub]. repeat (split_lit; cbn [andb]); try reflexivity.
  norm_sub. reflexivity.
Qed.

Lemma match_code_red s :
  match_at code_red s =
  if is_code_red (firstn 8 s)
  then Some ([(3%nat, firstn 1 (skipn 7 s)); (2%nat, firstn 1 (skipn 5 s));
              (1%nat, firstn 3 s)], skipn 8 s)
  else None.
Proof.
  unfold match_at, code_red, is_code_red.
  do 8 (destruct s as [|? s]; [cbn; repeat (split_lit; cbn); reflexivity|]).
  cbn -[Nat.sub]. repeat (split_lit; cbn [andb orb]); try reflexivity;
  norm_sub; reflexivity.
Qed.

(** *** Substitution by a pattern of fixed width

    Both patterns match texts of one length only. For such a pattern
    [sub] unfolds along the text, and its result holds no match any
    more as soon as the replacement keeps the first character of the
    match, a character no other position of a match can hold. *)
Section FixedWidth.

Variable p : pattern.
Variable repl : list piece.
Variable w : nat.
Variable acc : str -> bool.
Variable caps_of : str -> captures.
Variable head : N -> bool.

Hypothesis w_pos : (0 < w)%nat.
Hypothesis acc_length : forall x, acc x = true -> length x = w.
Hypothesis match_eq : forall s,
  match_at p s = if acc (firstn w s) then Some (caps_of s, skipn w s) else None.

Definition replaced (s : str) : str := expand repl (caps_of s).

Lemma acc_short x : (length x < w)%nat -> acc x = false.
Proof.
  intros Hl. destruct (acc x) eqn:E; [|reflexivity].
  apply acc_length in E. lia.
Qed.

Lemma sub_scan_skip n s :
  (n <= length s)%nat -> sub_scan p repl n s = sub_scan p repl 0 (skipn n s).
Proof.
  revert s. induction n as [|n IH]; intros s Hn; [reflexivity|].
  destruct s as [|c s]; [cbn in Hn; lia|].
  cbn [sub_scan skipn]. apply IH. cbn in Hn. lia.
Qed.

Lemma sub_unfold s :
  sub p repl s =
  if acc (firstn w s) then replaced s ++ sub p repl (skipn w s)
  else match s with
       | [] => []
       | c :: s' => c :: sub p repl s'
       end.
Proof.
  unfold sub. destruct s as [|c s'].
  - cbn [sub_scan]. rewrite match_eq.
    rewrite acc_short; [reflexivity|]. rewrite firstn_nil. exact w_pos.
  - cbn [sub_scan]. rewrite match_eq.
    destruct (acc (firstn w (c :: s'))) eqn:E; [|reflexivity].
    apply acc_length in E. rewrite length_firstn in E.
    rewrite length_skipn.
    assert (Hw : exists n, w = S n) by (exists (pred w); lia).
    destruct Hw as [n Hw]. rewrite Hw in E. rewrite Hw.
    replace (length (c :: s') - (length (c :: s') - S n))%nat with (S n) by lia.
    cbn [skipn]. rewrite sub_scan_skip; [reflexivity|]. cbn [length] in E. lia.
Qed.

(** No match starts anywhere in [s]. *)
Definition quiet (s : str) : Prop := forall k, acc (firstn w (skipn k s)) = false.

Lemma quiet_nil : quiet [].
Proof.
  intros k. rewrite skipn_nil, firstn_nil. apply acc_short. exact w_pos.
Qed.

Lemma quiet_cons c s : acc (firstn w (c :: s)) = false -> quiet s -> quiet (c :: s).
Proof. intros H0 Hs [|k]; [exact H0|apply Hs]. Qed.

Lemma quiet_tail c s : quiet (c :: s) -> quiet s.
Proof. intros H k. exact (H (S k)). Qed.

Lemma sub_quiet s : quiet s -> sub p repl s = s.
Proof.
  induction s as [|c s IH]; intros Hq; rewrite sub_unfold;
    pose proof (Hq 0%nat) as H0; cbn [skipn] in H0; rewrite H0.
  - reflexivity.
  - f_equal. apply IH. eapply quiet_tail. exact Hq.
Qed.

Hypothesis acc_head : forall x,
  acc x = true ->
  exists h t, x = h :: t /\ head h = true /\ forallb (fun c => negb (head c)) t = true.
Hypothesis replaced_head : forall s,
  acc (firstn w s) = true -> exists h t, replaced s = h :: t /\ head h = true.
Hypothesis replaced_quiet : forall s rest k,
  acc (firstn w s) = true -> (k < length (replaced s))%nat ->
  acc (firstn w (skipn k (replaced s ++ rest))) = false.

Lemma prefix_kept m s :
  forallb (fun c => negb (head c)) (firstn m (sub p repl s)) = true ->
  firstn m (sub p repl s) = firstn m s.
Proof.
  revert s. induction m as [|m IH]; intros s; [reflexivity|].
  rewrite sub_unfold. destruct (acc (firstn w s)) eqn:E.
  - destruct (replaced_head s E) as (h & t & -> & Hh).
    cbn [app firstn forallb]. rewrite Hh. discriminate.
  - destruct s as [|c s']; [reflexivity|].
    cbn [firstn forallb]. intros H. apply andb_prop in H. destruct H as [_ H].
    f_equal. apply IH. exact H.
Qed.

Lemma sub_makes_quiet s : quiet (sub p repl s).
Proof.
  remember (length s) as n eqn:Hn. revert s Hn.
  induction n as [n IH] using lt_wf_ind. intros s ->.
  rewrite sub_unfold. destruct (acc (firstn w s)) eqn:E.
  - assert (Hrest : quiet (sub p repl (skipn w s))).
    { apply (IH (length (skipn w s))); [|reflexivity].
      rewrite length_skipn. apply acc_length in E. rewrite length_firstn in E. lia. }
    intros k. destruct (Nat.lt_ge_cases k (length (replaced s))) as [Hk|Hk].
    + apply replaced_quiet; assumption.
    + rewrite skipn_app. rewrite skipn_all2 by exact Hk. apply Hrest.
  - destruct s as [|c s']; [apply quiet_nil|].
    assert (Hrest : quiet (sub p repl s')).
    { apply (IH (length s')); [cbn; lia|reflexivity]. }
    apply quiet_cons; [|exact Hrest].
    destruct (acc (firstn w (c :: sub p repl s'))) eqn:E'; [|reflexivity].
    exfalso.
    assert (Hw : exists m, w = S m) by (exists (pred w); lia).
    destruct Hw as [m Hw]. rewrite Hw in E, E'. cbn [firstn] in E, E'.
    destruct (acc_head E') as (h & t & Hx & _ & Ht).
    injection Hx as <- <-. rewrite (prefix_kept _ _ Ht) in E'. congruence.
Qed.

End FixedWidth.

(** *** The letters, case ignored *)

(** The characters that match a literal. *)
Definition lit_class (c : N) : list N :=
  c :: match letter_of c with
       | Some l => l :: (l - 32)%N :: folded_to l
       | None => []
       end.

Lemma lit_match_in c ch : lit_match true c ch = true -> In ch (lit_class c).
Proof.
  unfold lit_match, lit_class. intros H. apply orb_prop in H. destruct H as [H|H].
  - left. apply N.eqb_eq in H. congruence.
  - right. cbn [andb] in H. destruct (letter_of c) as [l|]; [|discriminate].
    apply orb_prop in H. destruct H as [H|H].
    + apply orb_prop in H. destruct H as [H|H]; apply N.eqb_eq in H; subst ch.
      * left. reflexivity.
      * right. left. reflexivity.
    + right. right. apply existsb_exists in H. destruct H as (x & Hx & E).
      apply N.eqb_eq in E. subst x. exact Hx.
Qed.

Lemma class_excludes c c' ch :
  forallb (fun x => negb (lit_match true c' x)) (lit_class c) = true ->
  lit_match true c ch = true -> lit_match true c' ch = false.
Proof.
  intros Hall H. apply lit_match_in in H.
  rewrite forallb_forall in Hall. apply Hall in H.
  apply negb_true_iff. exact H.
Qed.

(** Rewrites to [false] a test that a hypothesis or a computation
    refutes. *)
Ltac refute_lit :=
  match goal with
  | H : lit_match true ?c ?ch = true |- context [lit_match true ?c' ?ch] =>
      rewrite (@class_excludes c c' ch eq_refl H)
  | |- context [lit_match true ?a ?b] =>
      let v := eval vm_compute in (lit_match true a b) in
      match v with
      | false => change (lit_match true a b) with false
      end
  end.

Ltac all_false :=
  repeat refute_lit; cbn [andb orb negb]; repeat rewrite andb_false_r; cbn [andb orb negb];
  try reflexivity.

Ltac conjuncts H :=
  repeat match type of H with
         | (_ && _)%bool = true =>
             let H1 := fresh "L" in
             apply andb_prop in H; destruct H as [H1 H]
         end.

Lemma word_ic_length w x : word_ic w x = true -> length x = length w.
Proof.
  revert x. induction w as [|c w IH]; intros [|ch x]; cbn; try discriminate.
  - reflexivity.
  - intros H. apply andb_prop in H. destruct H as [_ H]. f_equal. apply IH. exact H.
Qed.

Lemma ratsignal_word : u "ratsignal" = [114; 97; 116; 115; 105; 103; 110; 97; 108]%N.
Proof. reflexivity. Qed.

Lemma code_red_word : u "code red" = [99; 111; 100; 101; 32; 114; 101; 100]%N.
Proof. reflexivity. Qed.

Lemma case_red_word : u "case red" = [99; 97; 115; 101; 32; 114; 101; 100]%N.
Proof. reflexivity. Qed.

(** *** [(r)at(signal)] *)

Definition ratsignal_caps (s : str) : captures :=
  [(2%nat, firstn 6 (skipn 3 s)); (1%nat, firstn 1 s)].

Definition r_class (c : N) : bool := lit_match true 114 c.

Lemma is_ratsignal_length x : is_ratsignal x = true -> length x = 9%nat.
Proof. intros H. apply word_ic_length in H. exact H. Qed.

Lemma is_ratsignal_shape s :
  is_ratsignal (firstn 9 s) = true ->
  exists c0 c1 c2 c3 c4 c5 c6 c7 c8 rest,
    s = c0 :: c1 :: c2 :: c3 :: c4 :: c5 :: c6 :: c7 :: c8 :: rest /\
    is_ratsignal [c0; c1; c2; c3; c4; c5; c6; c7; c8] = true.
Proof.
  intros H. pose proof (is_ratsignal_length _ H) as Hl. rewrite length_firstn in Hl.
  do 9 (destruct s as [|? s]; [cbn in Hl; lia|]).
  do 10 eexists. split; [reflexivity|exact H].
Qed.

Lemma ratsignal_head x :
  is_ratsignal x = true ->
  exists h t, x = h :: t /\ r_class h = true /\ forallb (fun c => negb (r_class c)) t = true.
Proof.
  intros H. pose proof (is_ratsignal_length _ H) as Hl.
  do 9 (destruct x as [|? x]; [discriminate|]). destruct x; [|discriminate].
  unfold is_ratsignal in H. rewrite ratsignal_word in H. cbn [word_ic] in H. conjuncts H.
  do 2 eexists. split; [reflexivity|]. split; [assumption|].
  unfold r_class. cbn [forallb]. all_false.
Qed.

Lemma ratsignal_replaced_head s :
  is_ratsignal (firstn 9 s) = true ->
  exists h t, replaced ratsignal_repl ratsignal_caps s = h :: t /\ r_class h = true.
Proof.
  intros H. destruct (is_ratsignal_shape _ H) as (c0&c1&c2&c3&c4&c5&c6&c7&c8&rest&->&Hx).
  unfold is_ratsignal in Hx. rewrite ratsignal_word in Hx. cbn [word_ic] in Hx. conjuncts Hx.
  do 2 eexists. split; [reflexivity|assumption].
Qed.

Lemma ratsignal_replaced_quiet s rest k :
  is_ratsignal (firstn 9 s) = true ->
  (k < length (replaced ratsignal_repl ratsignal_caps s))%nat ->
  is_ratsignal (firstn 9 (skipn k (replaced ratsignal_repl ratsignal_caps s ++ rest))) = false.
Proof.
  intros H. destruct (is_ratsignal_shape _ H) as (c0&c1&c2&c3&c4&c5&c6&c7&c8&rest'&->&Hx).
  unfold is_ratsignal in Hx. rewrite ratsignal_word in Hx. cbn [word_ic] in Hx. conjuncts Hx.
  change (replaced ratsignal_repl ratsignal_caps
            (c0 :: c1 :: c2 :: c3 :: c4 :: c5 :: c6 :: c7 :: c8 :: rest'))
    with [c0; 64%N; c3; c4; c5; c6; c7; c8].
  cbn [length]. intros Hk. unfold is_ratsignal. rewrite ratsignal_word.
  do 8 (destruct k as [|k];
        [destruct rest as [|? rest]; cbn [app skipn firstn word_ic]; all_false|]).
  lia.
Qed.

Lemma sub_ratsignal_quiet s : quiet 9 is_ratsignal (sub ratsignal ratsignal_repl s).
Proof.
  apply (@sub_makes_quiet ratsignal ratsignal_repl 9 is_ratsignal ratsignal_caps r_class).
  - lia.
  - exact is_ratsignal_length.
  - exact match_ratsignal.
  - exact ratsignal_head.
  - exact ratsignal_replaced_head.
  - exact ratsignal_replaced_quiet.
Qed.

Lemma sub_ratsignal_fixed s :
  quiet 9 is_ratsignal s -> sub ratsignal ratsignal_repl s = s.
Proof.
  apply (@sub_quiet ratsignal ratsignal_repl 9 is_ratsignal ratsignal_caps).
  - lia.
  - exact is_ratsignal_length.
  - exact match_ratsignal.
Qed.

(** *** [(cod|cas)e (r)e(d)] *)

Definition code_red_caps (s : str) : captures :=
  [(3%nat, firstn 1 (skipn 7 s)); (2%nat, firstn 1 (skipn 5 s)); (1%nat, firstn 3 s)].

Definition c_class (c : N) : bool := lit_match true 99 c.

Lemma is_code_red_length x : is_code_red x = true -> length x = 8%nat.
Proof.
  intros H. apply orb_prop in H. destruct H as [H|H]; apply word_ic_length in H; exact H.
Qed.

Lemma is_code_red_shape s :
  is_code_red (firstn 8 s) = true ->
  exists c0 c1 c2 c3 c4 c5 c6 c7 rest,
    s = c0 :: c1 :: c2 :: c3 :: c4 :: c5 :: c6 :: c7 :: rest /\
    is_code_red [c0; c1; c2; c3; c4; c5; c6; c7] = true.
Proof.
  intros H. pose proof (is_code_red_length _ H) as Hl. rewrite length_firstn in Hl.
  do 8 (destruct s as [|? s]; [cbn in Hl; lia|]).
  do 9 eexists. split; [reflexivity|exact H].
Qed.

(** The letters of a match, whichever alternative it took. *)
Ltac code_red_letters H :=
  unfold is_code_red in H; rewrite code_red_word, case_red_word in H;
  cbn [word_ic] in H; apply orb_prop in H; destruct H as [H|H]; conjuncts H.

Lemma code_red_head x :
  is_code_red x = true ->
  exists h t, x = h :: t /\ c_class h = true /\ forallb (fun c => negb (c_class c)) t = true.
Proof.
  intros H. pose proof (is_code_red_length _ H) as Hl.
  do 8 (destruct x as [|? x]; [discriminate|]). destruct x; [|discriminate].
  code_red_letters H;
    (do 2 eexists; split; [reflexivity|]; split; [assumption|]);
    unfold c_class; cbn [forallb]; all_false.
Qed.

Lemma code_red_replaced_head s :
  is_code_red (firstn 8 s) = true ->
  exists h t, replaced code_red_repl code_red_caps s = h :: t /\ c_class h = true.
Proof.
  intros H. destruct (is_code_red_shape _ H) as (c0&c1&c2&c3&c4&c5&c6&c7&rest&->&Hx).
  code_red_letters Hx; (do 2 eexists; split; [reflexivity|assumption]).
Qed.

Lemma code_red_replaced_quiet s rest k :
  is_code_red (firstn 8 s) = true ->
  (k < length (replaced code_red_repl code_red_caps s))%nat ->
  is_code_red (firstn 8 (skipn k (replaced code_red_repl code_red_caps s ++ rest))) = false.
Proof.
  intros H. destruct (is_code_red_shape _ H) as (c0&c1&c2&c3&c4&c5&c6&c7&rest'&->&Hx).
  change (replaced code_red_repl code_red_caps
            (c0 :: c1 :: c2 :: c3 :: c4 :: c5 :: c6 :: c7 :: rest'))
    with [c0; c1; c2; 51%N; 32%N; c5; 51%N; c7].
  cbn [length]. intros Hk. unfold is_code_red. rewrite code_red_word, case_red_word.
  code_red_letters Hx;
    (do 8 (destruct k as [|k];
           [destruct rest as [|? rest]; cbn [app skipn firstn word_ic]; all_false|]);
     lia).
Qed.

Lemma sub_code_red_quiet s : quiet 8 is_code_red (sub code_red code_red_repl s).
Proof.
  apply (@sub_makes_quiet code_red code_red_repl 8 is_code_red code_red_caps c_class).
  - lia.
  - exact is_code_red_length.
  - exact match_code_red.
  - exact code_red_head.
  - exact code_red_replaced_head.
  - exact code_red_replaced_quiet.
Qed.

Lemma sub_code_red_fixed s :
  quiet 8 is_code_red s -> sub code_red code_red_repl s = s.
Proof.
  apply (@sub_quiet code_red code_red_repl 8 is_code_red code_red_caps).
  - lia.
  - exact is_code_red_length.
  - exact match_code_red.
Qed.

(** The second substitution changes a text only by writing ['3'] over
    some of its characters. *)
Definition kept_or_3 (a b : N) : Prop := b = a \/ b = 51%N.

Lemma sub_code_red_pointwise s : Forall2 kept_or_3 s (sub code_red code_red_repl s).
Proof.
  remember (length s) as n eqn:Hn. revert s Hn.
  induction n as [n IH] using lt_wf_ind. intros s ->.
  rewrite (@sub_unfold code_red code_red_repl 8 is_code_red code_red_caps
             ltac:(lia) is_code_red_length match_code_red).
  destruct (is_code_red (firstn 8 s)) eqn:E.
  - destruct (is_code_red_shape _ E) as (c0&c1&c2&c3&c4&c5&c6&c7&rest&->&_).
    change (replaced code_red_repl code_red_caps
              (c0 :: c1 :: c2 :: c3 :: c4 :: c5 :: c6 :: c7 :: rest))
      with [c0; c1; c2; 51%N; 32%N; c5; 51%N; c7].
    cbn [skipn app].
    assert (E4 : c4 = 32%N).
    { cbn [firstn] in E. code_red_letters E;
        match goal with
        | H : lit_match true 32 c4 = true |- _ =>
            apply lit_match_in in H; cbn in H; decompose [or] H; congruence || contradiction
        end. }
    subst c4.
    repeat (constructor; [first [left; reflexivity | right; reflexivity]|]).
    apply (IH (length rest)); [cbn; lia|reflexivity].
  - destruct s as [|c s']; constructor.
    + left. reflexivity.
    + apply (IH (length s')); [cbn; lia|reflexivity].
Qed.

Lemma word_ic_pointwise w s o :
  Forall2 kept_or_3 s o ->
  forallb (fun c => negb (lit_match true c 51)) w = true ->
  word_ic w (firstn (length w) o) = true ->
  word_ic w (firstn (length w) s) = true.
Proof.
  intros HF. revert w. induction HF as [|a b s o Hab HF IH]; intros w Hw.
  - intros H. exact H.
  - destruct w as [|c w]; [intros H; exact H|].
    cbn [length firstn word_ic forallb] in *. intros H.
    apply andb_prop in Hw. destruct Hw as [Hc Hw].
    apply andb_prop in H. destruct H as [Hb H].
    apply negb_true_iff in Hc.
    destruct Hab as [->| ->]; [|congruence].
    rewrite Hb. cbn [andb]. apply IH; assumption.
Qed.

Lemma Forall2_skipn {A B} (R : A -> B -> Prop) k l l' :
  Forall2 R l l' -> Forall2 R (skipn k l) (skipn k l').
Proof.
  intros H. revert k. induction H; intros [|k]; cbn [skipn]; auto.
Qed.

Lemma quiet_ratsignal_pointwise s o :
  Forall2 kept_or_3 s o -> quiet 9 is_ratsignal s -> quiet 9 is_ratsignal o.
Proof.
  intros HF Hs k. specialize (Hs k).
  destruct (is_ratsignal (firstn 9 (skipn k o))) eqn:E; [|reflexivity].
  unfold is_ratsignal in *.
  apply (@word_ic_pointwise (u "ratsignal") (skipn k s)) in E.
  - change (length (u "ratsignal")) with 9%nat in E. congruence.
  - apply Forall2_skipn. exact HF.
  - reflexivity.
Qed.

Lemma transform_unfold m :
  transform m = sub code_red code_red_repl (sub ratsignal ratsignal_repl m).
Proof. reflexivity. Qed.

(** C10. [transform] is idempotent: in the text it returns no match of
    either pattern is left, so a second pass changes nothing. *)
Theorem transform_idempotent (message : str) :
  transform (transform message) = transform message.
Proof.
  rewrite !transform_unfold.
  set (x := sub ratsignal ratsignal_repl message).
  set (y := sub code_red code_red_repl x).
  assert (Hy1 : quiet 9 is_ratsignal y).
  { apply (@quiet_ratsignal_pointwise x).
    - apply sub_code_red_pointwise.
    - apply sub_ratsignal_quiet. }
  rewrite (sub_ratsignal_fixed Hy1).
  apply sub_code_red_fixed. apply sub_code_red_quiet.
Qed.

End SopelFacts.

(** * Further properties *)

Module UrlMore.
Import Url UrlFacts.

(** X1. Empty segments do not count: the result is that of the
    segments that are not empty. *)
Theorem urljoin_ignores_empty_segments (parts : list str) :
  urljoin parts = urljoin (filter nonempty parts).
Proof. unfold urljoin. rewrite gen_skips_empty. reflexivity. Qed.

Definition without_slashes (s : str) : str :=
  filter (fun c => negb (N.eqb c chr_slash)) s.

Lemma without_slashes_app a b :
  without_slashes (a ++ b) = without_slashes a ++ without_slashes b.
Proof. apply filter_app. Qed.

Lemma without_slashes_tl s :
  first_is_slash s = true -> without_slashes (tl s) = without_slashes s.
Proof.
  destruct s as [|c s]; [discriminate|]. cbn [first_is_slash tl without_slashes filter].
  intros H. rewrite H. reflexivity.
Qed.

Lemma gen_keeps_content prev parts :
  without_slashes (concat (_gen prev parts)) = without_slashes (concat parts).
Proof.
  revert prev. induction parts as [|part rest IH]; intros prev; [reflexivity|].
  cbn [_gen concat]. rewrite (without_slashes_app part).
  destruct (falsy part) eqn:Ef.
  - destruct part; [|discriminate]. apply IH.
  - destruct prev as [p|].
    + destruct (falsy p).
      * cbn [concat]. rewrite without_slashes_app, IH. reflexivity.
      * destruct (negb _).
        -- cbn [concat]. rewrite without_slashes_app, IH. reflexivity.
        -- destruct (first_is_slash part) eqn:Es.
           ++ cbn [concat]. rewrite without_slashes_app, IH, without_slashes_tl by exact Es.
              reflexivity.
           ++ cbn [concat]. rewrite !without_slashes_app, IH. reflexivity.
    + cbn [concat]. rewrite without_slashes_app, IH. reflexivity.
Qed.

(** X2. [urljoin] adds and removes slashes only: the characters that
    are not slashes are those of the segments, in their order. *)
Theorem urljoin_keeps_content (parts : list str) :
  without_slashes (urljoin parts) = without_slashes (concat parts).
Proof. apply gen_keeps_content. Qed.

(** The value of [prev] when [_gen] has gone through [parts]. *)
Fixpoint prev_after (prev : option str) (parts : list str) : option str :=
  match parts with
  | [] => prev
  | part :: rest =>
      if falsy part then prev_after prev rest
      else
        match prev with
        | None => prev_after (Some part) rest
        | Some p =>
            if falsy p then prev_after (Some part) rest
            else if negb (Bool.eqb (last_is_slash p) (first_is_slash part))
            then prev_after (Some part) rest
            else if first_is_slash part then prev_after (Some (tl part)) rest
            else prev_after (Some part) rest
        end
  end.

Lemma gen_app prev xs ys :
  _gen prev (xs ++ ys) = _gen prev xs ++ _gen (prev_after prev xs) ys.
Proof.
  revert prev. induction xs as [|x xs IH]; intros prev; [reflexivity|].
  cbn [app _gen prev_after].
  destruct (falsy x); [apply IH|].
  destruct prev as [p|]; [|cbn [app]; rewrite IH; reflexivity].
  destruct (falsy p); [cbn [app]; rewrite IH; reflexivity|].
  destruct (negb _); [cbn [app]; rewrite IH; reflexivity|].
  destruct (first_is_slash x); cbn [app]; rewrite IH; reflexivity.
Qed.

(** When no segment is the lone slash, [prev] is never emptied: it
    stays what it was while nothing is yielded, and is then the end of
    what has been yielded. *)
Lemma prev_ends_output xs :
  (forall x, In x xs -> x <> [chr_slash]) ->
  forall prev, (forall q, prev = Some q -> q <> []) ->
    (prev_after prev xs = prev /\ concat (_gen prev xs) = []) \/
    (exists p pre, prev_after prev xs = Some p /\ p <> [] /\
                   concat (_gen prev xs) = pre ++ p).
Proof.
  induction xs as [|x xs IH]; intros Hxs prev Hprev; [left; split; reflexivity|].
  assert (Hrest : forall y, In y xs -> y <> [chr_slash]).
  { intros y Hy. apply Hxs. right. exact Hy. }
  cbn [_gen prev_after]. destruct (falsy x) eqn:Ef; [apply IH; assumption|].
  assert (Hx : x <> []) by (intros ->; discriminate).
  assert (Hstep : forall new emitted,
             new <> [] -> (exists pre, emitted = pre ++ new) ->
             exists p pre, prev_after (Some new) xs = Some p /\ p <> [] /\
                           emitted ++ concat (_gen (Some new) xs) = pre ++ p).
  { intros new emitted Hnew (pre & ->).
    destruct (IH Hrest (Some new)) as [[E1 E2]|(p & pre' & E1 & Hp & E2)].
    - intros q [= <-]. exact Hnew.
    - exists new, pre. rewrite E1, E2, app_nil_r. repeat split. exact Hnew.
    - exists p, (pre ++ new ++ pre'). rewrite E1, E2, <- !app_assoc. repeat split. exact Hp. }
  right.
  assert (Hplain : exists p pre, prev_after (Some x) xs = Some p /\ p <> [] /\
                                 concat (x :: _gen (Some x) xs) = pre ++ p).
  { cbn [concat]. apply Hstep; [exact Hx|]. exists []. reflexivity. }
  destruct prev as [q|]; [|exact Hplain].
  destruct (falsy q); [exact Hplain|].
  destruct (negb _); [exact Hplain|].
  destruct (first_is_slash x) eqn:Es.
  - cbn [concat]. apply Hstep; [|exists []; reflexivity].
    destruct x as [|c [|c' t]]; [contradiction| |discriminate].
    cbn [first_is_slash] in Es. apply N.eqb_eq in Es. subst c.
    exfalso. apply (Hxs [chr_slash]); [left; reflexivity|reflexivity].
  - cbn [concat]. rewrite app_assoc. apply Hstep; [exact Hx|].
    exists [chr_slash]. reflexivity.
Qed.

Lemma gen_same_end s p ys :
  s <> [] -> p <> [] -> last_is_slash s = last_is_slash p ->
  _gen (Some s) ys = _gen (Some p) ys.
Proof.
  intros Hs Hp Hl. induction ys as [|y ys IH]; [reflexivity|].
  cbn [_gen]. destruct (falsy y); [exact IH|].
  destruct s; [contradiction|]. destruct p; [contradiction|].
  cbn [falsy]. rewrite Hl. reflexivity.
Qed.

(** X3. Joining in two stages. When no segment of the first stage is
    the lone slash, joining its result with further segments gives what
    joining all the segments at once gives. *)
Theorem urljoin_in_stages (xs ys : list str) :
  (forall x, In x xs -> x <> [chr_slash]) ->
  urljoin (urljoin xs :: ys) = urljoin (xs ++ ys).
Proof.
  intros Hxs.
  assert (Hnone : forall q : str, None = Some q -> q <> []) by discriminate.
  destruct (prev_ends_output xs Hxs Hnone) as [[E1 E2]|(p & pre & E1 & Hp & E2)];
    fold (urljoin xs) in E2.
  - unfold urljoin at 3. rewrite gen_app, concat_app, E1. fold (urljoin xs). rewrite E2.
    reflexivity.
  - unfold urljoin at 3. rewrite gen_app, concat_app, E1. fold (urljoin xs).
    assert (Hs : urljoin xs <> []).
    { rewrite E2. destruct pre; [exact Hp|discriminate]. }
    unfold urljoin at 1. cbn [_gen].
    destruct (urljoin xs) as [|c s] eqn:Eu; [contradiction|].
    cbn [falsy concat]. f_equal. f_equal.
    apply gen_same_end; [discriminate|exact Hp|].
    rewrite E2. apply last_is_slash_app. exact Hp.
Qed.

Lemma urljoin_in_stages_witness :
  urljoin (urljoin [u "http://api/"; u "/v1"] :: [u "rescues/"; u "/42"]) =
  urljoin ([u "http://api/"; u "/v1"] ++ [u "rescues/"; u "/42"]).
Proof.
  apply urljoin_in_stages.
  intros x [<-|[<-|[]]]; discriminate.
Defined.

End UrlMore.

Module HttpMore.
Import Json Http HttpFacts.

(** The statuses the policy of [call] lets through: without a set,
    all but 401 to 599; with one, its members. *)
Definition accepted (statuses : option (list Z)) (status : Z) : bool :=
  if no_statuses statuses
  then negb ((401 <=? status)%Z && (status <? 600)%Z)
  else mem status (some_statuses statuses).

Lemma accepted_no_error statuses r :
  accepted statuses (status_code r) = true -> status_error statuses r = None.
Proof.
  unfold accepted, status_error. destruct (no_statuses statuses).
  - intros H. apply negb_true_iff in H. rewrite H. reflexivity.
  - intros H. rewrite H. reflexivity.
Qed.

(** X4. Without a sink nothing is ever written: whatever the
    arguments and whatever the transport does, the sink is as it was. *)
Theorem no_sink_no_write env method uri data statuses headers st :
  sink (snd (call env method uri data statuses false headers st)) = sink st.
Proof.
  destruct (resolve_uri uri) as [target|e] eqn:Huri.
  - destruct (normalize (python env) data) as [body|e] eqn:Hdata.
    + destruct (indents env body) eqn:Hind.
      * destruct (transport env (dispatched method target body headers)) as [r|e] eqn:Hsend.
        -- erewrite call_with_response; [|eassumption..]. cbn [snd].
           rewrite sink_answered. apply app_nil_r.
        -- erewrite call_transport_raises; [|eassumption..]. cbn [snd].
           rewrite sink_failed. apply app_nil_r.
      * erewrite call_cannot_indent; [|eassumption..]. reflexivity.
    + erewrite call_refuses_data; [|eassumption..]. reflexivity.
  - unfold call. rewrite Huri. reflexivity.
Qed.

(** X5. A body text that [json.loads] refuses, because it is not JSON,
    because an integer in it has too many digits or because it nests
    too deep, stops [call] at once: the exception of [json.loads] leaves
    [call], nothing is logged, no request is sent, the clock is not
    read. *)
Theorem malformed_body_stops_call env method target c s statuses log headers st e :
  loads (python env) (c :: s) = Raise e ->
  call env method (UriStr target) (DataText (c :: s)) statuses log headers st =
  (Raise (Builtin e), st).
Proof.
  intros H. apply call_refuses_data with (target := target); [reflexivity|].
  unfold normalize. rewrite H. reflexivity.
Qed.

Lemma malformed_body_stops_call_witness :
  call (mock_environment (Ok (mock_response 200 data_body)))
    (u "POST") (UriStr (u "http://x/y")) (DataText (json_text "{'a': 1,}")) None true None initial
  = (Raise (Builtin ValueError), initial).
Proof.
  apply (@malformed_body_stops_call
           (mock_environment (Ok (mock_response 200 data_body)))
           (u "POST") (u "http://x/y") 123%N (json_text "'a': 1,}") None true None initial
           ValueError).
  vm_compute. reflexivity.
Defined.

(** X6. Success. When the status is accepted and the parsed body is an
    object with a [data] member and no [errors] member, [call] returns
    that body. *)
Theorem accepted_body_with_data_is_returned
    env method uri data statuses log headers st target body r d x :
  resolve_uri uri = Ok target ->
  normalize (python env) data = Ok body ->
  indents env body = true ->
  transport env (dispatched method target body headers) = Ok r ->
  accepted statuses (status_code r) = true ->
  json_value r = Ok (JObj d) ->
  dict_get (u "errors") d = None ->
  dict_get (u "data") d = Some x ->
  fst (call env method uri data statuses log headers st) = Ok (JObj d).
Proof.
  intros Huri Hdata Hind Hsend Hacc Hjson Herr Hd.
  erewrite call_with_response; [|eassumption..]. cbn [fst].
  rewrite (accepted_no_error _ _ Hacc). unfold body_outcome. rewrite Hjson.
  unfold interpret, bind, lift, ret, raise, py_in. rewrite Herr, Hd. reflexivity.
Qed.

Lemma accepted_body_with_data_is_returned_witness :
  fst (call (mock_environment (Ok (mock_response 200 (json_text "{'data': {'ok': true}}"))))
         (u "GET") (UriStr (u "http://x/y")) NoData None false None initial) =
  Ok (JObj [(u "data", JObj [(u "ok", JBool true)])]).
Proof.
  apply (@accepted_body_with_data_is_returned
           (mock_environment (Ok (mock_response 200 (json_text "{'data': {'ok': true}}"))))
           (u "GET") (UriStr (u "http://x/y")) NoData None false None initial
           (u "http://x/y") (JObj [])
           (mock_response 200 (json_text "{'data': {'ok': true}}"))
           [(u "data", JObj [(u "ok", JBool true)])] (JObj [(u "ok", JBool true)])).
  - reflexivity.
  - vm_compute. reflexivity.
  - reflexivity.
  - reflexivity.
  - reflexivity.
  - vm_compute. reflexivity.
  - reflexivity.
  - reflexivity.
Defined.

(** X7. When the status is accepted and the parsed body is an object
    with neither [errors] nor [data], [call] raises a
    [BadResponseError] without code, with the message of the missing
    field and the body attached. *)
Theorem body_without_data_raises_BadResponseError
    env method uri data statuses log headers st target body r d :
  resolve_uri uri = Ok target ->
  normalize (python env) data = Ok body ->
  indents env body = true ->
  transport env (dispatched method target body headers) = Ok r ->
  accepted statuses (status_code r) = true ->
  json_value r = Ok (JObj d) ->
  dict_get (u "errors") d = None ->
  dict_get (u "data") d = None ->
  fst (call env method uri data statuses log headers st) =
  Raise (Api (new_BadResponseError JNull
                (JStr (u "Did not receive a data field in a non-error response."))
                (JObj d))).
Proof.
  intros Huri Hdata Hind Hsend Hacc Hjson Herr Hd.
  erewrite call_with_response; [|eassumption..]. cbn [fst].
  rewrite (accepted_no_error _ _ Hacc). unfold body_outcome. rewrite Hjson.
  unfold interpret, bind, lift, ret, raise, py_in. rewrite Herr, Hd. reflexivity.
Qed.

Lemma body_without_data_raises_BadResponseError_witness :
  fst (call (mock_environment (Ok (mock_response 200 (json_text "{'meta': 1}"))))
         (u "GET") (UriStr (u "http://x/y")) NoData (Some [200%Z]) false None initial) =
  Raise (Api (new_BadResponseError JNull
                (JStr (u "Did not receive a data field in a non-error response."))
                (JObj [(u "meta", JNum 1)]))).
Proof.
  apply (@body_without_data_raises_BadResponseError
           (mock_environment (Ok (mock_response 200 (json_text "{'meta': 1}"))))
           (u "GET") (UriStr (u "http://x/y")) NoData (Some [200%Z]) false None initial
           (u "http://x/y") (JObj []) (mock_response 200 (json_text "{'meta': 1}"))
           [(u "meta", JNum 1)]).
  - reflexivity.
  - vm_compute. reflexivity.
  - reflexivity.
  - reflexivity.
  - reflexivity.
  - vm_compute. reflexivity.
  - reflexivity.
  - reflexivity.
Defined.

(** X8. When the status is accepted and [.json()] raises on the body
    of the response, a [ValueError], which is what a body that is not
    JSON gives, becomes the [BadJSONError] with its fixed code ['2608']
    and message; any other exception leaves [call] as it is. *)
Theorem body_not_json_raises_BadJSONError
    env method uri data statuses log headers st target body r e :
  resolve_uri uri = Ok target ->
  normalize (python env) data = Ok body ->
  indents env body = true ->
  transport env (dispatched method target body headers) = Ok r ->
  accepted statuses (status_code r) = true ->
  json_value r = Raise e ->
  fst (call env method uri data statuses log headers st) =
  match e with
  | ValueError =>
      Raise (Api {| error_type := BadJSONError; code := JStr (u "2608");
                    details := JStr (u "API didn't return valid JSON."); attached := JNull |})
  | _ => Raise (Builtin e)
  end.
Proof.
  intros Huri Hdata Hind Hsend Hacc Hjson.
  erewrite call_with_response; [|eassumption..]. cbn [fst].
  rewrite (accepted_no_error _ _ Hacc). unfold body_outcome. rewrite Hjson.
  destruct e; reflexivity.
Qed.

Lemma body_not_json_raises_BadJSONError_witness :
  fst (call (mock_environment (Ok (mock_response 200 (u "<html>oops</html>"))))
         (u "GET") (UriStr (u "http://x/y")) NoData None false None initial) =
  Raise (Api {| error_type := BadJSONError; code := JStr (u "2608");
                details := JStr (u "API didn't return valid JSON."); attached := JNull |}).
Proof.
  apply (@body_not_json_raises_BadJSONError
           (mock_environment (Ok (mock_response 200 (u "<html>oops</html>"))))
           (u "GET") (UriStr (u "http://x/y")) NoData None false None initial
           (u "http://x/y") (JObj []) (mock_response 200 (u "<html>oops</html>")) ValueError).
  - reflexivity.
  - vm_compute. reflexivity.
  - reflexivity.
  - reflexivity.
  - reflexivity.
  - vm_compute. reflexivity.
Defined.

(** X9. A set of statuses overrides the default policy in both
    directions: a status in the set is let through whatever it is, a
    server error too, and the outcome is the one of the body. *)
Theorem status_in_set_is_let_through
    env method uri data s statuses log headers st target body r :
  resolve_uri uri = Ok target ->
  normalize (python env) data = Ok body ->
  indents env body = true ->
  transport env (dispatched method target body headers) = Ok r ->
  mem (status_code r) (s :: statuses) = true ->
  fst (call env method uri data (Some (s :: statuses)) log headers st) = body_outcome r.
Proof.
  intros Huri Hdata Hind Hsend Hmem.
  erewrite call_with_response; [|eassumption..]. cbn [fst].
  unfold status_error. cbn [no_statuses some_statuses]. rewrite Hmem. reflexivity.
Qed.

Lemma status_in_set_is_let_through_witness :
  fst (call (mock_environment (Ok (mock_response 503 data_body)))
         (u "GET") (UriStr (u "http://x/y")) NoData (Some [200; 503]%Z) false None initial) =
  body_outcome (mock_response 503 data_body) /\
  body_outcome (mock_response 503 data_body) = Ok (JObj [(u "data", JObj [])]).
Proof.
  split; [|vm_compute; reflexivity].
  apply (@status_in_set_is_let_through
           (mock_environment (Ok (mock_response 503 data_body)))
           (u "GET") (UriStr (u "http://x/y")) NoData 200%Z [503%Z] false None initial
           (u "http://x/y") (JObj []) (mock_response 503 data_body)).
  - reflexivity.
  - vm_compute. reflexivity.
  - reflexivity.
  - reflexivity.
  - reflexivity.
Defined.

Lemma interpret_ok v w :
  fst (interpret v initial) = Ok w ->
  w = v /\ py_in (u "data") v = Ok true /\ py_in (u "errors") v = Ok false.
Proof.
  unfold interpret, bind, lift, ret, raise.
  destruct (py_in (u "errors") v) as [[|]|]; cbn [fst].
  - destruct (getitem v (u "errors")) as [errs|]; cbn [fst]; [|discriminate].
    destruct (getitem0 errs) as [err|]; cbn [fst]; [|discriminate].
    destruct (get err (u "name")); cbn [fst]; [|discriminate].
    destruct (get err (u "message")); cbn [fst]; discriminate.
  - destruct (py_in (u "data") v) as [[|]|]; cbn [fst]; try discriminate.
    intros [= <-]. repeat split.
  - discriminate.
Qed.

(** X10. What [call] returns. A result is always the parsed body of
    the response that the transport gave to the one request [call]
    sent, made of the method, the URI and the body of the call, and
    that body holds [data] and does not hold [errors]. *)
Theorem result_is_body_with_data env method uri data statuses log headers st v :
  fst (call env method uri data statuses log headers st) = Ok v ->
  py_in (u "data") v = Ok true /\ py_in (u "errors") v = Ok false /\
  exists target body r,
    resolve_uri uri = Ok target /\
    normalize (python env) data = Ok body /\
    wire (snd (call env method uri data statuses log headers st)) =
      wire st ++ [dispatched method target body headers] /\
    transport env (dispatched method target body headers) = Ok r /\
    json_value r = Ok v.
Proof.
  intros H.
  destruct (resolve_uri uri) as [target|e] eqn:Huri;
    [|unfold call in H; rewrite Huri in H; discriminate].
  destruct (normalize (python env) data) as [body|e] eqn:Hdata;
    [|erewrite call_refuses_data in H; [discriminate|eassumption..]].
  destruct (indents env body) eqn:Hind;
    [|erewrite call_cannot_indent in H; [discriminate|eassumption..]].
  destruct (transport env (dispatched method target body headers)) as [r|e] eqn:Hsend;
    [|erewrite call_transport_raises in H; [discriminate|eassumption..]].
  erewrite call_with_response; [|eassumption..].
  erewrite call_with_response in H; [|eassumption..]. cbn [fst snd] in *.
  destruct (status_error statuses r); [discriminate|].
  unfold body_outcome in H. destruct (json_value r) as [w|[]] eqn:Hjson; try discriminate.
  apply interpret_ok in H. destruct H as (-> & Hd & He).
  repeat split; try assumption. exists target, body, r.
  repeat split; try assumption; try reflexivity. apply wire_answered.
Qed.

Lemma result_is_body_with_data_witness :
  py_in (u "data") (JObj [(u "data", JObj [])]) = Ok true /\
  py_in (u "errors") (JObj [(u "data", JObj [])]) = Ok false /\
  exists target body r,
    resolve_uri (UriStr (u "http://x/y")) = Ok target /\
    normalize (python (mock_environment (Ok (mock_response 200 data_body)))) NoData = Ok body /\
    wire (snd (call (mock_environment (Ok (mock_response 200 data_body)))
                 (u "GET") (UriStr (u "http://x/y")) NoData None false None initial)) =
      wire initial ++ [dispatched (u "GET") target body None] /\
    transport (mock_environment (Ok (mock_response 200 data_body)))
      (dispatched (u "GET") target body None) = Ok r /\
    json_value r = Ok (JObj [(u "data", JObj [])]).
Proof.
  apply (@result_is_body_with_data
           (mock_environment (Ok (mock_response 200 data_body)))
           (u "GET") (UriStr (u "http://x/y")) NoData None false None initial).
  vm_compute. reflexivity.
Defined.

(** X11. A failure of the transport that is a [RequestException]
    other than an [HTTPError] becomes a [BadResponseError] without
    code, details or body, whatever the statuses asked for; one request
    was sent, the clock was read once, and with a sink the request was
    printed before it was sent and the text of the exception after. *)
Theorem request_exception_becomes_BadResponseError
    env method uri data statuses log headers st target body arg0 message :
  resolve_uri uri = Ok target ->
  normalize (python env) data = Ok body ->
  indents env body = true ->
  transport env (dispatched method target body headers)
    = Raise (RequestException arg0 message) ->
  call env method uri data statuses log headers st =
  (Raise (Api (new_BadResponseError JNull JNull JNull)),
   {| trace := trace st ++
        (if log then
           [Printed (RequestText (wall_clock env (ticks st)) (upper method) target body);
            Flushed]
         else [])
        ++ [Sent (dispatched method target body headers)]
        ++ (if log then
              [Printed (PlainText match arg0 with Some a => a | None => message end);
               Flushed]
            else []);
      ticks := S (ticks st);
      response_var := None |}).
Proof.
  intros Huri Hdata Hind Hsend.
  erewrite call_transport_raises; [|eassumption..]. reflexivity.
Qed.

Lemma request_exception_becomes_BadResponseError_witness :
  fst (call (mock_environment (Raise (RequestException None (u "timed out"))))
         (u "GET") (UriStr (u "http://x/y")) NoData (Some [200%Z]) true None initial) =
  Raise (Api (new_BadResponseError JNull JNull JNull)).
Proof.
  rewrite (@request_exception_becomes_BadResponseError
             (mock_environment (Raise (RequestException None (u "timed out"))))
             (u "GET") (UriStr (u "http://x/y")) NoData (Some [200%Z]) true None initial
             (u "http://x/y") (JObj []) None (u "timed out")).
  - reflexivity.
  - reflexivity.
  - vm_compute. reflexivity.
  - reflexivity.
  - reflexivity.
Defined.

(** X12. A body that parses to [null], a boolean or a number is not
    checked for its shape: when the status is accepted, the test
    ['errors' in result] raises [TypeError], which leaves [call]. *)
Theorem scalar_body_raises_TypeError
    env method uri data statuses log headers st target body r v :
  resolve_uri uri = Ok target ->
  normalize (python env) data = Ok body ->
  indents env body = true ->
  transport env (dispatched method target body headers) = Ok r ->
  accepted statuses (status_code r) = true ->
  json_value r = Ok v ->
  match v with JNull | JBool _ | JNum _ | JFloat _ => True | _ => False end ->
  fst (call env method uri data statuses log headers st) = Raise TypeError.
Proof.
  intros Huri Hdata Hind Hsend Hacc Hjson Hv.
  erewrite call_with_response; [|eassumption..]. cbn [fst].
  rewrite (accepted_no_error _ _ Hacc). unfold body_outcome. rewrite Hjson.
  destruct v; try contradiction; reflexivity.
Qed.

Lemma scalar_body_raises_TypeError_witness :
  fst (call (mock_environment (Ok (mock_response 200 (u "null"))))
         (u "GET") (UriStr (u "http://x/y")) NoData None false None initial) =
  Raise TypeError.
Proof.
  apply (@scalar_body_raises_TypeError
           (mock_environment (Ok (mock_response 200 (u "null"))))
           (u "GET") (UriStr (u "http://x/y")) NoData None false None initial
           (u "http://x/y") (JObj []) (mock_response 200 (u "null")) JNull).
  - reflexivity.
  - vm_compute. reflexivity.
  - reflexivity.
  - reflexivity.
  - reflexivity.
  - vm_compute. reflexivity.
  - exact I.
Defined.

(** X13. A body given as text is normalized to the value the text
    denotes, a mapping or not: a text that [json.dumps] has written of
    a value JSON can carry is normalized to that value, when the value
    nests no deeper than the scanner may go, and the empty text to the
    empty object. *)
Theorem text_body_normalization (py : limits) (v : json) (t : str) :
  dumps py v = Ok t ->
  representable v = true ->
  (depth v <= decoder_depth py)%nat ->
  (1 <= decoder_depth py)%nat ->
  normalize py (DataText t) = Ok v /\ normalize py (DataText []) = Ok (JObj []).
Proof.
  intros Ht Hrep Hd H1. split.
  - unfold normalize.
    destruct (@JsonFacts.encoded_all py v _ _ Ht) as [E _].
    destruct (JsonFacts.text_head v []) as (c & r & Eh & _). rewrite app_nil_r in Eh.
    rewrite E, Eh, <- Eh, <- E.
    rewrite (@JsonFacts.loads_dumps py v t Ht Hrep Hd). reflexivity.
  - unfold normalize, loads. destruct (decoder_depth py) as [|room]; [lia|]. reflexivity.
Qed.

Lemma text_body_normalization_witness :
  normalize cpython (DataText (json_text "[1, 'two', null, 2.5]")) =
    Ok (JArr [JNum 1; JStr (u "two"); JNull; JFloat (Float.Finite false 5629499534213120 (-51))]) /\
  normalize cpython (DataText []) = Ok (JObj []).
Proof.
  apply (@text_body_normalization cpython
           (JArr [JNum 1; JStr (u "two"); JNull;
                  JFloat (Float.Finite false 5629499534213120 (-51))])
           (json_text "[1, 'two', null, 2.5]")).
  - vm_compute. reflexivity.
  - vm_compute. reflexivity.
  - vm_compute. repeat constructor.
  - vm_compute. repeat constructor.
Defined.

End HttpMore.

Module SopelMore.
Import Sopel SopelFacts.

(** [pattern.search(s) is not None], for a pattern that matches no
    empty text: a match starts at some place of [s]. *)
Definition found (p : pattern) (s : str) : bool :=
  existsb (fun k => match match_at p (skipn k s) with Some _ => true | None => false end)
    (seq 0 (S (length s))).

(** The message holds a text one of the [replacements] is after. *)
Definition mentions (message : str) : bool :=
  found ratsignal message || found code_red message.

Section Occurrences.

Variable p : pattern.
Variable repl : list piece.
Variable w : nat.
Variable acc : str -> bool.
Variable caps_of : str -> captures.

Hypothesis w_pos : (0 < w)%nat.
Hypothesis acc_length : forall x, acc x = true -> length x = w.
Hypothesis match_eq : forall s,
  match_at p s = if acc (firstn w s) then Some (caps_of s, skipn w s) else None.

Lemma found_spec s :
  found p s = true <-> exists k, acc (firstn w (skipn k s)) = true.
Proof.
  unfold found. rewrite existsb_exists. split.
  - intros (k & _ & H). exists k. rewrite match_eq in H.
    destruct (acc (firstn w (skipn k s))); [reflexivity|discriminate].
  - intros (k & H). exists (Nat.min k (length s)). split.
    + apply in_seq. lia.
    + rewrite match_eq.
      destruct (Nat.le_gt_cases k (length s)) as [Hk|Hk].
      * rewrite Nat.min_l by exact Hk. rewrite H. reflexivity.
      * rewrite skipn_all2 in H by lia. rewrite firstn_nil in H.
        apply acc_length in H. cbn in H. lia.
Qed.

Lemma not_found_quiet s : found p s = false <-> quiet w acc s.
Proof.
  split.
  - intros H k. destruct (acc (firstn w (skipn k s))) eqn:E; [|reflexivity].
    assert (found p s = true) by (apply found_spec; exists k; exact E). congruence.
  - intros H. destruct (found p s) eqn:E; [|reflexivity].
    apply found_spec in E. destruct E as (k & E). rewrite H in E. discriminate.
Qed.

Hypothesis replaced_differs : forall s rest,
  acc (firstn w s) = true -> replaced repl caps_of s ++ rest <> s.

Lemma sub_changes s : found p s = true -> sub p repl s <> s.
Proof.
  intros H. apply found_spec in H. destruct H as (k & H). revert k H.
  induction s as [|c s IH]; intros k H.
  - rewrite skipn_nil, firstn_nil in H. apply acc_length in H. cbn in H. lia.
  - rewrite (@sub_unfold p repl w acc caps_of w_pos acc_length match_eq).
    destruct (acc (firstn w (c :: s))) eqn:E; [apply replaced_differs; exact E|].
    destruct k as [|k]; [cbn [skipn] in H; congruence|].
    intros [= Heq]. exact (IH k H Heq).
Qed.

End Occurrences.

Lemma found_ratsignal_spec s :
  found ratsignal s = true <-> exists k, is_ratsignal (firstn 9 (skipn k s)) = true.
Proof.
  apply (@found_spec ratsignal 9 is_ratsignal ratsignal_caps);
    [lia|exact is_ratsignal_length|exact match_ratsignal].
Qed.

Lemma ratsignal_quiet_iff s : found ratsignal s = false <-> quiet 9 is_ratsignal s.
Proof.
  apply (@not_found_quiet ratsignal 9 is_ratsignal ratsignal_caps);
    [lia|exact is_ratsignal_length|exact match_ratsignal].
Qed.

Lemma code_red_quiet_iff s : found code_red s = false <-> quiet 8 is_code_red s.
Proof.
  apply (@not_found_quiet code_red 8 is_code_red code_red_caps);
    [lia|exact is_code_red_length|exact match_code_red].
Qed.

Lemma sub_ratsignal_unfold s :
  sub ratsignal ratsignal_repl s =
  if is_ratsignal (firstn 9 s)
  then replaced ratsignal_repl ratsignal_caps s ++ sub ratsignal ratsignal_repl (skipn 9 s)
  else match s with [] => [] | c :: s' => c :: sub ratsignal ratsignal_repl s' end.
Proof.
  apply (@sub_unfold ratsignal ratsignal_repl 9 is_ratsignal ratsignal_caps);
    [lia|exact is_ratsignal_length|exact match_ratsignal].
Qed.

Lemma sub_ratsignal_length s :
  (length (sub ratsignal ratsignal_repl s) <= length s)%nat.
Proof.
  remember (length s) as n eqn:Hn. revert s Hn.
  induction n as [n IH] using lt_wf_ind. intros s ->.
  rewrite sub_ratsignal_unfold. destruct (is_ratsignal (firstn 9 s)) eqn:E.
  - destruct (is_ratsignal_shape _ E) as (c0&c1&c2&c3&c4&c5&c6&c7&c8&rest&->&_).
    change (replaced ratsignal_repl ratsignal_caps
              (c0 :: c1 :: c2 :: c3 :: c4 :: c5 :: c6 :: c7 :: c8 :: rest))
      with [c0; 64%N; c3; c4; c5; c6; c7; c8].
    cbn [skipn app length].
    pose proof (IH (length rest) ltac:(cbn; lia) rest eq_refl). lia.
  - destruct s as [|c s']; [cbn; lia|].
    cbn [length]. pose proof (IH (length s') ltac:(cbn; lia) s' eq_refl). lia.
Qed.

Lemma sub_ratsignal_shorter s :
  found ratsignal s = true ->
  (length (sub ratsignal ratsignal_repl s) < length s)%nat.
Proof.
  intros H. apply found_ratsignal_spec in H. destruct H as (k & H). revert k H.
  induction s as [|c s IH]; intros k H.
  - rewrite skipn_nil, firstn_nil in H. discriminate.
  - rewrite sub_ratsignal_unfold.
    destruct (is_ratsignal (firstn 9 (c :: s))) eqn:E.
    + destruct (is_ratsignal_shape _ E) as (c0&c1&c2&c3&c4&c5&c6&c7&c8&rest&Es&_).
      rewrite Es.
      change (replaced ratsignal_repl ratsignal_caps
                (c0 :: c1 :: c2 :: c3 :: c4 :: c5 :: c6 :: c7 :: c8 :: rest))
        with [c0; 64%N; c3; c4; c5; c6; c7; c8].
      cbn [skipn app length]. pose proof (sub_ratsignal_length rest). lia.
    + destruct k as [|k]; [cbn [skipn] in H; congruence|].
      cbn [length]. pose proof (IH k H). lia.
Qed.

Lemma sub_code_red_length s : length (sub code_red code_red_repl s) = length s.
Proof. symmetry. eapply Forall2_length. apply sub_code_red_pointwise. Qed.

Lemma ratsignal_replaced_differs s rest :
  is_ratsignal (firstn 9 s) = true ->
  replaced ratsignal_repl ratsignal_caps s ++ rest <> s.
Proof.
  intros H. destruct (is_ratsignal_shape _ H) as (c0&c1&c2&c3&c4&c5&c6&c7&c8&rest'&->&Hx).
  unfold is_ratsignal in Hx. rewrite ratsignal_word in Hx. cbn [word_ic] in Hx. conjuncts Hx.
  change (replaced ratsignal_repl ratsignal_caps
            (c0 :: c1 :: c2 :: c3 :: c4 :: c5 :: c6 :: c7 :: c8 :: rest'))
    with [c0; 64%N; c3; c4; c5; c6; c7; c8].
  intros [= E _]. subst c1. vm_compute in L0. discriminate.
Qed.

Lemma code_red_replaced_differs s rest :
  is_code_red (firstn 8 s) = true ->
  replaced code_red_repl code_red_caps s ++ rest <> s.
Proof.
  intros H. destruct (is_code_red_shape _ H) as (c0&c1&c2&c3&c4&c5&c6&c7&rest'&->&Hx).
  change (replaced code_red_repl code_red_caps
            (c0 :: c1 :: c2 :: c3 :: c4 :: c5 :: c6 :: c7 :: rest'))
    with [c0; c1; c2; 51%N; 32%N; c5; 51%N; c7].
  intros [= E _]. subst c3.
  code_red_letters Hx;
    match goal with
    | L : lit_match true 101 51 = true |- _ => vm_compute in L; discriminate
    end.
Qed.

(** The text [transform] returns, as the second substitution of the
    first. *)
Lemma transform_result_quiet message :
  quiet 9 is_ratsignal (transform message) /\ quiet 8 is_code_red (transform message).
Proof.
  rewrite transform_unfold. split.
  - apply (@quiet_ratsignal_pointwise (sub ratsignal ratsignal_repl message)).
    + apply sub_code_red_pointwise.
    + apply sub_ratsignal_quiet.
  - apply sub_code_red_quiet.
Qed.

Lemma transform_fixed message :
  quiet 9 is_ratsignal message -> quiet 8 is_code_red message ->
  transform message = message.
Proof.
  intros H1 H2. rewrite transform_unfold, (sub_ratsignal_fixed H1).
  apply sub_code_red_fixed. exact H2.
Qed.

Lemma transform_twice message : transform (transform message) = transform message.
Proof.
  destruct (transform_result_quiet message) as [H1 H2]. apply transform_fixed; assumption.
Qed.

(** X14. The filter does its work: in the text [transform] returns,
    neither pattern finds a match any more. *)
Theorem transform_leaves_no_match (message : str) :
  mentions (transform message) = false.
Proof.
  destruct (transform_result_quiet message) as [H1 H2].
  unfold mentions. apply orb_false_intro.
  - apply ratsignal_quiet_iff. exact H1.
  - apply code_red_quiet_iff. exact H2.
Qed.

(** X15. [transform] changes the messages that hold a match of one of
    the patterns, and no others. *)
Theorem transform_changes_what_it_mentions (message : str) :
  transform message = message <-> mentions message = false.
Proof.
  split.
  - intros Heq. unfold mentions.
    destruct (found ratsignal message) eqn:E1.
    + exfalso. apply sub_ratsignal_shorter in E1.
      rewrite transform_unfold in Heq.
      apply (f_equal (@length N)) in Heq. rewrite sub_code_red_length in Heq. lia.
    + cbn [orb]. destruct (found code_red message) eqn:E2; [|reflexivity].
      exfalso. apply ratsignal_quiet_iff in E1.
      rewrite transform_unfold, (sub_ratsignal_fixed E1) in Heq.
      revert Heq.
      apply (@sub_changes code_red code_red_repl 8 is_code_red code_red_caps);
        [lia|exact is_code_red_length|exact match_code_red
        |exact code_red_replaced_differs|exact E2].
  - intros H. unfold mentions in H. apply orb_false_elim in H. destruct H as [H1 H2].
    apply transform_fixed; [apply ratsignal_quiet_iff|apply code_red_quiet_iff]; assumption.
Qed.

(** X16. [transform] never makes a message longer, and makes it
    shorter exactly when it holds a match of the first pattern. *)
Theorem transform_length (message : str) :
  (length (transform message) <= length message)%nat /\
  (length (transform message) < length message <-> found ratsignal message = true)%nat.
Proof.
  rewrite transform_unfold, sub_code_red_length. split; [apply sub_ratsignal_length|].
  split.
  - intros Hlt. destruct (found ratsignal message) eqn:E; [reflexivity|].
    apply ratsignal_quiet_iff in E. rewrite (sub_ratsignal_fixed E) in Hlt. lia.
  - apply sub_ratsignal_shorter.
Qed.

End SopelMore.

Module GlueFacts.
Import Http Sopel Glue.

(** *** The wrapper *)

Lemma emit_wrapped b m message :
  emit (OutputFilterWrapper b) m message = [(m, transform message)].
Proof.
  revert message. induction b as [|b IH]; intros message; [reflexivity|].
  change (emit (OutputFilterWrapper (OutputFilterWrapper b)) m message)
    with (emit (OutputFilterWrapper b) m (transform message)).
  rewrite IH, SopelMore.transform_twice. reflexivity.
Qed.

(** X17. However many wrappers stand around the framework's bot, as
    when [filter_output] decorates a handler more than once, a message
    reaches the bot once and filtered once. The flag [transform=False]
    spares the message only on a wrapper that holds the bot itself: a
    wrapper inside filters all the same. *)
Theorem wrappers_filter_once (b : bot) (m : method) (message : str) :
  emit (OutputFilterWrapper b) m message = [(m, transform message)] /\
  emit_with (OutputFilterWrapper b) m message false = [(m, transform message)] /\
  emit_with SopelBot m message false = [(m, message)].
Proof.
  split; [apply emit_wrapped|]. split; [|reflexivity].
  unfold emit_with. apply emit_wrapped.
Qed.

(** *** [BooleanAttribute] *)

(** X18. A boolean that is serialized is parsed back to itself. *)
Theorem parse_serialize (value : bool) : parse (serialize value) = Ok value.
Proof. destruct value; reflexivity. Qed.

Definition false_words : list str :=
  [u "0"; u "off"; u "n"; u "no"; u "f"; u "false"].

Definition true_words : list str :=
  [u "1"; u "on"; u "y"; u "yes"; u "t"; u "true"].

(** X19. [parse] knows twelve words, in any letter case, and raises
    [ValueError] on every other value: the default [False] of its
    lookup is never the answer to an unknown word. *)
Theorem parse_known_words_only (value : str) :
  parse value =
  if existsb (str_eqb (lower value)) false_words then Ok false
  else if existsb (str_eqb (lower value)) true_words then Ok true
  else Raise ValueError.
Proof.
  unfold parse, choice_parse, TRUTH, false_words, true_words.
  cbn [map fst existsb lookup].
  repeat match goal with
         | |- context [str_eqb (lower value) ?k] =>
             destruct (str_eqb (lower value) k) eqn:?; cbn [orb];
             repeat match goal with
                    | H : str_eqb (lower value) _ = _ |- _ => rewrite H
                    end;
             try reflexivity
         end.
Qed.

(** *** [best_channel_mode] *)

Section Privileges.

Variable K : Type.
Variable Identifier : str -> K.

Definition bits_in (channel : K -> option Z) (nickname : str) : Z :=
  match channel (Identifier nickname) with Some bits => bits | None => 0%Z end.

Lemma fold_lor_testbit privileges nickname acc i :
  Z.testbit
    (fold_left
       (fun access channel =>
          Z.lor access
            match channel (Identifier nickname) with Some bits => bits | None => 0%Z end)
       privileges acc) i
  = Z.testbit acc i || existsb (fun channel => Z.testbit (bits_in channel nickname) i) privileges.
Proof.
  revert acc. induction privileges as [|channel rest IH]; intros acc.
  - cbn. rewrite orb_false_r. reflexivity.
  - cbn [fold_left existsb]. rewrite IH, Z.lor_spec. unfold bits_in at 2.
    rewrite orb_assoc. reflexivity.
Qed.

Lemma mode_testbit privileges nickname i :
  Z.testbit (best_channel_mode Identifier privileges nickname) i
  = existsb (fun channel => Z.testbit (bits_in channel nickname) i) privileges.
Proof.
  unfold best_channel_mode. rewrite fold_lor_testbit. rewrite Z.bits_0. reflexivity.
Qed.

(** X20. A privilege bit is in the result when, and only when, the
    nickname holds it in some channel. *)
Theorem best_channel_mode_bits privileges nickname i :
  Z.testbit (best_channel_mode Identifier privileges nickname) i = true <->
  exists channel,
    In channel privileges /\ Z.testbit (bits_in channel nickname) i = true.
Proof.
  rewrite mode_testbit, existsb_exists. reflexivity.
Qed.

Lemma existsb_permutation {A} (f : A -> bool) l l' :
  Permutation l l' -> existsb f l = existsb f l'.
Proof.
  induction 1; cbn [existsb]; try congruence.
  rewrite !orb_assoc, (orb_comm (f y)). reflexivity.
Qed.

(** X21. The order in which the channels are gone through does not
    matter. *)
Theorem best_channel_mode_any_order privileges privileges' nickname :
  Permutation privileges privileges' ->
  best_channel_mode Identifier privileges nickname
  = best_channel_mode Identifier privileges' nickname.
Proof.
  intros HP. apply Z.bits_inj. intros i.
  rewrite !mode_testbit. apply existsb_permutation. exact HP.
Qed.

Lemma fold_lor_zero privileges nickname acc :
  fold_left
    (fun access channel =>
       Z.lor access
         match channel (Identifier nickname) with Some bits => bits | None => 0%Z end)
    privileges acc = 0%Z
  <-> acc = 0%Z /\ forall channel, In channel privileges -> bits_in channel nickname = 0%Z.
Proof.
  revert acc. induction privileges as [|channel rest IH]; intros acc.
  - cbn. split; [intros ->; split; [reflexivity|contradiction]|intros [-> _]; reflexivity].
  - cbn [fold_left]. rewrite IH, Z.lor_eq_0_iff. unfold bits_in. split.
    + intros [[Ha Hc] Hrest]. split; [exact Ha|].
      intros ch [<-|Hin]; [exact Hc|apply Hrest; exact Hin].
    + intros [Ha Hall]. repeat split; [exact Ha|apply Hall; left; reflexivity|].
      intros ch Hin. apply Hall. right. exact Hin.
Qed.

(** X22. The result is [0] when, and only when, the nickname has no
    privilege in any channel: it is in none, or with [0] where it is. *)
Theorem best_channel_mode_zero privileges nickname :
  best_channel_mode Identifier privileges nickname = 0%Z <->
  forall channel, In channel privileges -> bits_in channel nickname = 0%Z.
Proof.
  unfold best_channel_mode. rewrite fold_lor_zero. split.
  - intros [_ H]. exact H.
  - intros H. split; [reflexivity|exact H].
Qed.

End Privileges.

Definition ops_channel (nick : str) : option Z :=
  if str_eqb nick (u "marenthyu") then Some 4%Z else None.

Definition voice_channel (nick : str) : option Z :=
  if str_eqb nick (u "marenthyu") then Some 1%Z else Some 0%Z.

Lemma best_channel_mode_any_order_witness :
  best_channel_mode lower [ops_channel; voice_channel] (u "Marenthyu")
  = best_channel_mode lower [voice_channel; ops_channel] (u "Marenthyu").
Proof.
  apply best_channel_mode_any_order. apply perm_swap.
Defined.

(** *** [makepath] *)

Lemma makepath_ends_with_filename_aux (dir filename : str) :
  (exists before, makepath dir filename = before ++ filename) /\
  isabs (makepath dir filename) = isabs filename || isabs dir.
Proof.
  unfold makepath, path_join, isabs.
  destruct (first_is_slash filename) eqn:Ef.
  - split; [exists []; reflexivity|]. rewrite Ef. reflexivity.
  - destruct dir as [|c dir].
    + split; [exists []; reflexivity|]. cbn [falsy orb app]. rewrite Ef. reflexivity.
    + cbn [falsy orb]. destruct (last_is_slash (c :: dir)).
      * split; [exists (c :: dir); reflexivity|reflexivity].
      * split; [exists ((c :: dir) ++ [chr_slash]); rewrite <- app_assoc; reflexivity|].
        reflexivity.
Qed.

(** X23. The file name ends the path [makepath] returns, and the path
    is absolute exactly when the file name or the directory is. *)
Theorem makepath_ends_with_filename (dir filename : str) :
  (exists before, makepath dir filename = before ++ filename) /\
  isabs (makepath dir filename) = isabs filename || isabs dir.
Proof. apply makepath_ends_with_filename_aux. Qed.

(** X24. Under an absolute directory [makepath] need not be told
    whether a file name has gone through it already: applied to its
    own result it returns it. *)
Theorem makepath_twice (dir filename : str) :
  isabs dir = true ->
  makepath dir (makepath dir filename) = makepath dir filename.
Proof.
  intros Hd.
  destruct (makepath_ends_with_filename_aux dir filename) as [_ Habs].
  unfold makepath at 1. rewrite Habs, Hd, orb_true_r. reflexivity.
Qed.

Lemma makepath_twice_witness :
  makepath (u "/srv/run") (makepath (u "/srv/run") (u "systems.db"))
  = makepath (u "/srv/run") (u "systems.db").
Proof. apply makepath_twice. reflexivity. Defined.

End GlueFacts.
